(** * zyx-env: encrypted configuration files

    A shallow embedding of the TopSecret cipher wrapper ([index.js]), of the
    key resolver ([loadEncryptKey.js], two variants), of the line parser
    and loader ([loadEnvFile.js]), of the multi-file loader
    ([loadEnvFiles.js]) and of the helpers [isJsonLike.js],
    [createReadOnlyObject.js] and [mergeIntoProcess.env].

    Conventions.
    - A JavaScript string is the list of its UTF-16 code units; a Buffer is
      the list of its bytes.  Both are lists of [N].
    - The file system is a finite map from paths to bytes, [process.env]
      a finite map from names to values that refuses the names the
      operating system refuses.
    - A JavaScript object is the list of its own properties, each with its
      attributes, in the order [Object.keys] lists them: the array indices
      in ascending order, then the other keys in the order of creation.
    - A call that may throw returns a [result]; a call that touches the
      file system, the environment table or the console runs in the state
      monad [M] over [World].
    - Node's own functions (the cipher, the hash, glob, path resolution)
      are the fields of the record [Platform]. *)

From Stdlib Require Import NArith ZArith Lia String Ascii DecimalString.
From stdpp Require Import gmap list.

Set Warnings "-register-all".

Abbreviation jsstring := (list N).
Abbreviation bytes := (list N).

(** ** String literals *)

Fixpoint str (s : string) : jsstring :=
  match s with
  | EmptyString => []
  | String c r => N_of_ascii c :: str r
  end.

(** A literal that holds double quotes, written with apostrophes. *)
Definition dq (s : string) : jsstring :=
  map (fun c => if (c =? 39)%N then 34%N else c) (str s).

(** ** The string methods the sources call *)

Module JsString.

Local Open Scope N_scope.

(** WhiteSpace and LineTerminator of ECMAScript: what [trim] removes and
    what [\s] matches. *)
Definition is_line_terminator (c : N) : bool :=
  (c =? 0x0A) || (c =? 0x0D) || (c =? 0x2028) || (c =? 0x2029).

Definition is_space (c : N) : bool :=
  (c =? 0x09) || (c =? 0x0B) || (c =? 0x0C) || (c =? 0x20) || (c =? 0xA0)
  || (c =? 0x1680) || ((0x2000 <=? c) && (c <=? 0x200A))
  || (c =? 0x202F) || (c =? 0x205F) || (c =? 0x3000) || (c =? 0xFEFF)
  || is_line_terminator c.

Fixpoint trimStart (s : jsstring) : jsstring :=
  match s with
  | c :: r => if is_space c then trimStart r else s
  | [] => []
  end.

Definition trimEnd (s : jsstring) : jsstring := rev (trimStart (rev s)).

(** [s.trim()] *)
Definition trim (s : jsstring) : jsstring := trimEnd (trimStart s).

(** [s.split(c)] for a separator of one code unit: never empty. *)
Fixpoint split (c : N) (s : jsstring) : list jsstring :=
  match s with
  | [] => [[]]
  | x :: r =>
      if x =? c then [] :: split c r
      else match split c r with
           | h :: t => (x :: h) :: t
           | [] => [[x]]
           end
  end.

(** [parts.join(c)] *)
Fixpoint join (c : N) (parts : list jsstring) : jsstring :=
  match parts with
  | [] => []
  | [p] => p
  | p :: rest => p ++ c :: join c rest
  end.

Definition strip_cr (s : jsstring) : jsstring :=
  match rev s with
  | 0x0D :: r => rev r
  | _ => s
  end.

Fixpoint strip_cr_but_last (parts : list jsstring) : list jsstring :=
  match parts with
  | [] => []
  | [p] => [p]
  | p :: rest => strip_cr p :: strip_cr_but_last rest
  end.

(** [s.split(/\r?\n/)]: every newline ends a piece, and a carriage return
    right before it belongs to the separator. *)
Definition split_lines (s : jsstring) : list jsstring :=
  strip_cr_but_last (split 0x0A s).

Fixpoint eqb (a b : jsstring) : bool :=
  match a, b with
  | [], [] => true
  | x :: a', y :: b' => (x =? y) && eqb a' b'
  | _, _ => false
  end.

Fixpoint startsWith (s p : jsstring) : bool :=
  match p, s with
  | [], _ => true
  | x :: p', y :: s' => (x =? y) && startsWith s' p'
  | _ :: _, [] => false
  end.

Definition endsWith (s p : jsstring) : bool := startsWith (rev s) (rev p).

(** A string is truthy when it is not empty. *)
Definition truthy (s : jsstring) : bool :=
  match s with [] => false | _ => true end.

(** [s.replace(/\s+#.*$/, "")].  The pattern has no flag: [$] is the end
    of the string and [.] stops at a line terminator.  A match starts at
    a white-space unit whose run of white space is followed by [#] and
    then by no line terminator up to the end; the leftmost one is
    replaced, that is the string is cut there. *)
Definition comment_follows (r : jsstring) : bool :=
  match trimStart r with
  | 0x23 :: rest => forallb (fun c => negb (is_line_terminator c)) rest
  | _ => false
  end.

Fixpoint strip_inline_comment (s : jsstring) : jsstring :=
  match s with
  | [] => []
  | c :: r =>
      if is_space c && comment_follows r then []
      else c :: strip_inline_comment r
  end.

End JsString.

(** ** JavaScript values *)

(** Numbers are exact decimals [mantissa * 10 ^ exponent], kept normal
    (exponent 0 for an integer, no trailing zero in a fraction); rounding
    to a double is left out. *)
Inductive number := Dec (mantissa exponent : Z).

Record attrs := Attrs { writable : bool; enumerable : bool; configurable : bool }.

(** An object is a plain object or an array ([isArray]), may accept new
    properties ([extensible]), and owns its properties in the order of its
    own keys.  An array owns its elements under the keys "0", "1", ...; its
    [length] is not among the properties of the model.  The prototype of
    an object is not part of a [value]; [Obj.object] keeps it for the one
    object whose prototype the sources can replace. *)
Inductive value :=
  | VUndefined
  | VNull
  | VBool (b : bool)
  | VNumber (n : number)
  | VString (s : jsstring)
  | VObject (isArray extensible : bool) (props : list (jsstring * (value * attrs))).

Abbreviation property := (value * attrs)%type.
Abbreviation properties := (list (jsstring * (value * attrs))).

(** The attributes of a property made by assignment or by a literal. *)
Definition plain : attrs := Attrs true true true.

Module Obj.

Local Open Scope N_scope.

Fixpoint lookup (k : jsstring) (ps : properties) : option property :=
  match ps with
  | [] => None
  | (k', p) :: r => if JsString.eqb k k' then Some p else lookup k r
  end.

(** Replaces the property [k] where it stands. *)
Fixpoint replace (k : jsstring) (p : property) (ps : properties) : properties :=
  match ps with
  | [] => []
  | (k', p') :: r =>
      if JsString.eqb k k' then (k', p) :: r else (k', p') :: replace k p r
  end.

Fixpoint remove (k : jsstring) (ps : properties) : properties :=
  match ps with
  | [] => []
  | (k', p') :: r => if JsString.eqb k k' then r else (k', p') :: remove k r
  end.

Definition digit (c : N) : option N :=
  if (0x30 <=? c) && (c <=? 0x39) then Some (c - 0x30) else None.

Fixpoint number_of (acc : N) (s : jsstring) : option N :=
  match s with
  | [] => Some acc
  | c :: r =>
      match digit c with
      | Some d => number_of (acc * 10 + d) r
      | None => None
      end
  end.

(** The key is an array index: the decimal form, without a leading zero,
    of an integer below 2^32 - 1. *)
Definition array_index (k : jsstring) : option N :=
  match k with
  | [] => None
  | 0x30 :: _ :: _ => None
  | _ =>
      match number_of 0 k with
      | Some n => if n <? 4294967295 then Some n else None
      | None => None
      end
  end.

Fixpoint insert_index (i : N) (k : jsstring) (p : property) (ps : properties)
  : properties :=
  match ps with
  | [] => [(k, p)]
  | (k', p') :: r =>
      match array_index k' with
      | Some j => if j <? i then (k', p') :: insert_index i k p r else (k, p) :: ps
      | None => (k, p) :: ps
      end
  end.

(** A new property takes its place in the order of the own keys: an array
    index goes among the indices, any other key to the end. *)
Definition insert (k : jsstring) (p : property) (ps : properties) : properties :=
  match array_index k with
  | Some i => insert_index i k p ps
  | None => ps ++ [(k, p)]
  end.

(** The own property [k] is made to hold [v], as [JSON.parse] does for
    each member and as an assignment does once it reaches the object
    itself: a property that is there keeps its place, a new one is
    inserted. *)
Definition create (k : jsstring) (v : value) (ps : properties) : properties :=
  match lookup k ps with
  | Some _ => replace k (v, plain) ps
  | None => insert k (v, plain) ps
  end.

(** The prototype of an object under construction: [Object.prototype] as
    for every [{}], [null], or an object that was assigned to
    [__proto__]. *)
Inductive prototype :=
  | ObjectPrototype
  | NullPrototype
  | Proto (v : value).

(** An ordinary object that only assignments have touched: every own
    property is [plain]. *)
Record object := mkObject {
  own : properties;
  proto : prototype
}.

(** [{}] *)
Definition fresh : object := mkObject [] ObjectPrototype.

Definition proto_name : jsstring := str "__proto__".

(** The setter of the accessor [__proto__] of [Object.prototype]: an
    object or [null] becomes the prototype, any other value is ignored. *)
Definition set_prototype (v : value) (o : object) : object :=
  match v with
  | VObject _ _ _ => mkObject (own o) (Proto v)
  | VNull => mkObject (own o) NullPrototype
  | _ => o
  end.

Definition assign_own (k : jsstring) (v : value) (o : object) : object :=
  mkObject (create k v (own o)) (proto o).

(** [o[k] = v].  An own property is overwritten.  Otherwise the look-up
    goes through the prototypes: everything it can find there is a
    writable data property, which lets the assignment make an own
    property, except the accessor [__proto__] of [Object.prototype],
    whose setter is called instead and makes no property.  That accessor
    is out of reach once the prototype is [null] or owns a property
    [__proto__] itself (as what [JSON.parse] makes of such a member
    does).  The last case of a prototype whose [__proto__] is not writable
    is a [TypeError] in strict code; no value that [JSON.parse] makes has
    such a property. *)
Definition put (k : jsstring) (v : value) (o : object) : object :=
  if JsString.eqb k proto_name then
    match lookup k (own o), proto o with
    | Some _, _ => assign_own k v o
    | None, ObjectPrototype => set_prototype v o
    | None, NullPrototype => assign_own k v o
    | None, Proto (VObject _ _ ps) =>
        match lookup k ps with
        | Some (_, a) => if writable a then assign_own k v o else o
        | None => set_prototype v o
        end
    | None, Proto _ => set_prototype v o
    end
  else assign_own k v o.

(** The object that [JSON.parse] makes of these members, in this order. *)
Definition literal (entries : list (jsstring * value)) : value :=
  VObject false true (fold_left (fun ps e => create (fst e) (snd e) ps) entries []).

Definition index_key (i : nat) : jsstring :=
  str (NilZero.string_of_uint (N.to_uint (N.of_nat i))).

(** The array literal with these elements. *)
Definition array (elements : list value) : value :=
  VObject true true (imap (fun i v => (index_key i, (v, plain))) elements).

End Obj.

Definition num (z : Z) : value := VNumber (Dec z 0).

(** ** [JSON.parse]

    Strict JSON (ECMA-404), the grammar [JSON.parse] accepts; [None] stands
    for the SyntaxError it throws. *)

Module Json.

Local Open Scope N_scope.

Definition is_ws (c : N) : bool :=
  (c =? 0x20) || (c =? 0x09) || (c =? 0x0A) || (c =? 0x0D).

Fixpoint skip_ws (s : jsstring) : jsstring :=
  match s with
  | c :: r => if is_ws c then skip_ws r else s
  | [] => []
  end.

Definition digit (c : N) : option Z :=
  if (0x30 <=? c) && (c <=? 0x39) then Some (Z.of_N (c - 0x30)) else None.

(** The longest run of digits at the head of [s], and what follows. *)
Fixpoint digits (s : jsstring) : list Z * jsstring :=
  match s with
  | c :: r =>
      match digit c with
      | Some d => let '(ds, rest) := digits r in (d :: ds, rest)
      | None => ([], s)
      end
  | [] => ([], [])
  end.

Definition of_digits (ds : list Z) : Z :=
  fold_left (fun acc d => acc * 10 + d)%Z ds 0%Z.

(** The normal form: an integer has exponent 0, and a fraction has no
    trailing zero. *)
Fixpoint strip_zeros (fuel : nat) (m e : Z) : number :=
  match fuel with
  | O => Dec m e
  | S f =>
      if (e <? 0)%Z && (m mod 10 =? 0)%Z then strip_zeros f (m / 10)%Z (e + 1)%Z
      else Dec m e
  end.

Definition normalise (m e : Z) : number :=
  if (0 <=? e)%Z then Dec (m * 10 ^ e)%Z 0 else strip_zeros (Z.to_nat (- e)) m e.

(** The decimal with these integer and fraction digits and this exponent. *)
Definition decimal (negative : bool) (int frac : list Z) (exp : Z) : number :=
  let m := of_digits (int ++ frac) in
  normalise (if negative then - m else m)%Z (exp - Z.of_nat (length frac))%Z.

Definition parse_exponent (s : jsstring) : option (Z * jsstring) :=
  match s with
  | c :: r =>
      if (c =? 0x65) || (c =? 0x45) then
        let '(neg, r') :=
          match r with
          | 0x2D :: r' => (true, r')
          | 0x2B :: r' => (false, r')
          | _ => (false, r)
          end in
        match digits r' with
        | ([], _) => None
        | (ds, rest) => Some ((if neg then - of_digits ds else of_digits ds)%Z, rest)
        end
      else Some (0%Z, s)
  | [] => Some (0%Z, [])
  end.

Definition parse_fraction (s : jsstring) : option (list Z * jsstring) :=
  match s with
  | 0x2E :: r =>
      match digits r with
      | ([], _) => None
      | (ds, rest) => Some (ds, rest)
      end
  | _ => Some ([], s)
  end.

(** A JSON number: an optional minus, an integer part with no leading
    zero, an optional fraction, an optional exponent. *)
Definition parse_number (s : jsstring) : option (number * jsstring) :=
  let '(neg, s1) := match s with 0x2D :: r => (true, r) | _ => (false, s) end in
  match digits s1 with
  | ([], _) => None
  | (0%Z :: _ :: _, _) => None
  | (int, s2) =>
      match parse_fraction s2 with
      | None => None
      | Some (frac, s3) =>
          match parse_exponent s3 with
          | None => None
          | Some (e, s4) => Some (decimal neg int frac e, s4)
          end
      end
  end.

Definition hex_digit (c : N) : option N :=
  if (0x30 <=? c) && (c <=? 0x39) then Some (c - 0x30)
  else if (0x61 <=? c) && (c <=? 0x66) then Some (c - 0x61 + 10)
  else if (0x41 <=? c) && (c <=? 0x46) then Some (c - 0x41 + 10)
  else None.

Definition escape (c : N) : option N :=
  if c =? 0x22 then Some 0x22 else if c =? 0x5C then Some 0x5C
  else if c =? 0x2F then Some 0x2F else if c =? 0x62 then Some 0x08
  else if c =? 0x66 then Some 0x0C else if c =? 0x6E then Some 0x0A
  else if c =? 0x72 then Some 0x0D else if c =? 0x74 then Some 0x09
  else None.

(** The characters of a string literal after its opening quote, up to the
    closing one. *)
Fixpoint parse_string (s : jsstring) : option (jsstring * jsstring) :=
  match s with
  | [] => None
  | 0x22 :: r => Some ([], r)
  | 0x5C :: 0x75 :: a :: b :: c :: d :: r =>
      match hex_digit a, hex_digit b, hex_digit c, hex_digit d, parse_string r with
      | Some a, Some b, Some c, Some d, Some (t, rest) =>
          Some (a * 4096 + b * 256 + c * 16 + d :: t, rest)
      | _, _, _, _, _ => None
      end
  | 0x5C :: e :: r =>
      match escape e, parse_string r with
      | Some c, Some (t, rest) => Some (c :: t, rest)
      | _, _ => None
      end
  | c :: r =>
      if c <? 0x20 then None
      else match parse_string r with
           | Some (t, rest) => Some (c :: t, rest)
           | None => None
           end
  end.

Definition literal (word : string) (v : value) (s : jsstring) : option (value * jsstring) :=
  if JsString.startsWith s (str word)
  then Some (v, drop (String.length word) s) else None.

Fixpoint parse_value (fuel : nat) (s : jsstring) : option (value * jsstring) :=
  match fuel with
  | O => None
  | S f =>
      match skip_ws s with
      | 0x7B :: r =>
          match skip_ws r with
          | 0x7D :: rest => Some (Obj.literal [], rest)
          | r' => parse_members f [] r'
          end
      | 0x5B :: r =>
          match skip_ws r with
          | 0x5D :: rest => Some (Obj.array [], rest)
          | r' => parse_elements f [] r'
          end
      | 0x22 :: r =>
          match parse_string r with
          | Some (t, rest) => Some (VString t, rest)
          | None => None
          end
      | (0x74 :: _) as s' => literal "true" (VBool true) s'
      | (0x66 :: _) as s' => literal "false" (VBool false) s'
      | (0x6E :: _) as s' => literal "null" VNull s'
      | s' =>
          match parse_number s' with
          | Some (n, rest) => Some (VNumber n, rest)
          | None => None
          end
      end
  end
with parse_elements (fuel : nat) (acc : list value) (s : jsstring)
  : option (value * jsstring) :=
  match fuel with
  | O => None
  | S f =>
      match parse_value f s with
      | Some (v, r) =>
          match skip_ws r with
          | 0x2C :: r' => parse_elements f (acc ++ [v]) r'
          | 0x5D :: r' => Some (Obj.array (acc ++ [v]), r')
          | _ => None
          end
      | None => None
      end
  end
with parse_members (fuel : nat) (acc : properties) (s : jsstring)
  : option (value * jsstring) :=
  match fuel with
  | O => None
  | S f =>
      match skip_ws s with
      | 0x22 :: r =>
          match parse_string r with
          | Some (k, r1) =>
              match skip_ws r1 with
              | 0x3A :: r2 =>
                  match parse_value f r2 with
                  | Some (v, r3) =>
                      match skip_ws r3 with
                      | 0x2C :: r4 => parse_members f (Obj.create k v acc) r4
                      | 0x7D :: r4 => Some (VObject false true (Obj.create k v acc), r4)
                      | _ => None
                      end
                  | None => None
                  end
              | _ => None
              end
          | None => None
          end
      | _ => None
      end
  end.

(** [JSON.parse(s)]: one value, white space around it, nothing else.  Each
    recursive call has consumed a character, so the fuel is never the
    reason for a failure. *)
Definition parse (s : jsstring) : option value :=
  match parse_value (2 * length s + 2) s with
  | Some (v, rest) => match skip_ws rest with [] => Some v | _ => None end
  | None => None
  end.

End Json.


(** ** isJsonLike.js *)

Definition isJsonLike (value : jsstring) : bool :=
  let trimmed := JsString.trim value in
  (JsString.startsWith trimmed (str "[") && JsString.endsWith trimmed (str "]"))
  || (JsString.startsWith trimmed (str "{") && JsString.endsWith trimmed (str "}")).

(** ** The coercion collaborator *)

(** An integer or decimal literal: an optional minus, digits, and
    optionally a point and more digits, up to the end of the string. *)
Definition numeric_literal (s : jsstring) : option number :=
  let '(neg, s1) := match s with 0x2D%N :: r => (true, r) | _ => (false, s) end in
  match Json.digits s1 with
  | ([], _) => None
  | (int, s2) =>
      match Json.parse_fraction s2 with
      | Some (frac, []) => Some (Json.decimal neg int frac 0)
      | _ => None
      end
  end.

(** Modelled from the spec: [coercePrimitive] of the package zyx-system,
    which is not among the sources.  The spec (4.3, step 4) names the forms
    it recognises: [true] and [false] become booleans, integer and decimal
    literals become numbers, anything else is left as the string it is. *)
Definition coercePrimitive (s : jsstring) : value :=
  if JsString.eqb s (str "true") then VBool true
  else if JsString.eqb s (str "false") then VBool false
  else match numeric_literal s with
       | Some n => VNumber n
       | None => VString s
       end.

(** ** loadEnvFile.js: the line parser *)

(** The callback of [lines.forEach] in [loadEnvFile], as a function from
    [rawValues] before the line to [rawValues] after it. *)
Definition parse_line (rawValues : Obj.object) (line : jsstring) : Obj.object :=
  let trimmed := JsString.trim line in
  if negb (JsString.truthy trimmed) || JsString.startsWith trimmed (str "#")
  then rawValues
  else
    match JsString.split 61 trimmed with
    | [] => rawValues
    | name :: rest =>
        if negb (JsString.truthy name) then rawValues
        else
          let key := JsString.trim name in
          let value :=
            JsString.trim (JsString.strip_inline_comment (JsString.join 61 rest)) in
          let value' :=
            if isJsonLike value then
              match Json.parse value with
              | Some parsed => parsed
              | None => VString value
              end
            else coercePrimitive value in
          Obj.put key value' rawValues
    end.

(** [raw.split(/\r?\n/)] and the loop over the lines, from the empty
    [rawValues]. *)
Definition parse_state (raw : jsstring) : Obj.object :=
  fold_left parse_line (JsString.split_lines raw) Obj.fresh.

(** The own properties of [rawValues] after the loop: what
    [Object.keys], [Object.entries] and [createReadOnlyObject] read of
    it. *)
Definition parse_lines (raw : jsstring) : properties :=
  Obj.own (parse_state raw).

(** ** createReadOnlyObject.js *)

Definition read_only : attrs := Attrs false true false.

(** [Object.keys(data)] are the own enumerable keys, in order; each is
    defined on the fresh [result] as a data property that is neither
    writable nor configurable.  [result] itself is an ordinary object or
    array literal: nothing makes it non-extensible. *)
Fixpoint createReadOnlyObject (data : value) : value :=
  match data with
  | VObject isArray _ props =>
      VObject isArray true
        ((fix each (ps : properties) : properties :=
            match ps with
            | [] => []
            | (key, (v, a)) :: r =>
                if enumerable a
                then (key, (createReadOnlyObject v, read_only)) :: each r
                else each r
            end) props)
  | _ => data
  end.

(** ** What application code can do to an object

    The ordinary-object operations of ECMAScript on data properties.
    [Some o'] is the object after the operation, [None] a rejected
    operation: a [TypeError] in strict code, no effect in sloppy code.
    The operations are those on the properties of the model: the [length]
    of an array is not among them. *)

Module Mutate.

(** [o[k] = v].  A key the object does not own is looked up in its
    prototypes, where [__proto__] finds the accessor of
    [Object.prototype]: its setter makes no property (it replaces the
    prototype when [v] is an object or [null], which an object that is
    not extensible refuses). *)
Definition assign (k : jsstring) (v : value) (o : value) : option value :=
  match o with
  | VObject isArray extensible ps =>
      match Obj.lookup k ps with
      | Some (_, a) =>
          if writable a then Some (VObject isArray extensible (Obj.replace k (v, a) ps))
          else None
      | None =>
          if JsString.eqb k Obj.proto_name then
            match v with
            | VObject _ _ _ | VNull => if extensible then Some o else None
            | _ => Some o
            end
          else if extensible
          then Some (VObject isArray extensible (Obj.insert k (v, plain) ps))
          else None
      end
  | _ => None
  end.

(** [delete o[k]] *)
Definition delete (k : jsstring) (o : value) : option value :=
  match o with
  | VObject isArray extensible ps =>
      match Obj.lookup k ps with
      | Some (_, a) =>
          if configurable a then Some (VObject isArray extensible (Obj.remove k ps))
          else None
      | None => Some o
      end
  | _ => None
  end.

(** The [value] field of a descriptor.  [Current] is the value that the
    property holds, given again; [Value v] is a value of the caller's, and
    when it is an object, an object other than the one held. *)
Inductive value_field :=
  | NoValue
  | Current
  | Value (v : value).

(** A data descriptor; a field that is left out is [None]. *)
Record descriptor := Descriptor {
  d_value : value_field;
  d_writable : option bool;
  d_enumerable : option bool;
  d_configurable : option bool
}.

(** [SameValue] of a value of the caller's and the value held: two
    objects are never the same. *)
Definition same_value (v held : value) : bool :=
  match v, held with
  | VUndefined, VUndefined | VNull, VNull => true
  | VBool a, VBool b => Bool.eqb a b
  | VNumber (Dec m e), VNumber (Dec m' e') => (m =? m')%Z && (e =? e')%Z
  | VString s, VString t => JsString.eqb s t
  | _, _ => false
  end.

Definition same_field (f : option bool) (held : bool) : bool :=
  match f with
  | Some b => Bool.eqb b held
  | None => true
  end.

(** A number the model tells apart from every other as JavaScript does:
    an integer other than zero below 2^53, which a double holds
    exactly. *)
Definition safe_integer (n : number) : bool :=
  match n with
  | Dec m e => ((e =? 0) && (0 <? Z.abs m) && (Z.abs m <? 2 ^ 53))%Z
  end.

(** [same_value] decides as [SameValue] does for the value of the
    descriptor and the value held: always, unless both are numbers, and
    for two numbers when each is a [safe_integer]. *)
Definition comparable (d : descriptor) (held : value) : bool :=
  match d_value d, held with
  | Value (VNumber n), VNumber n' => safe_integer n && safe_integer n'
  | _, _ => true
  end.

(** The descriptor asks for nothing but what the property is. *)
Definition keeps (d : descriptor) (p : property) : bool :=
  match d_value d with
  | NoValue | Current => true
  | Value v => same_value v (fst p)
  end
  && same_field (d_writable d) (writable (snd p))
  && same_field (d_enumerable d) (enumerable (snd p))
  && same_field (d_configurable d) (configurable (snd p)).

(** The property after the fields of the descriptor are applied to it;
    [None] is a property to be made, whose fields start from [undefined]
    and [false]. *)
Definition apply (d : descriptor) (p : option property) : property :=
  let '(held, a) := default (VUndefined, Attrs false false false) p in
  (match d_value d with
   | Value v => v
   | NoValue | Current => held
   end,
   Attrs (default (writable a) (d_writable d))
         (default (enumerable a) (d_enumerable d))
         (default (configurable a) (d_configurable d))).

(** What a property that is not configurable lets a descriptor change:
    not its being configurable or enumerable, and when it is not writable
    either, neither that nor its value. *)
Definition allowed (d : descriptor) (p : property) : bool :=
  negb (default false (d_configurable d))
  && same_field (d_enumerable d) (enumerable (snd p))
  && (writable (snd p)
      || (negb (default false (d_writable d))
          && match d_value d with
             | Value v => same_value v (fst p)
             | NoValue | Current => true
             end)).

(** [Object.defineProperty(o, k, d)] for a data descriptor [d]. *)
Definition define (k : jsstring) (d : descriptor) (o : value) : option value :=
  match o with
  | VObject isArray extensible ps =>
      match Obj.lookup k ps with
      | Some p =>
          if configurable (snd p) || allowed d p
          then Some (VObject isArray extensible (Obj.replace k (apply d (Some p)) ps))
          else None
      | None =>
          if extensible
          then Some (VObject isArray extensible (Obj.insert k (apply d None) ps))
          else None
      end
  | _ => None
  end.

(** The operation [op] applied to the object reached from [root] through
    the properties [path], as in [root.a.b[k] = v].  The object reached is
    changed where it is, so [root] holds it changed whatever the
    attributes of the properties on the way. *)
Fixpoint at_path (path : list jsstring) (op : value -> option value) (root : value)
  : option value :=
  match path with
  | [] => op root
  | k :: rest =>
      match root with
      | VObject isArray extensible ps =>
          match Obj.lookup k ps with
          | Some (child, a) =>
              match at_path rest op child with
              | Some child' =>
                  Some (VObject isArray extensible (Obj.replace k (child', a) ps))
              | None => None
              end
          | None => None
          end
      | _ => None
      end
  end.

(** The value read by [root.a.b]. *)
Fixpoint get (path : list jsstring) (root : value) : option value :=
  match path with
  | [] => Some root
  | k :: rest =>
      match root with
      | VObject _ _ ps =>
          match Obj.lookup k ps with
          | Some (child, _) => get rest child
          | None => None
          end
      | _ => None
      end
  end.

End Mutate.

(** ** Buffers and text *)

(** [buffer.toString("utf-8")] and [Buffer.from(text, "utf8")].  Decoding
    never fails: each maximal ill-formed part of the input becomes one
    U+FFFD, as the WHATWG decoder does; a code point above U+FFFF becomes a
    surrogate pair. *)
Module Utf8.

Local Open Scope N_scope.

Definition between (lo hi c : N) : bool := (lo <=? c) && (c <=? hi).

Definition continuation (c : N) : bool := between 0x80 0xBF c.

(** The range of the second byte after the lead [b0] of a sequence of
    three or four bytes: it keeps out overlong forms, surrogates and code
    points above U+10FFFF. *)
Definition second_low (b0 : N) : N :=
  if b0 =? 0xE0 then 0xA0 else if b0 =? 0xF0 then 0x90 else 0x80.

Definition second_high (b0 : N) : N :=
  if b0 =? 0xED then 0x9F else if b0 =? 0xF4 then 0x8F else 0xBF.

Definition replacement : N := 0xFFFD.

Definition surrogates (cp : N) : jsstring :=
  [0xD800 + (cp - 0x10000) / 1024; 0xDC00 + (cp - 0x10000) mod 1024].

Fixpoint decode (b : bytes) : jsstring :=
  match b with
  | [] => []
  | b0 :: r =>
      if b0 <? 0x80 then b0 :: decode r
      else if between 0xC2 0xDF b0 then
        match r with
        | b1 :: r1 =>
            if continuation b1
            then (b0 - 0xC0) * 64 + (b1 - 0x80) :: decode r1
            else replacement :: decode r
        | [] => [replacement]
        end
      else if between 0xE0 0xEF b0 then
        match r with
        | b1 :: r1 =>
            if between (second_low b0) (second_high b0) b1 then
              match r1 with
              | b2 :: r2 =>
                  if continuation b2
                  then (b0 - 0xE0) * 4096 + (b1 - 0x80) * 64 + (b2 - 0x80) :: decode r2
                  else replacement :: decode r1
              | [] => [replacement]
              end
            else replacement :: decode r
        | [] => [replacement]
        end
      else if between 0xF0 0xF4 b0 then
        match r with
        | b1 :: r1 =>
            if between (second_low b0) (second_high b0) b1 then
              match r1 with
              | b2 :: r2 =>
                  if continuation b2 then
                    match r2 with
                    | b3 :: r3 =>
                        if continuation b3
                        then surrogates ((b0 - 0xF0) * 262144 + (b1 - 0x80) * 4096
                                         + (b2 - 0x80) * 64 + (b3 - 0x80))
                             ++ decode r3
                        else replacement :: decode r2
                    | [] => [replacement]
                    end
                  else replacement :: decode r1
              | [] => [replacement]
              end
            else replacement :: decode r
        | [] => [replacement]
        end
      else replacement :: decode r
  end.

(** The byte sequence is UTF-8: [decode] meets no ill-formed part. *)
Fixpoint well_formed (b : bytes) : bool :=
  match b with
  | [] => true
  | b0 :: r =>
      if b0 <? 0x80 then well_formed r
      else if between 0xC2 0xDF b0 then
        match r with
        | b1 :: r1 => continuation b1 && well_formed r1
        | [] => false
        end
      else if between 0xE0 0xEF b0 then
        match r with
        | b1 :: b2 :: r2 =>
            between (second_low b0) (second_high b0) b1
            && continuation b2 && well_formed r2
        | _ => false
        end
      else if between 0xF0 0xF4 b0 then
        match r with
        | b1 :: b2 :: b3 :: r3 =>
            between (second_low b0) (second_high b0) b1
            && continuation b2 && continuation b3 && well_formed r3
        | _ => false
        end
      else false
  end.

Definition replacement_bytes : bytes := [0xEF; 0xBF; 0xBD].

Fixpoint encode (s : jsstring) : bytes :=
  match s with
  | [] => []
  | c :: r =>
      if c <? 0x80 then c :: encode r
      else if c <? 0x800 then 0xC0 + c / 64 :: 0x80 + c mod 64 :: encode r
      else if between 0xD800 0xDBFF c then
        match r with
        | lo :: r' =>
            if between 0xDC00 0xDFFF lo then
              let cp := 0x10000 + (c - 0xD800) * 1024 + (lo - 0xDC00) in
              0xF0 + cp / 262144 :: 0x80 + (cp / 4096) mod 64
              :: 0x80 + (cp / 64) mod 64 :: 0x80 + cp mod 64 :: encode r'
            else replacement_bytes ++ encode r
        | [] => replacement_bytes
        end
      else if between 0xDC00 0xDFFF c then replacement_bytes ++ encode r
      else 0xE0 + c / 4096 :: 0x80 + (c / 64) mod 64 :: 0x80 + c mod 64 :: encode r
  end.

End Utf8.

(** [buffer.toString("hex")] and [Buffer.from(text, "hex")].  Decoding
    stops at the first pair that is not two hex digits, and drops a last
    odd character. *)
Module Hex.

Local Open Scope N_scope.

Definition digit_char (d : N) : N := if d <? 10 then 0x30 + d else 0x61 + (d - 10).

Fixpoint encode (b : bytes) : jsstring :=
  match b with
  | [] => []
  | x :: r => digit_char (x / 16) :: digit_char (x mod 16) :: encode r
  end.

Fixpoint decode (s : jsstring) : bytes :=
  match s with
  | a :: b :: r =>
      match Json.hex_digit a, Json.hex_digit b with
      | Some x, Some y => x * 16 + y :: decode r
      | _, _ => []
      end
  | _ => []
  end.

Definition is_hex (s : jsstring) : bool :=
  forallb (fun c => match Json.hex_digit c with Some _ => true | None => false end) s.

End Hex.

(** ** Errors, the world and the monad *)

(** What Node itself throws. *)
Inductive node_error :=
  | ENOENT (path : jsstring)
  | InvalidKeyLength
  | InvalidIV
  | BadDecrypt
  | SyntaxError
  | TypeError.

(** [Error message] is [new Error(message)], thrown by the sources. *)
Inductive error :=
  | Error (message : jsstring)
  | NodeError (e : node_error).

Inductive result (A : Type) :=
  | Ok (a : A)
  | Throw (e : error).
Arguments Ok {A} a.
Arguments Throw {A} e.

(** A line written to the console or to the log of the system package. *)
Inductive event :=
  | ConsoleError (label : jsstring) (e : error)
  | ConsoleLog (label : jsstring) (v : value)
  | ConsoleDebug (label : jsstring) (files : list jsstring)
  | Debug (message : jsstring)
  | LogError (message : jsstring).

(** Files hold bytes; a write to a path creates or replaces the file, a
    read of a path that holds none throws. *)
Record World := mkWorld {
  fs : gmap jsstring bytes;
  env : gmap jsstring jsstring;
  console : list event
}.

Definition M (A : Type) : Type := World -> result A * World.

Definition ret {A} (a : A) : M A := fun w => (Ok a, w).

Definition throw {A} (e : error) : M A := fun w => (Throw e, w).

Definition bind {A B} (m : M A) (k : A -> M B) : M B :=
  fun w =>
    match m w with
    | (Ok a, w') => k a w'
    | (Throw e, w') => (Throw e, w')
    end.

(** [try { m } catch (error) { handler }] *)
Definition try_catch {A} (m : M A) (handler : error -> M A) : M A :=
  fun w =>
    match m w with
    | (Ok a, w') => (Ok a, w')
    | (Throw e, w') => handler e w'
    end.

Definition lift {A} (r : result A) : M A := fun w => (r, w).

Notation "'let*' x := m 'in' k" := (bind m (fun x => k))
  (at level 10, x name, m at level 100, k at level 200).

Definition emit (e : event) : M unit :=
  fun w => (Ok tt, mkWorld (fs w) (env w) (console w ++ [e])).

Definition existsSync (path : jsstring) : M bool :=
  fun w => (Ok (bool_decide (is_Some (fs w !! path))), w).

Definition readFileSync (path : jsstring) : M bytes :=
  fun w =>
    match fs w !! path with
    | Some b => (Ok b, w)
    | None => (Throw (NodeError (ENOENT path)), w)
    end.

(** [fs.readFileSync(path, "utf-8")] *)
Definition readFileSync_utf8 (path : jsstring) : M jsstring :=
  let* b := readFileSync path in ret (Utf8.decode b).

Definition writeFileSync (path : jsstring) (data : bytes) : M unit :=
  fun w => (Ok tt, mkWorld (<[path := data]> (fs w)) (env w) (console w)).

(** [process.env[name]], and the test whether [process.env] owns
    [name]. *)
Definition getenv (name : jsstring) : M (option jsstring) :=
  fun w => (Ok (env w !! name), w).

(** What the operating system takes as the name of a variable: a string
    that is not empty and holds no [=]. *)
Definition env_name_ok (name : jsstring) : bool :=
  JsString.truthy name && negb (existsb (N.eqb 61) name).

(** [process.env[name] = value] for a string [value].  Node hands both to
    [setenv] of the operating system and drops its answer, so the
    assignment of a name that [setenv] refuses changes nothing and throws
    nothing.  A name or a value is stored as the string it is: its
    passage through a C string, which [env_text] says it survives
    unchanged, is left out. *)
Definition env_assign (name value : jsstring) (vars : gmap jsstring jsstring)
  : gmap jsstring jsstring :=
  if env_name_ok name then <[name := value]> vars else vars.

Definition setenv (name value : jsstring) : M unit :=
  fun w => (Ok tt, mkWorld (fs w) (env_assign name value (env w)) (console w)).

(** ** What Node provides *)

(** The functions of Node and of npm packages that the sources call and
    that no property below looks into.  [aes_256_cbc_decrypt] is [None]
    when [decipher.final()] throws.  [JSON_stringify] is the text of
    [JSON.stringify] for a value that has one, that is for every value
    but [undefined]. *)
Record Platform := {
  sha256 : bytes -> bytes;
  aes_256_cbc_encrypt : bytes -> bytes -> bytes -> bytes;
  aes_256_cbc_decrypt : bytes -> bytes -> bytes -> option bytes;
  base64_encode : bytes -> jsstring;
  base64_decode : jsstring -> bytes;
  JSON_stringify : value -> jsstring;
  glob_sync : jsstring -> gmap jsstring bytes -> list jsstring;
  path_isAbsolute : jsstring -> bool;
  path_resolve : jsstring -> jsstring;
  node_message : node_error -> jsstring;
  isDebugging : bool
}.

(** Decryption with the key and the IV of the encryption gives the
    plaintext back. *)
Definition cipher_inverts (P : Platform) : Prop :=
  forall key iv plaintext,
    length key = 32 -> length iv = 16 ->
    aes_256_cbc_decrypt P key iv (aes_256_cbc_encrypt P key iv plaintext)
    = Some plaintext.

(** [err.message] *)
Definition message (P : Platform) (e : error) : jsstring :=
  match e with
  | Error m => m
  | NodeError n => node_message P n
  end.

(** [crypto.createCipheriv("aes-256-cbc", key, iv)] and
    [crypto.createDecipheriv]: the key must be the 32 bytes of AES-256 and
    the IV one block. *)
Definition check_key_iv (key iv : bytes) : result unit :=
  if negb (length key =? 32)%nat then Throw (NodeError InvalidKeyLength)
  else if negb (length iv =? 16)%nat then Throw (NodeError InvalidIV)
  else Ok tt.

(** ** index.js: the class TopSecret *)

Record TopSecret := mkTopSecret {
  _key : option bytes;
  _password : option jsstring
}.

(** The error names of the spec, as the sources throw them. *)
Definition KeyNotSet : error := Error (str "Key is not set.").
Definition InvalidKeyLength_ : error := Error (str "Key must be 64 bytes long.").
Definition InvalidPassword : error := Error (str "Password must be a non-empty string.").

Module TopSecret.

Section Methods.

Context (P : Platform).

Definition constructor : TopSecret := mkTopSecret None None.

(** [generateKey()]; [random] is what [crypto.randomBytes(32)] returns. *)
Definition generateKey (this : TopSecret) (random : bytes) : TopSecret * jsstring :=
  (mkTopSecret (Some random) (_password this), Hex.encode random).

(** [encryptBuffer(buffer)]; [iv] is what [crypto.randomBytes(16)]
    returns. *)
Definition encryptBuffer (this : TopSecret) (iv : bytes) (buffer : bytes)
  : result bytes :=
  match _key this with
  | None => Throw KeyNotSet
  | Some key =>
      match check_key_iv key iv with
      | Throw e => Throw e
      | Ok _ => Ok (iv ++ aes_256_cbc_encrypt P key iv buffer)
      end
  end.

Definition decryptBuffer (this : TopSecret) (buffer : bytes) : result jsstring :=
  match _key this with
  | None => Throw KeyNotSet
  | Some key =>
      let iv := take 16 buffer in
      let encryptedText := drop 16 buffer in
      match check_key_iv key iv with
      | Throw e => Throw e
      | Ok _ =>
          match aes_256_cbc_decrypt P key iv encryptedText with
          | Some decrypted => Ok (Utf8.decode decrypted)
          | None => Throw (NodeError BadDecrypt)
          end
      end
  end.

(** The callback of [lines.forEach] in [decryptEnvFromFile].  The
    destructuring [[name, value] = line.split("=")] takes the first two
    pieces of the line. *)
Definition assign_env_line (env : gmap jsstring jsstring) (line : jsstring)
  : gmap jsstring jsstring :=
  if JsString.truthy (JsString.trim line) then
    match JsString.split 61 line with
    | name :: value :: _ =>
        if JsString.truthy name && JsString.truthy value
        then env_assign (JsString.trim name) (JsString.trim value) env
        else env
    | _ => env
    end
  else env.

Definition assign_env_lines (decryptedText : jsstring) (env : gmap jsstring jsstring)
  : gmap jsstring jsstring :=
  fold_left assign_env_line (JsString.split 10 decryptedText) env.

Definition decryptEnvFromFile (this : TopSecret) (filename : jsstring) : M unit :=
  match _key this with
  | None => throw KeyNotSet
  | Some _ =>
      try_catch
        (let* encryptedBuffer := readFileSync filename in
         let* decryptedText := lift (decryptBuffer this encryptedBuffer) in
         fun w => (Ok tt, mkWorld (fs w) (assign_env_lines decryptedText (env w))
                            (console w)))
        (fun error =>
           let* _ := emit (ConsoleError
                   (str "Failed to decrypt and load environment variables:") error) in
           throw (Error (str "Failed to decrypt and load environment variables.")))
  end.

Definition encryptFile (this : TopSecret) (iv : bytes) (srcFilename dstFilename : jsstring)
  : M unit :=
  try_catch
    (let* buffer := readFileSync srcFilename in
     let* encryptedBuffer := lift (encryptBuffer this iv buffer) in
     writeFileSync dstFilename encryptedBuffer)
    (fun error =>
       let* _ := emit (ConsoleError (str "Failed to encrypt file:") error) in
       throw (Error (str "Failed to encrypt file."))).

(** [decryptBuffer] returns text, and [fs.writeFileSync] writes text in
    UTF-8. *)
Definition decryptFile (this : TopSecret) (srcFilename dstFilename : jsstring) : M unit :=
  try_catch
    (let* encryptedBuffer := readFileSync srcFilename in
     let* decryptedBuffer := lift (decryptBuffer this encryptedBuffer) in
     writeFileSync dstFilename (Utf8.encode decryptedBuffer))
    (fun error =>
       let* _ := emit (ConsoleError (str "Failed to decrypt file:") error) in
       throw (Error (str "Failed to decrypt file."))).

(** [Buffer.from(JSON.stringify(data), "utf8")]: for [undefined] there is
    no text, and [Buffer.from] throws on what it is given instead. *)
Definition json_buffer (data : value) : result bytes :=
  match data with
  | VUndefined => Throw (NodeError TypeError)
  | _ => Ok (Utf8.encode (JSON_stringify P data))
  end.

Definition encryptJSON (this : TopSecret) (iv : bytes) (data : value) : result jsstring :=
  match _key this with
  | None => Throw KeyNotSet
  | Some _ =>
      match json_buffer data with
      | Ok jsonBuffer =>
          match encryptBuffer this iv jsonBuffer with
          | Ok encryptedBuffer => Ok (base64_encode P encryptedBuffer)
          | Throw e => Throw e
          end
      | Throw e => Throw e
      end
  end.

Definition JSON_parse (text : jsstring) : result value :=
  match Json.parse text with
  | Some v => Ok v
  | None => Throw (NodeError SyntaxError)
  end.

Definition decryptJSON (this : TopSecret) (encryptedData : jsstring) : result value :=
  match _key this with
  | None => Throw KeyNotSet
  | Some _ =>
      let encryptedBuffer := base64_decode P encryptedData in
      match decryptBuffer this encryptedBuffer with
      | Ok decryptedBuffer => JSON_parse decryptedBuffer
      | Throw e => Throw e
      end
  end.

Definition encryptJSONToFile (this : TopSecret) (iv : bytes) (data : value)
  (filename : jsstring) : M unit :=
  match _key this with
  | None => throw KeyNotSet
  | Some _ =>
      let* jsonBuffer := lift (json_buffer data) in
      let* encryptedBuffer := lift (encryptBuffer this iv jsonBuffer) in
      writeFileSync filename encryptedBuffer
  end.

(** The class body declares [decryptBufferFromFile] twice.  This is the
    first declaration, with its own key check; the second one replaces
    it, so no call reaches it. *)
Definition decryptBufferFromFile_first (this : TopSecret) (filename : jsstring)
  : M jsstring :=
  match _key this with
  | None => throw KeyNotSet
  | Some _ =>
      let* encryptedBuffer := readFileSync filename in
      lift (decryptBuffer this encryptedBuffer)
  end.

(** The second declaration: the method the class has. *)
Definition decryptBufferFromFile (this : TopSecret) (filename : jsstring) : M jsstring :=
  try_catch
    (let* encryptedBuffer := readFileSync filename in
     lift (decryptBuffer this encryptedBuffer))
    (fun error =>
       let* _ := emit (ConsoleError (str "Failed to load buffer from file:") error) in
       throw (Error (str "Failed to load buffer from file."))).

Definition decryptJSONFromFile (this : TopSecret) (filename : jsstring) : M value :=
  let* decryptedBuffer := decryptBufferFromFile this filename in
  lift (JSON_parse decryptedBuffer).

Definition get_key (this : TopSecret) : result jsstring :=
  match _key this with
  | Some key => Ok (Hex.encode key)
  | None => Throw (NodeError TypeError)
  end.

(** [set key(value)] for a string [value]. *)
Definition set_key (this : TopSecret) (value : jsstring) : result TopSecret :=
  if JsString.truthy value && (length value =? 64)%nat
  then Ok (mkTopSecret (Some (Hex.decode value)) (_password this))
  else Throw InvalidKeyLength_.

Definition get_password (this : TopSecret) : option jsstring := _password this.

(** [set password(value)] for any [value]; the hash reads a string in
    UTF-8. *)
Definition set_password (this : TopSecret) (value : value) : result TopSecret :=
  match value with
  | VString s =>
      if (length s =? 0)%nat then Throw InvalidPassword
      else Ok (mkTopSecret (Some (sha256 P (Utf8.encode s))) (Some s))
  | _ => Throw InvalidPassword
  end.

Definition loadJSONFromFile (this : TopSecret) (filename : jsstring) : M value :=
  try_catch
    (let* encryptedData := readFileSync_utf8 filename in
     lift (decryptJSON this encryptedData))
    (fun error =>
       let* _ := emit (ConsoleError (str "Failed to load JSON from file:") error) in
       throw (Error (str "Failed to load JSON from file."))).

Definition saveBufferToFile (this : TopSecret) (iv : bytes) (filename : jsstring)
  (buffer : bytes) : M unit :=
  try_catch
    (let* encryptedBuffer := lift (encryptBuffer this iv buffer) in
     writeFileSync filename encryptedBuffer)
    (fun error =>
       let* _ := emit (ConsoleError (str "Failed to save buffer to file:") error) in
       throw (Error (str "Failed to save buffer to file."))).

Definition saveJSONToFile (this : TopSecret) (iv : bytes) (filename : jsstring)
  (data : value) : M unit :=
  try_catch
    (let* encryptedData := lift (encryptJSON this iv data) in
     writeFileSync filename (Utf8.encode encryptedData))
    (fun error =>
       let* _ := emit (ConsoleError (str "Failed to save JSON to file:") error) in
       throw (Error (str "Failed to save JSON to file."))).

End Methods.

End TopSecret.

(** ** loadEncryptKey.js *)

Definition ENCRYPT_KEY : jsstring := str "ENCRYPT_KEY".

Definition default_key_file : jsstring := str "_secret.key".

(** [!key || key.length !== 64] for [key = process.env.ENCRYPT_KEY] *)
Definition key_invalid (key : option jsstring) : bool :=
  match key with
  | None => true
  | Some k => negb (JsString.truthy k) || negb (length k =? 64)%nat
  end.

(** [fs.readFileSync(resolvedPath, "utf-8").trim()], then the assignment
    to [process.env.ENCRYPT_KEY]. *)
Definition load_key_file (resolvedPath : jsstring) : M unit :=
  let* text := readFileSync_utf8 resolvedPath in
  setenv ENCRYPT_KEY (JsString.trim text).

(** The variant of [src/lib/loadEncryptKey.js]: the file is read only
    outside production. *)
Module LibLoadEncryptKey.

Definition KeyUnavailable : error :=
  Error (str "Encryption key used for configuration files is undefined or invalid").

Definition loadEncryptKey (P : Platform) (isProduction : bool)
  (filename : option jsstring) : M jsstring :=
  let filename := default default_key_file filename in
  let* _ :=
    if negb isProduction then
      let resolvedPath :=
        if path_isAbsolute P filename then filename else path_resolve P filename in
      let* found := existsSync resolvedPath in
      if found then load_key_file resolvedPath else ret tt
    else ret tt in
  let* key := getenv ENCRYPT_KEY in
  if key_invalid key then throw KeyUnavailable
  else ret (default [] key).

End LibLoadEncryptKey.

(** The variant whose header reads [loadEncruyptKey.js]: in production
    the file is read when the variable is not set. *)
Module LoadEncryptKey.

Definition KeyUnavailable : error :=
  Error (str "Encryption key is undefined or invalid. Expected a 64-character string.").

Definition loadEncryptKey (P : Platform) (isProduction : bool)
  (filename : option jsstring) : M jsstring :=
  let filename := default default_key_file filename in
  let resolvedPath :=
    if path_isAbsolute P filename then filename else path_resolve P filename in
  let* _ :=
    if negb isProduction then
      let* found := existsSync resolvedPath in
      if found then load_key_file resolvedPath else ret tt
    else
      let* current := getenv ENCRYPT_KEY in
      if JsString.truthy (default [] current) then ret tt
      else
        let* found := existsSync resolvedPath in
        if found then load_key_file resolvedPath else ret tt in
  let* key := getenv ENCRYPT_KEY in
  if key_invalid key then throw KeyUnavailable
  else ret (default [] key).

End LoadEncryptKey.

(** ** loadEnvFile.js *)

Record options := mkOptions {
  verbose : bool;
  suppressErrors : bool
}.

(** [schema.validate]: the validated map, and the errors as pairs of a
    field and a message.  The schema is given the own properties of
    [rawValues], which is all that [Object.entries] and
    [createReadOnlyObject] read of an object; a schema that looks for more
    in the prototype of [rawValues] is outside the model. *)
Definition validator : Type := value -> value * list (jsstring * jsstring).

(** The message of a failed validation: a heading with the file name,
    then one line per error, joined by newlines. *)
Definition validation_message (filename : jsstring)
  (errors : list (jsstring * jsstring)) : jsstring :=
  JsString.join 10
    ((dq "Fatal configuration error(s) detected in '" ++ filename ++ dq "':")
     :: map (fun err => str "- " ++ fst err ++ str ": " ++ snd err) errors).

(** [Object.entries(validated)] of the verbose listing. *)
Definition entries (v : value) : result (list (jsstring * value)) :=
  match v with
  | VObject _ _ ps =>
      Ok (omap (fun p => if enumerable (snd (snd p))
                         then Some (fst p, fst (snd p)) else None) ps)
  | VString s => Ok (imap (fun i c => (Obj.index_key i, VString [c])) s)
  | VUndefined | VNull => Throw (NodeError TypeError)
  | _ => Ok []
  end.

Section Loader.

Context (P : Platform).

Definition falsy (s : option jsstring) : bool :=
  match s with
  | None => true
  | Some s => negb (JsString.truthy s)
  end.

(** [loadEnvFile(filename, encryptKey, schema, options)]; [schema] is
    [None] when the argument has no function [validate]. *)
Definition loadEnvFile (filename : jsstring) (encryptKey : option jsstring)
  (schema : option validator) (opts : options) : M value :=
  let* _ := emit (Debug (str "loadEnvFile: " ++ filename)) in
  let* _ := emit (Debug (str "encryptKey " ++ default [] encryptKey)) in
  let resolvedPath := path_resolve P filename in
  let* found := existsSync resolvedPath in
  if negb found
  then throw (Error (str "Configuration file not found: " ++ resolvedPath))
  else
    let* raw :=
      if falsy encryptKey then readFileSync_utf8 resolvedPath
      else
        let* ts := lift (TopSecret.set_key TopSecret.constructor (default [] encryptKey)) in
        try_catch (TopSecret.decryptBufferFromFile P ts resolvedPath)
          (fun err =>
             let message := str "Failed to decrypt file. (" ++ filename ++ str ")" in
             let* _ := emit (Debug message) in
             throw (Error message)) in
    let rawValues := VObject false true (parse_lines raw) in
    let* validated :=
      match schema with
      | Some validate =>
          let '(result, errors) := validate rawValues in
          if (0 <? length errors)%nat
          then throw (Error (validation_message filename errors))
          else ret result
      | None => ret rawValues
      end in
    let* _ :=
      if verbose opts then
        let* _ := emit (ConsoleLog (str "Loaded configuration from") (VString filename)) in
        let* es := lift (entries validated) in
        fun w => (Ok tt, mkWorld (fs w) (env w)
                           (console w ++ map (fun e => ConsoleLog (fst e) (snd e)) es))
      else ret tt in
    ret (createReadOnlyObject validated).

(** ** loadEnvFiles.js *)

Definition NoFilesMatched (filemask : jsstring) : error :=
  Error (str "No environment files matched pattern: " ++ filemask).

(** The body of [for (const file of files)], from the [configs] loaded so
    far. *)
Fixpoint load_each (files : list jsstring) (encryptKey : option jsstring)
  (schema : option validator) (opts : options) (configs : list value)
  : M (list value) :=
  match files with
  | [] => ret configs
  | file :: rest =>
      let* config :=
        try_catch (loadEnvFile file encryptKey schema opts)
          (fun err =>
             let message :=
               dq "Error loading config file '" ++ file ++ dq "': " ++ message P err in
             let* _ := emit (Debug message) in
             let* _ := emit (LogError message) in
             throw err) in
      load_each rest encryptKey schema opts (configs ++ [config])
  end.

(** [loadEnvFiles(filemask, encryptKey, schema, options)] *)
Definition loadEnvFiles (filemask : jsstring) (encryptKey : option jsstring)
  (schema : option validator) (opts : options) : M (list value) :=
  let* _ :=
    if isDebugging P then emit (ConsoleLog (str "mask") (VString filemask)) else ret tt in
  let* files := (fun w => (Ok (glob_sync P filemask (fs w)), w)) in
  let* _ :=
    if isDebugging P then emit (ConsoleDebug (str "files") files) else ret tt in
  if (length files =? 0)%nat then
    let* _ := emit (Debug (message P (NoFilesMatched filemask))) in
    throw (NoFilesMatched filemask)
  else load_each files encryptKey schema opts [].

End Loader.

(** ** A platform to run the model on

    An instance of [Platform] for the statements about one concrete run.
    Its cipher has the framing of AES-256-CBC (blocks of 16 bytes, PKCS#7
    padding, each block chained to the ciphertext before it) around a
    block permutation that only adds the first half of the key. *)

Module Reference.

Definition xor (a b : bytes) : bytes := zip_with N.lxor a b.

Definition pad (plaintext : bytes) : bytes :=
  let n := (16 - length plaintext mod 16)%nat in
  plaintext ++ replicate n (N.of_nat n).

Definition unpad (padded : bytes) : option bytes :=
  match last padded with
  | None => None
  | Some b =>
      let n := N.to_nat b in
      if ((1 <=? n) && (n <=? 16) && (n <=? length padded))%nat
         && bool_decide (drop (length padded - n) padded = replicate n b)
      then Some (take (length padded - n) padded)
      else None
  end.

Fixpoint cbc_encrypt (blocks : nat) (key previous data : bytes) : bytes :=
  match blocks with
  | O => []
  | S n =>
      let block := xor (xor (take 16 data) previous) key in
      block ++ cbc_encrypt n key block (drop 16 data)
  end.

Fixpoint cbc_decrypt (blocks : nat) (key previous data : bytes) : bytes :=
  match blocks with
  | O => []
  | S n =>
      let block := take 16 data in
      xor (xor block key) previous ++ cbc_decrypt n key block (drop 16 data)
  end.

Definition encrypt (key iv plaintext : bytes) : bytes :=
  let padded := pad plaintext in
  cbc_encrypt (length padded / 16) (take 16 key) iv padded.

Definition decrypt (key iv ciphertext : bytes) : option bytes :=
  if (length ciphertext mod 16 =? 0)%nat
  then unpad (cbc_decrypt (length ciphertext / 16) (take 16 key) iv ciphertext)
  else None.

(** [*] stands for any run of characters other than [/]. *)
Fixpoint glob_match (pattern : jsstring) : jsstring -> bool :=
  match pattern with
  | [] => fun path => match path with [] => true | _ => false end
  | c :: rest =>
      if (c =? 42)%N then
        fix star (path : jsstring) : bool :=
          glob_match rest path
          || match path with
             | x :: path' => negb (x =? 47)%N && star path'
             | [] => false
             end
      else
        fun path =>
          match path with
          | x :: path' => (x =? c)%N && glob_match rest path'
          | [] => false
          end
  end.

Definition isAbsolute (path : jsstring) : bool := JsString.startsWith path (str "/").

(** The working directory is [/app]. *)
Definition resolve (path : jsstring) : jsstring :=
  if isAbsolute path then path else str "/app/" ++ path.

Definition glob (filemask : jsstring) (files : gmap jsstring bytes) : list jsstring :=
  filter (fun path => glob_match (resolve filemask) path = true)
         (map fst (map_to_list files)).

Definition describe (e : node_error) : jsstring :=
  match e with
  | ENOENT path => str "ENOENT: no such file or directory, open '" ++ path ++ str "'"
  | InvalidKeyLength => str "Invalid key length"
  | InvalidIV => str "Invalid initialization vector"
  | BadDecrypt => str "bad decrypt"
  | SyntaxError => str "Unexpected token in JSON"
  | TypeError => str "Cannot read properties of null"
  end.

(** The fields no statement looks into are the simplest of their type:
    the hash keeps 32 bytes of its input, base64 is written in hex, and
    every value is serialised as [null]. *)
Definition platform : Platform := {|
  sha256 := fun b => take 32 (b ++ replicate 32 0%N);
  aes_256_cbc_encrypt := encrypt;
  aes_256_cbc_decrypt := decrypt;
  base64_encode := Hex.encode;
  base64_decode := Hex.decode;
  JSON_stringify := fun _ => str "null";
  glob_sync := glob;
  path_isAbsolute := isAbsolute;
  path_resolve := resolve;
  node_message := describe;
  isDebugging := false
|}.

Definition key_hex : jsstring :=
  str "000102030405060708090a0b0c0d0e0f101112131415161718191a1b1c1d1e1f".

Definition iv0 : bytes :=
  [0xA0; 0xA1; 0xA2; 0xA3; 0xA4; 0xA5; 0xA6; 0xA7;
   0xA8; 0xA9; 0xAA; 0xAB; 0xAC; 0xAD; 0xAE; 0xAF]%N.

Definition empty_world : World := mkWorld ∅ ∅ [].

End Reference.

(** [decryptBuffer(encryptBuffer(buffer))] on one instance; [iv] is the
    IV the encryption draws. *)
Definition round_trip (P : Platform) (this : TopSecret) (iv buffer : bytes)
  : result jsstring :=
  match TopSecret.encryptBuffer P this iv buffer with
  | Ok envelope => TopSecret.decryptBuffer P this envelope
  | Throw e => Throw e
  end.

(** ** Sequences of key operations *)

Inductive key_op :=
  | GenerateKey (random : bytes)
  | SetKey (value : jsstring)
  | SetPassword (value : value).

(** One call on the instance; a setter that throws leaves the instance as
    it was. *)
Definition apply_key_op (P : Platform) (this : TopSecret) (op : key_op) : TopSecret :=
  match op with
  | GenerateKey random => fst (TopSecret.generateKey this random)
  | SetKey v =>
      match TopSecret.set_key this v with Ok this' => this' | Throw _ => this end
  | SetPassword v =>
      match TopSecret.set_password P this v with Ok this' => this' | Throw _ => this end
  end.

Definition run_key_ops (P : Platform) (this : TopSecret) (ops : list key_op) : TopSecret :=
  fold_left (apply_key_op P) ops this.

Definition is_set_password (op : key_op) : bool :=
  match op with SetPassword _ => true | _ => false end.



(** ** One file, seen from the multi-file loader *)

(** What [loadEnvFile] returns or throws for [file] on the files and the
    variables of [w], and what it writes to the console meanwhile. *)
Definition load_outcome (P : Platform) (encryptKey : option jsstring)
  (schema : option validator) (opts : options) (w : World) (file : jsstring)
  : result value :=
  fst (loadEnvFile P file encryptKey schema opts (mkWorld (fs w) (env w) [])).

Definition load_trace (P : Platform) (encryptKey : option jsstring)
  (schema : option validator) (opts : options) (w : World) (file : jsstring)
  : list event :=
  console (snd (loadEnvFile P file encryptKey schema opts (mkWorld (fs w) (env w) []))).

(** The two console lines of [loadEnvFiles] when the system package is in
    debugging mode. *)
Definition debug_lines (P : Platform) (filemask : jsstring) (files : list jsstring)
  : list event :=
  if isDebugging P
  then [ConsoleLog (str "mask") (VString filemask); ConsoleDebug (str "files") files]
  else [].

(** The two log lines of the [catch] in [loadEnvFiles]. *)
Definition error_lines (P : Platform) (file : jsstring) (err : error) : list event :=
  let message :=
    dq "Error loading config file '" ++ file ++ dq "': " ++ message P err in
  [Debug message; LogError message].

(** ** Worlds to run the loaders on *)

Module Run.

(** The envelope [encryptBuffer] makes of [text] with the reference key
    and IV. *)
Definition envelope (text : jsstring) : bytes :=
  Reference.iv0
  ++ Reference.encrypt (Hex.decode Reference.key_hex) Reference.iv0 (Utf8.encode text).

(** Three files; the second in the order of the expansion is no
    envelope. *)
Definition three_files : World :=
  mkWorld (<[ str "/app/a.env" := envelope (str "A=1") ]>
           (<[ str "/app/b.env" := str "oops" ]>
            (<[ str "/app/c.env" := envelope (str "C=3") ]> ∅))) ∅ [].

(** One plaintext file [A=1]. *)
Definition one_file : World :=
  mkWorld {[ str "/app/a.env" := str "A=1" ]} ∅ [].

End Run.

(** ** Calls that only write to the console *)

(** [m] reads the files and the variables, changes neither, and appends
    to the console lines that do not depend on what the console held. *)
Definition console_only {A} (m : M A) : Prop :=
  forall files vars, exists r evs, forall c,
    m (mkWorld files vars c) = (r, mkWorld files vars (c ++ evs)).

(** ** Calls on an instance without key material *)

(** What a method that reads [path] and then needs the key has caught
    when the instance has no key: the missing-key error when the file is
    there, the error of the read when it is not. *)
Definition caught_without_key (w : World) (path : jsstring) : error :=
  match fs w !! path with
  | Some _ => KeyNotSet
  | None => NodeError (ENOENT path)
  end.

(** The world after a [catch] has logged [e] under [label]. *)
Definition logged (w : World) (label : jsstring) (e : error) : World :=
  mkWorld (fs w) (env w) (console w ++ [ConsoleError label e]).

(** ** Helpers of the statements about objects and lines *)

(** Every property of [v], at every depth, is enumerable: true of what
    the parser and [JSON.parse] build. *)
Fixpoint all_enumerable (v : value) : bool :=
  match v with
  | VObject _ _ ps =>
      (fix each (ps : properties) : bool :=
         match ps with
         | [] => true
         | (_, (v', a)) :: r => enumerable a && all_enumerable v' && each r
         end) ps
  | _ => true
  end.

(** The value is an object or [null]: what the setter of [__proto__] takes
    as a prototype. *)
Definition replaces_prototype (v : value) : bool :=
  match v with
  | VObject _ _ _ | VNull => true
  | _ => false
  end.

(** The assignment a line makes, if any: the key and the value of
    [rawValues[key] = value] in [parse_line]. *)
Definition line_entry (line : jsstring) : option (jsstring * value) :=
  let trimmed := JsString.trim line in
  if negb (JsString.truthy trimmed) || JsString.startsWith trimmed (str "#")
  then None
  else
    match JsString.split 61 trimmed with
    | [] => None
    | name :: rest =>
        if negb (JsString.truthy name) then None
        else
          let value :=
            JsString.trim (JsString.strip_inline_comment (JsString.join 61 rest)) in
          Some (JsString.trim name,
                if isJsonLike value then
                  match Json.parse value with
                  | Some parsed => parsed
                  | None => VString value
                  end
                else coercePrimitive value)
    end.

Definition last_entry_step (key : jsstring) (found : option value)
  (e : jsstring * value) : option value :=
  if JsString.eqb key (fst e) then Some (snd e) else found.

(** The value of the last entry for [key]. *)
Definition last_entry (key : jsstring) (entries : list (jsstring * value)) : option value :=
  fold_left (last_entry_step key) entries None.

(** [rawValues[key] = value] for an entry. *)
Definition assign_entry (rawValues : Obj.object) (e : jsstring * value) : Obj.object :=
  Obj.put (fst e) (snd e) rawValues.

(** ** Well-formed text *)

(** The string is UTF-16: every code unit is below 65536 and every
    surrogate is half of a pair. *)
Fixpoint utf16_well_formed (s : jsstring) : bool :=
  match s with
  | [] => true
  | c :: r =>
      if (c <? 0xD800)%N then utf16_well_formed r
      else if (c <=? 0xDBFF)%N then
        match r with
        | lo :: r' => Utf8.between 0xDC00 0xDFFF lo && utf16_well_formed r'
        | [] => false
        end
      else if (c <=? 0xDFFF)%N then false
      else (c <? 0x10000)%N && utf16_well_formed r
  end.

(** A string that passes through a C string unchanged: it holds no NUL and
    is well-formed UTF-16. *)
Definition env_text (s : jsstring) : bool :=
  negb (existsb (N.eqb 0) s) && utf16_well_formed s.

(** ** mergeIntoProcess.env *)

Section Merge.

(** [String(value)], the conversion of JavaScript. *)
Context (String_ : value -> jsstring).

Definition AlreadyExists (key : jsstring) : error :=
  Error (dq "Environment variable '" ++ key
         ++ dq "' already exists and override is disabled").

(** The error is a [TypeError]; only its message is recorded. *)
Definition NotAnObject : error := Error (str "First argument must be a non-null object").

(** The loop over [Object.entries(object)]. *)
Fixpoint merge_entries (override : bool) (es : list (jsstring * value)) : M unit :=
  match es with
  | [] => ret tt
  | (key, v) :: rest =>
      let* current := getenv key in
      let* _ :=
        if bool_decide (is_Some current)
        then (if negb override then throw (AlreadyExists key) else ret tt)
        else ret tt in
      let* _ := setenv key (String_ v) in
      merge_entries override rest
  end.

(** [mergeIntoProcessEnv(object, options)]; [override] is the field of
    that name in [options], when it has one. *)
Definition mergeIntoProcessEnv (object : value) (override : option bool) : M unit :=
  let override := default false override in
  match object with
  | VObject _ _ _ =>
      let* es := lift (entries object) in
      merge_entries override es
  | _ => throw NotAnObject
  end.

(** An entry whose key the operating system takes as a name and stores
    whole, as it does the text of the value. *)
Definition storable (e : jsstring * value) : bool :=
  env_name_ok (fst e) && env_text (fst e) && env_text (String_ (snd e)).

(** The variables after every entry of [es] is assigned, in order. *)
Definition merged (es : list (jsstring * value)) (vars : gmap jsstring jsstring)
  : gmap jsstring jsstring :=
  fold_left (fun m e => env_assign (fst e) (String_ (snd e)) m) es vars.

End Merge.

(** [String(value)] for the witnesses: exact on strings, booleans, [null],
    [undefined], decimals and plain objects; an array is the texts of its
    elements joined by commas. *)
Module ToString.

Definition digits_of (z : Z) : jsstring :=
  str (NilZero.string_of_uint (N.to_uint (Z.to_N z))).

(** [digits] with a point before its last [n] digits. *)
Definition with_point (digits : jsstring) (n : nat) : jsstring :=
  let padded := replicate (S n - length digits) 48%N ++ digits in
  take (length padded - n) padded ++ 46%N :: drop (length padded - n) padded.

Definition of_number (n : number) : jsstring :=
  match n with
  | Dec m e =>
      (if (m <? 0)%Z then str "-" else [])
      ++ (if (e <? 0)%Z then with_point (digits_of (Z.abs m)) (Z.to_nat (- e))
          else digits_of (Z.abs m * 10 ^ e))
  end.

Fixpoint of_value (v : value) : jsstring :=
  match v with
  | VUndefined => str "undefined"
  | VNull => str "null"
  | VBool true => str "true"
  | VBool false => str "false"
  | VNumber n => of_number n
  | VString s => s
  | VObject false _ _ => str "[object Object]"
  | VObject true _ ps =>
      JsString.join 44
        ((fix each (ps : properties) : list jsstring :=
            match ps with
            | [] => []
            | (_, (VUndefined, _)) :: r | (_, (VNull, _)) :: r => [] :: each r
            | (_, (v', _)) :: r => of_value v' :: each r
            end) ps)
  end.

End ToString.

(** ** loadEnvFile after the text is read *)

(** What [loadEnvFile] does with the text [raw] of the file: parse,
    validate, list the keys when [verbose], and copy.  [loadEnvFile] is its
    first half (the existence test, the read or the decryption) followed by
    this; see [loadEnvFile_unfold]. *)
Definition finish_load (filename : jsstring) (schema : option validator)
  (opts : options) (raw : jsstring) : M value :=
  let rawValues := VObject false true (parse_lines raw) in
  let* validated :=
    match schema with
    | Some validate =>
        let '(result, errors) := validate rawValues in
        if (0 <? length errors)%nat
        then throw (Error (validation_message filename errors))
        else ret result
    | None => ret rawValues
    end in
  let* _ :=
    if verbose opts then
      let* _ := emit (ConsoleLog (str "Loaded configuration from") (VString filename)) in
      let* es := lift (entries validated) in
      fun w => (Ok tt, mkWorld (fs w) (env w)
                         (console w ++ map (fun e => ConsoleLog (fst e) (snd e)) es))
    else ret tt in
  ret (createReadOnlyObject validated).

(** The value [validate] returns is neither [null] nor [undefined]. *)
Definition returns_a_map (schema : option validator) : Prop :=
  match schema with
  | Some validate =>
      forall raw, fst (validate raw) <> VUndefined /\ fst (validate raw) <> VNull
  | None => True
  end.

(** The two debug lines every call of [loadEnvFile] starts with. *)
Definition opening (filename : jsstring) (encryptKey : option jsstring) : list event :=
  [Debug (str "loadEnvFile: " ++ filename);
   Debug (str "encryptKey " ++ default [] encryptKey)].

(** [decryptJSON(encryptJSON(data))] on one instance. *)
Definition json_round_trip (P : Platform) (this : TopSecret) (iv : bytes) (data : value)
  : result value :=
  match TopSecret.encryptJSON P this iv data with
  | Ok text => TopSecret.decryptJSON P this text
  | Throw e => Throw e
  end.

(** ** A platform with base64 and a JSON writer *)

(** [buffer.toString("base64")] and [Buffer.from(text, "base64")]: the
    decoder reads the letters of the alphabet up to the first [=] and
    skips everything else. *)
Module Base64.

Local Open Scope N_scope.

Definition letter (n : N) : N :=
  if n <? 26 then 65 + n
  else if n <? 52 then 97 + (n - 26)
  else if n <? 62 then 48 + (n - 52)
  else if n =? 62 then 43 else 47.

Definition sextet (c : N) : option N :=
  if Utf8.between 65 90 c then Some (c - 65)
  else if Utf8.between 97 122 c then Some (c - 97 + 26)
  else if Utf8.between 48 57 c then Some (c - 48 + 52)
  else if c =? 43 then Some 62
  else if c =? 47 then Some 63
  else None.

Fixpoint encode (b : bytes) : jsstring :=
  match b with
  | [] => []
  | [x] => [letter (x / 4); letter (x mod 4 * 16); 61; 61]
  | [x; y] => [letter (x / 4); letter (x mod 4 * 16 + y / 16); letter (y mod 16 * 4); 61]
  | x :: y :: z :: r =>
      letter (x / 4) :: letter (x mod 4 * 16 + y / 16)
      :: letter (y mod 16 * 4 + z / 64) :: letter (z mod 64) :: encode r
  end.

Fixpoint sextets (s : jsstring) : list N :=
  match s with
  | [] => []
  | c :: r =>
      if c =? 61 then []
      else match sextet c with
           | Some n => n :: sextets r
           | None => sextets r
           end
  end.

Fixpoint bytes_of (ns : list N) : bytes :=
  match ns with
  | a :: b :: c :: d :: r =>
      a * 4 + b / 16 :: b mod 16 * 16 + c / 4 :: c mod 4 * 64 + d :: bytes_of r
  | [a; b; c] => [a * 4 + b / 16; b mod 16 * 16 + c / 4]
  | [a; b] => [a * 4 + b / 16]
  | _ => []
  end.

Definition decode (s : jsstring) : bytes := bytes_of (sextets s).

End Base64.

(** [JSON.stringify(value)] without indentation.  A property that holds
    [undefined] is left out of an object and written [null] in an array;
    numbers are written as exact decimals.  For [undefined] itself there
    is no text, and none is asked for (see [TopSecret.json_buffer]). *)
Module JsonText.

Local Open Scope N_scope.

Definition hex4 (c : N) : jsstring :=
  [Hex.digit_char (c / 4096); Hex.digit_char (c / 256 mod 16);
   Hex.digit_char (c / 16 mod 16); Hex.digit_char (c mod 16)].

Definition escape (c : N) : jsstring :=
  if c =? 0x22 then [0x5C; 0x22]
  else if c =? 0x5C then [0x5C; 0x5C]
  else if c =? 0x08 then [0x5C; 0x62]
  else if c =? 0x0C then [0x5C; 0x66]
  else if c =? 0x0A then [0x5C; 0x6E]
  else if c =? 0x0D then [0x5C; 0x72]
  else if c =? 0x09 then [0x5C; 0x74]
  else if (c <? 0x20) || Utf8.between 0xD800 0xDFFF c then 0x5C :: 0x75 :: hex4 c
  else [c].

Definition quote (s : jsstring) : jsstring := 0x22 :: flat_map escape s ++ [0x22].

Fixpoint stringify (v : value) : jsstring :=
  match v with
  | VUndefined => str "undefined"
  | VNull => str "null"
  | VBool true => str "true"
  | VBool false => str "false"
  | VNumber n => ToString.of_number n
  | VString s => quote s
  | VObject false _ ps =>
      0x7B :: JsString.join 44
        ((fix each (ps : properties) : list jsstring :=
            match ps with
            | [] => []
            | (k, (v', a)) :: r =>
                match v', enumerable a with
                | VUndefined, _ | _, false => each r
                | _, true => (quote k ++ 0x3A :: stringify v') :: each r
                end
            end) ps) ++ [0x7D]
  | VObject true _ ps =>
      0x5B :: JsString.join 44
        ((fix each (ps : properties) : list jsstring :=
            match ps with
            | [] => []
            | (_, (VUndefined, _)) :: r => str "null" :: each r
            | (_, (v', _)) :: r => stringify v' :: each r
            end) ps) ++ [0x5D]
  end.

End JsonText.

(** The reference platform with base64 and the JSON writer in place of
    its stand-ins. *)
Definition text_platform : Platform := {|
  sha256 := sha256 Reference.platform;
  aes_256_cbc_encrypt := Reference.encrypt;
  aes_256_cbc_decrypt := Reference.decrypt;
  base64_encode := Base64.encode;
  base64_decode := Base64.decode;
  JSON_stringify := JsonText.stringify;
  glob_sync := Reference.glob;
  path_isAbsolute := Reference.isAbsolute;
  path_resolve := Reference.resolve;
  node_message := Reference.describe;
  isDebugging := false
|}.

(** The config of the witnesses about JSON. *)
Definition sample : value :=
  Obj.literal [(str "PORT", num 8080); (str "NAME", VString (dq "a 'b'"));
               (str "TAGS", Obj.array [VBool true; VNull; VNumber (Dec 25 (-1))])].

(** * Properties *)

(** ** The string methods and the JSON reader on examples *)

Example split_keeps_empty_pieces :
  JsString.split 61 (str "A=b=c") = [str "A"; str "b"; str "c"]
  /\ JsString.split 61 (str "=x") = [str ""; str "x"]
  /\ JsString.split 61 (str "") = [str ""].
Proof. repeat split; reflexivity. Qed.

Example split_lines_crlf :
  JsString.split_lines (str "a" ++ [13; 10; 13; 10]%N ++ str "b" ++ [13]%N)
  = [str "a"; str ""; str "b" ++ [13%N]].
Proof. reflexivity. Qed.

Example strip_inline_comment_ex :
  JsString.strip_inline_comment (str "8080 # comment") = str "8080"
  /\ JsString.strip_inline_comment (str "a#b") = str "a#b"
  /\ JsString.strip_inline_comment (str "a #b" ++ [13%N] ++ str "#c")
     = str "a #b".
Proof. repeat split; reflexivity. Qed.

Example json_parse_examples :
  Json.parse (dq "{'a':1}") = Some (Obj.literal [(str "a", num 1)])
  /\ Json.parse (dq " [1, 2.50, -3e2, true, null, 'x\n'] ")
     = Some (Obj.array [num 1; VNumber (Dec 25 (-1)); num (-300);
                        VBool true; VNull; VString (str "x" ++ [10%N])])
  /\ Json.parse (dq "{'a':{'b':[]},'a':2}") = Some (Obj.literal [(str "a", num 2)])
  /\ Json.parse (str "{a:1}") = None
  /\ Json.parse (str "[1,]") = None
  /\ Json.parse (str "01") = None
  /\ Json.parse (dq "{'a':1} x") = None.
Proof. repeat split; reflexivity. Qed.

Example parse_lines_example :
  parse_lines (str "# settings" ++ [13; 10]%N ++ str "PORT=8080 # comment"
               ++ [10]%N ++ [10]%N ++ str " FLAG = true" ++ [10]%N ++ str "PORT=1")
  = [(str "PORT", (num 1, plain)); (str "FLAG", (VBool true, plain))].
Proof. reflexivity. Qed.

(** ** The line parser of loadEnvFile *)


Lemma truthy_nonempty (s : jsstring) : s <> [] -> JsString.truthy s = true.
Proof. destruct s; [congruence | reflexivity]. Qed.





(** ** Objects: keys and lookup *)

Module ObjFacts.

Lemma eqb_eq (a : jsstring) : forall b, JsString.eqb a b = true <-> a = b.
Proof.
  induction a as [| x a IH]; intros [| y b]; simpl; split; try congruence; auto.
  - intros H. apply andb_true_iff in H. destruct H as [Hx Hr].
    apply N.eqb_eq in Hx. apply IH in Hr. congruence.
  - intros [= -> ->]. rewrite N.eqb_refl. simpl. now apply IH.
Qed.

Lemma eqb_refl (a : jsstring) : JsString.eqb a a = true.
Proof. now apply eqb_eq. Qed.

Lemma eqb_neq (a b : jsstring) : a <> b -> JsString.eqb a b = false.
Proof.
  intros H. destruct (JsString.eqb a b) eqn:E; [| reflexivity].
  now apply eqb_eq in E.
Qed.

Lemma lookup_None k ps : Obj.lookup k ps = None <-> k ∉ map fst ps.
Proof.
  induction ps as [| [k' p] r IH]; simpl.
  - split; [intros _ H; inversion H | reflexivity].
  - destruct (JsString.eqb k k') eqn:E.
    + apply eqb_eq in E. subst. split; [discriminate |].
      intros H. exfalso. apply H. constructor.
    + rewrite IH. split.
      * intros H Hin. inversion Hin; subst; [now rewrite eqb_refl in E | auto].
      * intros H Hin. apply H. now constructor.
Qed.

Lemma replace_keys k p ps : map fst (Obj.replace k p ps) = map fst ps.
Proof.
  induction ps as [| [k' p'] r IH]; simpl; [reflexivity |].
  destruct (JsString.eqb k k'); simpl; [reflexivity | now rewrite IH].
Qed.

Lemma lookup_replace_same k p ps :
  Obj.lookup k ps <> None -> Obj.lookup k (Obj.replace k p ps) = Some p.
Proof.
  induction ps as [| [k' p'] r IH]; simpl; [congruence |].
  destruct (JsString.eqb k k') eqn:E; simpl; rewrite E; auto.
Qed.

Lemma lookup_replace_other k k' p ps :
  k' <> k -> Obj.lookup k' (Obj.replace k p ps) = Obj.lookup k' ps.
Proof.
  intros Hne. induction ps as [| [k0 p0] r IH]; simpl; [reflexivity |].
  destruct (JsString.eqb k k0) eqn:E; simpl.
  - apply eqb_eq in E. subst k0. now rewrite (eqb_neq _ _ Hne).
  - now rewrite IH.
Qed.

(** A property replaced by itself leaves the object as it is. *)
Lemma replace_same k p ps : Obj.lookup k ps = Some p -> Obj.replace k p ps = ps.
Proof.
  induction ps as [| [k' p'] r IH]; simpl; [reflexivity |].
  destruct (JsString.eqb k k'); [intros [= ->]; reflexivity |].
  intros H. now rewrite IH.
Qed.

Lemma lookup_app k ps qs :
  Obj.lookup k (ps ++ qs)
  = match Obj.lookup k ps with Some p => Some p | None => Obj.lookup k qs end.
Proof.
  induction ps as [| [k' p] r IH]; simpl; [reflexivity |].
  now destruct (JsString.eqb k k').
Qed.

(** *** A new property in the order of the keys *)

Lemma lookup_insert_index_key i k p ps :
  Obj.array_index k = Some i -> Obj.lookup k (Obj.insert_index i k p ps) = Some p.
Proof.
  intros Hk. induction ps as [| [k' p'] r IH]; simpl; [now rewrite eqb_refl |].
  destruct (Obj.array_index k') as [j |] eqn:Ek'; [| simpl; now rewrite eqb_refl].
  destruct (N.ltb_spec j i) as [Hlt | Hge]; [| simpl; now rewrite eqb_refl].
  simpl. rewrite eqb_neq; [exact IH |].
  intros ->. rewrite Hk in Ek'. injection Ek' as <-. lia.
Qed.

Lemma lookup_insert_index_other i k k' p ps :
  k' <> k -> Obj.lookup k' (Obj.insert_index i k p ps) = Obj.lookup k' ps.
Proof.
  intros Hne. induction ps as [| [k0 p0] r IH]; simpl.
  - now rewrite (eqb_neq _ _ Hne).
  - destruct (Obj.array_index k0) as [j |];
      [destruct (j <? i)%N |]; simpl; rewrite ?(eqb_neq _ _ Hne); try reflexivity.
    now rewrite IH.
Qed.

Lemma lookup_insert_key k p ps :
  Obj.lookup k ps = None -> Obj.lookup k (Obj.insert k p ps) = Some p.
Proof.
  intros H. unfold Obj.insert. destruct (Obj.array_index k) as [i |] eqn:E.
  - now apply lookup_insert_index_key.
  - rewrite lookup_app, H. simpl. now rewrite eqb_refl.
Qed.

Lemma lookup_insert_other k k' p ps :
  k' <> k -> Obj.lookup k' (Obj.insert k p ps) = Obj.lookup k' ps.
Proof.
  intros Hne. unfold Obj.insert. destruct (Obj.array_index k) as [i |].
  - now apply lookup_insert_index_other.
  - rewrite lookup_app. destruct (Obj.lookup k' ps); [reflexivity |].
    simpl. now rewrite (eqb_neq _ _ Hne).
Qed.

Lemma insert_index_keys i k p ps :
  map fst (Obj.insert_index i k p ps) ≡ₚ k :: map fst ps.
Proof.
  induction ps as [| [k' p'] r IH]; simpl; [reflexivity |].
  destruct (Obj.array_index k') as [j |]; [destruct (j <? i)%N |]; simpl;
    try reflexivity.
  rewrite IH. apply Permutation_swap.
Qed.

Lemma insert_keys k p ps : map fst (Obj.insert k p ps) ≡ₚ k :: map fst ps.
Proof.
  unfold Obj.insert. destruct (Obj.array_index k) as [i |].
  - apply insert_index_keys.
  - rewrite map_app. simpl. symmetry. apply Permutation_cons_append.
Qed.

(** *** An own property made or overwritten *)

Lemma lookup_create_key k v ps : Obj.lookup k (Obj.create k v ps) = Some (v, plain).
Proof.
  unfold Obj.create. destruct (Obj.lookup k ps) eqn:E.
  - apply lookup_replace_same. congruence.
  - now apply lookup_insert_key.
Qed.

Lemma lookup_create_other k k' v ps :
  k' <> k -> Obj.lookup k' (Obj.create k v ps) = Obj.lookup k' ps.
Proof.
  intros Hne. unfold Obj.create. destruct (Obj.lookup k ps) eqn:E.
  - now apply lookup_replace_other.
  - now apply lookup_insert_other.
Qed.

Lemma create_NoDup k v ps : NoDup (map fst ps) -> NoDup (map fst (Obj.create k v ps)).
Proof.
  intros H. unfold Obj.create. destruct (Obj.lookup k ps) eqn:E.
  - now rewrite replace_keys.
  - rewrite insert_keys. apply NoDup_cons. split; [| exact H].
    now apply lookup_None.
Qed.

(** *** An assignment *)

(** Whatever the key, an assignment leaves the other keys alone. *)
Lemma lookup_put_other k k' v o :
  k' <> k -> Obj.lookup k' (Obj.own (Obj.put k v o)) = Obj.lookup k' (Obj.own o).
Proof.
  intros Hne.
  assert (Hown : Obj.lookup k' (Obj.own (Obj.assign_own k v o)) = Obj.lookup k' (Obj.own o))
    by (apply lookup_create_other; exact Hne).
  assert (Hset : Obj.own (Obj.set_prototype v o) = Obj.own o) by (now destruct v).
  unfold Obj.put. destruct (JsString.eqb k Obj.proto_name); [| exact Hown].
  destruct (Obj.lookup k (Obj.own o)); [exact Hown |].
  destruct (Obj.proto o) as [| | [| | | | | isArray ext ps]];
    rewrite ?Hset; try reflexivity; try exact Hown.
  destruct (Obj.lookup k ps) as [[c a] |]; [| now rewrite Hset].
  destruct (writable a); [exact Hown | reflexivity].
Qed.

(** An assignment to a key other than [__proto__] is read back. *)
Lemma lookup_put_key k v o :
  k <> Obj.proto_name -> Obj.lookup k (Obj.own (Obj.put k v o)) = Some (v, plain).
Proof.
  intros Hne. unfold Obj.put. rewrite (eqb_neq _ _ Hne). apply lookup_create_key.
Qed.

(** An assignment keeps the keys distinct. *)
Lemma put_NoDup k v o :
  NoDup (map fst (Obj.own o)) -> NoDup (map fst (Obj.own (Obj.put k v o))).
Proof.
  intros H.
  assert (Hown : NoDup (map fst (Obj.own (Obj.assign_own k v o))))
    by (apply create_NoDup; exact H).
  assert (Hset : Obj.own (Obj.set_prototype v o) = Obj.own o) by (now destruct v).
  unfold Obj.put. destruct (JsString.eqb k Obj.proto_name); [| exact Hown].
  destruct (Obj.lookup k (Obj.own o)); [exact Hown |].
  destruct (Obj.proto o) as [| | [| | | | | isArray ext ps]];
    rewrite ?Hset; try exact H; try exact Hown.
  destruct (Obj.lookup k ps) as [[c a] |]; [| now rewrite Hset].
  destruct (writable a); [exact Hown | exact H].
Qed.

(** An assignment of a value that is no object and not [null] to
    [__proto__], on an object with the prototype of [{}] that owns no such
    property: nothing changes. *)
Lemma put_proto_primitive v o :
  Obj.proto o = Obj.ObjectPrototype -> Obj.lookup Obj.proto_name (Obj.own o) = None ->
  replaces_prototype v = false ->
  Obj.put Obj.proto_name v o = o.
Proof.
  intros Hp Ho Hv. unfold Obj.put. rewrite eqb_refl, Ho, Hp.
  destruct v; try reflexivity; discriminate.
Qed.

End ObjFacts.

(** ** createReadOnlyObject *)

Section ReadOnly.

Let each := fix each (ps : properties) : properties :=
  match ps with
  | [] => []
  | (key, (v, a)) :: r =>
      if enumerable a
      then (key, (createReadOnlyObject v, read_only)) :: each r
      else each r
  end.

(** Every property of the copy is read-only and holds a copy. *)
Lemma createReadOnlyObject_lookup (ps : properties) k c a :
  Obj.lookup k (each ps) = Some (c, a) ->
  a = read_only /\ exists v, c = createReadOnlyObject v.
Proof.
  induction ps as [| [key [v a0]] r IH]; simpl; [discriminate |].
  destruct (enumerable a0); [| exact IH].
  simpl. destruct (JsString.eqb k key).
  - intros [= <- <-]. eauto.
  - exact IH.
Qed.

(** No property of the copy, at any depth, can be assigned or deleted. *)
Lemma copy_rejects_assign_delete data path k v :
  is_Some (Mutate.get (path ++ [k]) (createReadOnlyObject data)) ->
  Mutate.at_path path (Mutate.assign k v) (createReadOnlyObject data) = None
  /\ Mutate.at_path path (Mutate.delete k) (createReadOnlyObject data) = None.
Proof.
  revert data. induction path as [| k0 rest IH]; intros data [child Hget].
  - destruct data as [| | | | | isArray ext ps]; simpl in *; try discriminate.
    fold each in Hget |- *.
    destruct (Obj.lookup k (each ps)) as [[c a'] |] eqn:E; [| discriminate].
    destruct (createReadOnlyObject_lookup _ _ _ _ E) as [-> _]. auto.
  - destruct data as [| | | | | isArray ext ps]; simpl in *; try discriminate.
    fold each in Hget |- *.
    destruct (Obj.lookup k0 (each ps)) as [[c a'] |] eqn:E; [| discriminate].
    destruct (createReadOnlyObject_lookup _ _ _ _ E) as [-> [v0 ->]].
    destruct (IH v0) as (-> & ->); [eexists; exact Hget | auto].
Qed.

Lemma same_value_eq v held : Mutate.same_value v held = true -> v = held.
Proof.
  destruct v as [| | a | [m e] | s |], held as [| | b | [m' e'] | t |];
    simpl; try discriminate; try reflexivity.
  - destruct a, b; simpl; congruence.
  - intros H. apply andb_true_iff in H. destruct H as [Hm He].
    apply Z.eqb_eq in Hm, He. congruence.
  - intros H. apply ObjFacts.eqb_eq in H. congruence.
Qed.

(** On a property that is neither writable nor configurable, a descriptor
    is accepted exactly when it asks for what the property is, and then
    applying it changes nothing. *)
Lemma define_read_only d c :
  Mutate.allowed d (c, read_only) = Mutate.keeps d (c, read_only)
  /\ (Mutate.keeps d (c, read_only) = true
      -> Mutate.apply d (Some (c, read_only)) = (c, read_only)).
Proof.
  destruct d as [f [[|] |] [[|] |] [[|] |]]; unfold Mutate.allowed, Mutate.keeps;
    simpl; rewrite ?andb_false_r, ?andb_true_r; (split; [reflexivity |]);
    try discriminate.
  all: unfold Mutate.apply; simpl; destruct f as [| | v]; simpl;
    try reflexivity; intros H; now rewrite (same_value_eq _ _ H).
Qed.

(** A redefinition of a property of the copy, at any depth, is accepted
    exactly when it asks for what the property is, and leaves the copy as
    it is. *)
Lemma copy_define data path k d c :
  Mutate.get (path ++ [k]) (createReadOnlyObject data) = Some c ->
  Mutate.at_path path (Mutate.define k d) (createReadOnlyObject data)
  = if Mutate.keeps d (c, read_only) then Some (createReadOnlyObject data) else None.
Proof.
  revert data. induction path as [| k0 rest IH]; intros data Hget.
  - destruct data as [| | | | | isArray ext ps]; simpl in *; try discriminate.
    fold each in Hget |- *.
    destruct (Obj.lookup k (each ps)) as [[c' a'] |] eqn:E; [| discriminate].
    injection Hget as ->.
    destruct (createReadOnlyObject_lookup _ _ _ _ E) as [-> _].
    destruct (define_read_only d c) as [Hallowed Hkeeps].
    cbn [snd configurable read_only orb]. rewrite Hallowed.
    destruct (Mutate.keeps d (c, read_only)); [| reflexivity].
    now rewrite (Hkeeps eq_refl), (ObjFacts.replace_same _ _ _ E).
  - destruct data as [| | | | | isArray ext ps]; simpl in *; try discriminate.
    fold each in Hget |- *.
    destruct (Obj.lookup k0 (each ps)) as [[c' a'] |] eqn:E; [| discriminate].
    destruct (createReadOnlyObject_lookup _ _ _ _ E) as [-> [v0 ->]].
    rewrite (IH v0 Hget).
    destruct (Mutate.keeps d (c, read_only)); [| reflexivity].
    now rewrite (ObjFacts.replace_same _ _ _ E).
Qed.

(** X1: every property that [createReadOnlyObject] defined on the copy, at
    any depth, rejects an assignment and a deletion; a redefinition is
    rejected or leaves the copy as it is, and it is rejected exactly when
    the descriptor asks for something the property is not (for two numbers
    this is stated where the model tells numbers apart as JavaScript
    does).  The copy stays as it was in each case. *)
Theorem createReadOnlyObject_rejects_change data path k c v d :
  Mutate.get (path ++ [k]) (createReadOnlyObject data) = Some c ->
  Mutate.at_path path (Mutate.assign k v) (createReadOnlyObject data) = None
  /\ Mutate.at_path path (Mutate.delete k) (createReadOnlyObject data) = None
  /\ (Mutate.at_path path (Mutate.define k d) (createReadOnlyObject data) = None
      \/ Mutate.at_path path (Mutate.define k d) (createReadOnlyObject data)
         = Some (createReadOnlyObject data))
  /\ (Mutate.comparable d c = true ->
      Mutate.at_path path (Mutate.define k d) (createReadOnlyObject data)
      = if Mutate.keeps d (c, read_only)
        then Some (createReadOnlyObject data) else None).
Proof.
  intros Hget.
  destruct (copy_rejects_assign_delete data path k v) as [Ha Hd]; [eauto |].
  split; [exact Ha |]. split; [exact Hd |].
  rewrite (copy_define data path k d c Hget). split.
  - destruct (Mutate.keeps d (c, read_only)); auto.
  - reflexivity.
Qed.

End ReadOnly.

(** C9: the copy made by [createReadOnlyObject] stays extensible: an
    assignment to a name it does not hold yet succeeds and the snapshot
    holds a new field afterwards, at the top and inside a nested value. *)
Theorem C9_snapshot_accepts_new_field :
  Mutate.assign (str "B") (num 2)
    (createReadOnlyObject (Obj.literal [(str "A", num 1)]))
  = Some (VObject false true
            [(str "A", (num 1, read_only)); (str "B", (num 2, plain))])
  /\ Mutate.at_path [str "DATA"] (Mutate.assign (str "b") (num 2))
       (createReadOnlyObject (VObject false true (parse_lines (dq "DATA={'a':1}"))))
     = Some (VObject false true
               [(str "DATA",
                 (VObject false true
                    [(str "a", (num 1, read_only)); (str "b", (num 2, plain))],
                  read_only))]).
Proof. split; reflexivity. Qed.

(** ** Buffers and text on examples *)

Example utf8_examples :
  Utf8.decode [0x41; 0xC3; 0xA9; 0xE2; 0x82; 0xAC; 0xF0; 0x9F; 0x98; 0x80]%N
  = [0x41; 0xE9; 0x20AC; 0xD83D; 0xDE00]%N
  /\ Utf8.encode [0x41; 0xE9; 0x20AC; 0xD83D; 0xDE00]%N
     = [0x41; 0xC3; 0xA9; 0xE2; 0x82; 0xAC; 0xF0; 0x9F; 0x98; 0x80]%N
  /\ Utf8.decode [0xFF]%N = [0xFFFD]%N
  /\ Utf8.decode [0xE2; 0x82; 0x41]%N = [0xFFFD; 0x41]%N
  /\ Utf8.decode [0xC0; 0x80]%N = [0xFFFD; 0xFFFD]%N
  /\ Utf8.decode [0xED; 0xA0; 0x80]%N = [0xFFFD; 0xFFFD; 0xFFFD]%N.
Proof. repeat split; reflexivity. Qed.

Example hex_examples :
  Hex.decode (str "1a7") = [0x1a]%N
  /\ Hex.decode (str "1ag123") = [0x1a]%N
  /\ Hex.decode (str "00ffAB") = [0; 255; 171]%N
  /\ Hex.encode [0; 255; 171]%N = str "00ffab".
Proof. repeat split; reflexivity. Qed.

(** ** The reference cipher inverts *)

Module ReferenceFacts.

Import Reference.

Lemma xor_cancel (a b : bytes) :
  length a = length b -> xor (xor a b) b = a.
Proof.
  revert b. induction a as [| x a IH]; intros [| y b]; simpl; try discriminate; auto.
  intros [= H]. unfold xor in *. simpl. rewrite IH by exact H.
  f_equal. rewrite N.lxor_assoc, N.lxor_nilpotent. apply N.lxor_0_r.
Qed.

Lemma xor_length (a b : bytes) :
  length a = length b -> length (xor a b) = length a.
Proof. intros H. unfold xor. rewrite length_zip_with. lia. Qed.

Lemma cbc_inverts n key : forall previous data,
  length key = 16 -> length previous = 16 -> length data = n * 16 ->
  cbc_decrypt n key previous (cbc_encrypt n key previous data) = data.
Proof.
  induction n as [| n IH]; intros previous data Hk Hp Hd.
  - destruct data; [reflexivity | discriminate].
  - simpl.
    assert (Ht : length (take 16 data) = 16) by (rewrite length_take; lia).
    assert (Hb : length (xor (xor (take 16 data) previous) key) = 16).
    { rewrite !xor_length; rewrite ?xor_length; lia. }
    rewrite take_app_length' by (symmetry; exact Hb).
    rewrite drop_app_length' by (symmetry; exact Hb).
    rewrite !xor_cancel by (rewrite ?xor_length; lia).
    rewrite IH; [apply take_drop | exact Hk | exact Hb |].
    rewrite length_drop. simpl in Hd. lia.
Qed.

Lemma cbc_encrypt_length n key : forall previous data,
  length key = 16 -> length previous = 16 -> length data = n * 16 ->
  length (cbc_encrypt n key previous data) = n * 16.
Proof.
  induction n as [| n IH]; intros previous data Hk Hp Hd; [reflexivity |].
  simpl. rewrite length_app.
  assert (Ht : length (take 16 data) = 16) by (rewrite length_take; lia).
  assert (Hb : length (xor (xor (take 16 data) previous) key) = 16).
  { rewrite !xor_length; rewrite ?xor_length; lia. }
  rewrite Hb, IH; [lia | exact Hk | exact Hb |].
  rewrite length_drop. simpl in Hd. lia.
Qed.

Lemma pad_length plaintext :
  exists n, length (pad plaintext) = n * 16 /\ 0 < n.
Proof.
  unfold pad. rewrite length_app, length_replicate.
  exists (S (length plaintext / 16)).
  pose proof (Nat.div_mod_eq (length plaintext) 16).
  pose proof (Nat.mod_upper_bound (length plaintext) 16). lia.
Qed.

Lemma unpad_pad plaintext : unpad (pad plaintext) = Some plaintext.
Proof.
  unfold pad, unpad.
  pose proof (Nat.mod_upper_bound (length plaintext) 16) as Hm.
  set (n := 16 - length plaintext mod 16) in *.
  assert (Hn : 1 <= n <= 16) by lia.
  destruct n as [| n'] eqn:En; [lia |].
  rewrite replicate_S_end, app_assoc, last_snoc.
  rewrite <- app_assoc, <- replicate_S_end, <- En.
  rewrite Nat2N.id, length_app, length_replicate.
  replace (length plaintext + n - n) with (length plaintext) by lia.
  rewrite drop_app_length, take_app_length.
  rewrite bool_decide_eq_true_2 by reflexivity.
  replace ((1 <=? n) && (n <=? 16) && (n <=? length plaintext + n))%nat with true;
    [reflexivity |].
  symmetry. rewrite !andb_true_iff, !Nat.leb_le. lia.
Qed.

(** The cipher of the reference platform satisfies [cipher_inverts]. *)
Lemma reference_cipher_inverts : cipher_inverts platform.
Proof.
  intros key iv plaintext Hk Hiv. simpl. unfold decrypt, encrypt.
  destruct (pad_length plaintext) as (n & Hn & Hpos).
  assert (Hk16 : length (take 16 key) = 16) by (rewrite length_take; lia).
  rewrite Hn, Nat.div_mul by lia.
  rewrite (cbc_encrypt_length n) by assumption.
  rewrite Nat.Div0.mod_mul, Nat.div_mul by lia. simpl.
  rewrite cbc_inverts by assumption.
  apply unpad_pad.
Qed.

End ReferenceFacts.

(** ** UTF-8: encoding the decoded text *)

Module Utf8Facts.

Import Utf8.
Local Open Scope N_scope.

Ltac arith :=
  unfold continuation, between, second_low, second_high in *;
  repeat match goal with
    | H : (_ && _)%bool = true |- _ => apply andb_true_iff in H; destruct H
    | H : (_ <=? _) = true |- _ => apply N.leb_le in H
    | H : (_ <? _) = false |- _ => apply N.ltb_ge in H
    | H : (_ <? _) = true |- _ => apply N.ltb_lt in H
    | H : context [if ?c =? ?d then _ else _] |- _ =>
        destruct (N.eqb_spec c d)
    end.

Lemma encode_two c r :
  0x80 <= c < 0x800 ->
  encode (c :: r) = 0xC0 + c / 64 :: 0x80 + c mod 64 :: encode r.
Proof.
  intros H. simpl.
  destruct (N.ltb_spec c 0x80); [lia |].
  destruct (N.ltb_spec c 0x800); [reflexivity | lia].
Qed.

Lemma encode_three c r :
  0x800 <= c -> c < 0xD800 \/ 0xDFFF < c ->
  encode (c :: r)
  = 0xE0 + c / 4096 :: 0x80 + (c / 64) mod 64 :: 0x80 + c mod 64 :: encode r.
Proof.
  intros H1 H2. simpl. unfold between.
  destruct (N.ltb_spec c 0x80); [lia |].
  destruct (N.ltb_spec c 0x800); [lia |].
  destruct (N.leb_spec 0xD800 c), (N.leb_spec c 0xDBFF),
    (N.leb_spec 0xDC00 c), (N.leb_spec c 0xDFFF); simpl; try reflexivity; lia.
Qed.

Lemma encode_pair hi lo r :
  0xD800 <= hi <= 0xDBFF -> 0xDC00 <= lo <= 0xDFFF ->
  encode (hi :: lo :: r)
  = let cp := 0x10000 + (hi - 0xD800) * 1024 + (lo - 0xDC00) in
    0xF0 + cp / 262144 :: 0x80 + (cp / 4096) mod 64
    :: 0x80 + (cp / 64) mod 64 :: 0x80 + cp mod 64 :: encode r.
Proof.
  intros H1 H2. cbn [encode]. unfold between.
  destruct (N.ltb_spec hi 0x80); [lia |].
  destruct (N.ltb_spec hi 0x800); [lia |].
  destruct (N.leb_spec 0xD800 hi); [| lia].
  destruct (N.leb_spec hi 0xDBFF); [| lia].
  destruct (N.leb_spec 0xDC00 lo); [| lia].
  destruct (N.leb_spec lo 0xDFFF); [| lia].
  reflexivity.
Qed.

Lemma div_mod_unique a b q r :
  r < b -> a = b * q + r -> a / b = q /\ a mod b = r.
Proof.
  intros Hr Ha. split; symmetry.
  - exact (N.div_unique a b q r Hr Ha).
  - exact (N.mod_unique a b q r Hr Ha).
Qed.

Lemma two_bytes b0 b1 :
  0xC2 <= b0 <= 0xDF -> 0x80 <= b1 <= 0xBF ->
  let c := (b0 - 0xC0) * 64 + (b1 - 0x80) in
  0x80 <= c < 0x800 /\ 0xC0 + c / 64 = b0 /\ 0x80 + c mod 64 = b1.
Proof.
  intros H0 H1 c.
  destruct (div_mod_unique c 64 (b0 - 0xC0) (b1 - 0x80)) as [-> ->];
    subst c; lia.
Qed.

Lemma three_bytes b0 b1 b2 :
  0xE0 <= b0 <= 0xEF -> 0x80 <= b1 <= 0xBF -> 0x80 <= b2 <= 0xBF ->
  (b0 = 0xE0 -> 0xA0 <= b1) -> (b0 = 0xED -> b1 <= 0x9F) ->
  let c := (b0 - 0xE0) * 4096 + (b1 - 0x80) * 64 + (b2 - 0x80) in
  0x800 <= c /\ (c < 0xD800 \/ 0xDFFF < c)
  /\ 0xE0 + c / 4096 = b0 /\ 0x80 + (c / 64) mod 64 = b1 /\ 0x80 + c mod 64 = b2.
Proof.
  intros H0 H1 H2 H3 H4 c.
  destruct (div_mod_unique c 4096 (b0 - 0xE0) ((b1 - 0x80) * 64 + (b2 - 0x80)))
    as [-> _]; [lia | subst c; lia |].
  destruct (div_mod_unique c 64 ((b0 - 0xE0) * 64 + (b1 - 0x80)) (b2 - 0x80))
    as [-> ->]; [lia | subst c; lia |].
  destruct (div_mod_unique ((b0 - 0xE0) * 64 + (b1 - 0x80)) 64 (b0 - 0xE0) (b1 - 0x80))
    as [_ ->]; [lia | lia |].
  subst c. lia.
Qed.

Lemma four_bytes b0 b1 b2 b3 :
  0xF0 <= b0 <= 0xF4 -> 0x80 <= b1 <= 0xBF -> 0x80 <= b2 <= 0xBF ->
  0x80 <= b3 <= 0xBF ->
  (b0 = 0xF0 -> 0x90 <= b1) -> (b0 = 0xF4 -> b1 <= 0x8F) ->
  let cp := (b0 - 0xF0) * 262144 + (b1 - 0x80) * 4096 + (b2 - 0x80) * 64 + (b3 - 0x80) in
  let hi := 0xD800 + (cp - 0x10000) / 1024 in
  let lo := 0xDC00 + (cp - 0x10000) mod 1024 in
  0xD800 <= hi <= 0xDBFF /\ 0xDC00 <= lo <= 0xDFFF
  /\ 0x10000 + (hi - 0xD800) * 1024 + (lo - 0xDC00) = cp
  /\ 0xF0 + cp / 262144 = b0 /\ 0x80 + (cp / 4096) mod 64 = b1
  /\ 0x80 + (cp / 64) mod 64 = b2 /\ 0x80 + cp mod 64 = b3.
Proof.
  intros H0 H1 H2 H3 H4 H5 cp hi lo.
  set (x := b0 - 0xF0) in *. set (y := b1 - 0x80) in *.
  set (z := b2 - 0x80) in *. set (w := b3 - 0x80) in *.
  assert (Hx : b0 = 0xF0 + x) by (subst x; lia).
  assert (Hy : b1 = 0x80 + y) by (subst y; lia).
  assert (Hz : b2 = 0x80 + z) by (subst z; lia).
  assert (Hw : b3 = 0x80 + w) by (subst w; lia).
  assert (Bx : x <= 4) by lia. assert (By : y < 64) by lia.
  assert (Bz : z < 64) by lia. assert (Bw : w < 64) by lia.
  assert (Blow : x = 0 -> 16 <= y) by lia.
  assert (Bhigh : x = 4 -> y <= 15) by lia.
  clearbody x y z w.
  assert (Hcp : 0x10000 <= cp <= 0x10FFFF) by (subst cp; lia).
  pose proof (N.Div0.div_mod (cp - 0x10000) 1024) as Hdm.
  pose proof (N.mod_lt (cp - 0x10000) 1024 ltac:(lia)) as Hlt.
  destruct (div_mod_unique cp 262144 x (y * 4096 + z * 64 + w)) as [E1 _];
    [lia | subst cp; lia |].
  destruct (div_mod_unique cp 4096 (x * 64 + y) (z * 64 + w)) as [E2 _];
    [lia | subst cp; lia |].
  destruct (div_mod_unique (x * 64 + y) 64 x y) as [_ E3]; [lia | lia |].
  destruct (div_mod_unique cp 64 (x * 4096 + y * 64 + z) w) as [E4 E5];
    [lia | subst cp; lia |].
  destruct (div_mod_unique (x * 4096 + y * 64 + z) 64 (x * 64 + y) z) as [_ E6];
    [lia | lia |].
  rewrite E1, E2, E3, E4, E5, E6.
  subst hi lo.
  set (q := (cp - 0x10000) / 1024) in *. set (r := (cp - 0x10000) mod 1024) in *.
  clearbody q r. lia.
Qed.

Lemma encode_ascii c r : c < 0x80 -> encode (c :: r) = c :: encode r.
Proof.
  intros H. simpl. destruct (N.ltb_spec c 0x80); [reflexivity | lia].
Qed.

Lemma encode_decode_bounded n : forall b,
  (length b <= n)%nat -> well_formed b = true -> encode (decode b) = b.
Proof.
  induction n as [| n IH]; intros [| b0 r] Hlen Hwf; try reflexivity;
    [simpl in Hlen; lia |].
  simpl in Hlen. cbn [decode well_formed] in *.
  destruct (b0 <? 0x80) eqn:E1.
  { rewrite encode_ascii by (apply N.ltb_lt; exact E1).
    f_equal. apply IH; [lia | exact Hwf]. }
  destruct (between 0xC2 0xDF b0) eqn:E2.
  { destruct r as [| b1 r1]; [discriminate |].
    apply andb_true_iff in Hwf. destruct Hwf as [C1 Hwf]. rewrite C1.
    assert (R0 : 0xC2 <= b0 <= 0xDF) by (clear - E2; arith; lia).
    assert (R1 : 0x80 <= b1 <= 0xBF) by (clear - C1; arith; lia).
    destruct (two_bytes b0 b1 R0 R1) as (Hc & Hd & Hm).
    rewrite encode_two by exact Hc. rewrite Hd, Hm.
    do 2 f_equal. apply IH; [simpl in Hlen; lia | exact Hwf]. }
  destruct (between 0xE0 0xEF b0) eqn:E3.
  { destruct r as [| b1 [| b2 r2]]; try discriminate.
    apply andb_true_iff in Hwf. destruct Hwf as [Hwf Hr].
    apply andb_true_iff in Hwf. destruct Hwf as [C1 C2]. rewrite C1, C2.
    assert (R0 : 0xE0 <= b0 <= 0xEF) by (clear - E3; arith; lia).
    assert (R2 : 0x80 <= b2 <= 0xBF) by (clear - C2; arith; lia).
    assert (R1 : 0x80 <= b1 <= 0xBF /\ (b0 = 0xE0 -> 0xA0 <= b1)
                 /\ (b0 = 0xED -> b1 <= 0x9F)).
    { clear - C1 R0. unfold between, second_low, second_high in C1.
      apply andb_true_iff in C1. destruct C1 as [L H].
      apply N.leb_le in L, H.
      destruct (N.eqb_spec b0 0xE0), (N.eqb_spec b0 0xF0), (N.eqb_spec b0 0xED),
        (N.eqb_spec b0 0xF4); lia. }
    destruct R1 as (R1 & Rlow & Rhigh).
    destruct (three_bytes b0 b1 b2 R0 R1 R2 Rlow Rhigh) as (Hc & Hs & Hd & Hm1 & Hm2).
    rewrite encode_three by assumption. rewrite Hd, Hm1, Hm2.
    do 3 f_equal. apply IH; [simpl in Hlen; lia | exact Hr]. }
  destruct (between 0xF0 0xF4 b0) eqn:E4; [| discriminate].
  destruct r as [| b1 [| b2 [| b3 r3]]]; try discriminate.
  apply andb_true_iff in Hwf. destruct Hwf as [Hwf Hr].
  apply andb_true_iff in Hwf. destruct Hwf as [Hwf C3].
  apply andb_true_iff in Hwf. destruct Hwf as [C1 C2]. rewrite C1, C2, C3.
  assert (R0 : 0xF0 <= b0 <= 0xF4) by (clear - E4; arith; lia).
  assert (R2 : 0x80 <= b2 <= 0xBF) by (clear - C2; arith; lia).
  assert (R3 : 0x80 <= b3 <= 0xBF) by (clear - C3; arith; lia).
  assert (R1 : 0x80 <= b1 <= 0xBF /\ (b0 = 0xF0 -> 0x90 <= b1)
               /\ (b0 = 0xF4 -> b1 <= 0x8F)).
  { clear - C1 R0. unfold between, second_low, second_high in C1.
    apply andb_true_iff in C1. destruct C1 as [L H].
    apply N.leb_le in L, H.
    destruct (N.eqb_spec b0 0xE0), (N.eqb_spec b0 0xF0), (N.eqb_spec b0 0xED),
      (N.eqb_spec b0 0xF4); lia. }
  destruct R1 as (R1 & Rlow & Rhigh).
  destruct (four_bytes b0 b1 b2 b3 R0 R1 R2 R3 Rlow Rhigh)
    as (Hhi & Hlo & Hcp & H0 & H1 & H2 & H3).
  unfold surrogates. cbn [app].
  rewrite encode_pair by assumption. cbv zeta.
  rewrite Hcp, H0, H1, H2, H3.
  do 4 f_equal. apply IH; [simpl in Hlen; lia | exact Hr].
Qed.

(** A well-formed UTF-8 sequence is the encoding of its decoded text. *)
Lemma encode_decode b : well_formed b = true -> encode (decode b) = b.
Proof. apply (encode_decode_bounded (length b)). lia. Qed.

End Utf8Facts.

(** ** The class TopSecret *)

Module TopSecretFacts.

Import TopSecret.

Lemma check_key_iv_ok key iv :
  length key = 32 -> length iv = 16 -> check_key_iv key iv = Ok tt.
Proof. intros Hk Hiv. unfold check_key_iv. now rewrite Hk, Hiv. Qed.

(** Decrypting what was encrypted gives the decoded text of the buffer. *)
Lemma round_trip_text P this key iv b :
  cipher_inverts P -> _key this = Some key -> length key = 32 -> length iv = 16 ->
  round_trip P this iv b = Ok (Utf8.decode b).
Proof.
  intros Hinv Hkey Hk Hiv. unfold round_trip, encryptBuffer, decryptBuffer.
  rewrite Hkey, (check_key_iv_ok _ _ Hk Hiv).
  rewrite take_app_length' by (symmetry; exact Hiv).
  rewrite drop_app_length' by (symmetry; exact Hiv).
  rewrite (check_key_iv_ok _ _ Hk Hiv), (Hinv _ _ _ Hk Hiv). reflexivity.
Qed.

End TopSecretFacts.

(** C1, as stated, fails: the one byte FF encrypted and decrypted comes
    back as the text U+FFFD, which is not that byte and whose UTF-8 form
    is the three bytes EF BF BD. *)
Lemma C1_byte_ff_not_returned :
  round_trip Reference.platform
    (mkTopSecret (Some (Hex.decode Reference.key_hex)) None) Reference.iv0 [0xFF%N]
  = Ok [0xFFFD%N]
  /\ [0xFFFD%N] <> [0xFF%N]
  /\ Utf8.encode [0xFFFD%N] <> [0xFF%N].
Proof. split; [reflexivity |]. split; intros [=]. Qed.

(** C1, amended: with 32 bytes of key material and any 16-byte IV,
    [decryptBuffer(encryptBuffer(b))] returns the UTF-8 decoding of [b], a
    string; when [b] is well-formed UTF-8 that string encodes back to [b]. *)
Theorem C1_round_trip_returns_text P this key iv b :
  cipher_inverts P -> _key this = Some key -> length key = 32 -> length iv = 16 ->
  round_trip P this iv b = Ok (Utf8.decode b)
  /\ (Utf8.well_formed b = true -> Utf8.encode (Utf8.decode b) = b).
Proof.
  intros Hinv Hkey Hk Hiv. split.
  - exact (TopSecretFacts.round_trip_text P this key iv b Hinv Hkey Hk Hiv).
  - apply Utf8Facts.encode_decode.
Qed.

Lemma C1_round_trip_witness :
  round_trip Reference.platform
    (mkTopSecret (Some (Hex.decode Reference.key_hex)) None) Reference.iv0
    [0x50; 0x4F; 0x52; 0x54; 0x3D; 0xC3; 0xA9; 0xE2; 0x82; 0xAC]%N
  = Ok (Utf8.decode [0x50; 0x4F; 0x52; 0x54; 0x3D; 0xC3; 0xA9; 0xE2; 0x82; 0xAC]%N)
  /\ (Utf8.well_formed [0x50; 0x4F; 0x52; 0x54; 0x3D; 0xC3; 0xA9; 0xE2; 0x82; 0xAC]%N
      = true ->
      Utf8.encode (Utf8.decode [0x50; 0x4F; 0x52; 0x54; 0x3D; 0xC3; 0xA9; 0xE2; 0x82; 0xAC]%N)
      = [0x50; 0x4F; 0x52; 0x54; 0x3D; 0xC3; 0xA9; 0xE2; 0x82; 0xAC]%N).
Proof.
  exact (C1_round_trip_returns_text Reference.platform
           (mkTopSecret (Some (Hex.decode Reference.key_hex)) None)
           (Hex.decode Reference.key_hex) Reference.iv0
           [0x50; 0x4F; 0x52; 0x54; 0x3D; 0xC3; 0xA9; 0xE2; 0x82; 0xAC]%N
           ReferenceFacts.reference_cipher_inverts eq_refl eq_refl eq_refl).
Defined.

(** *** Key material and password *)

Module KeyFacts.

Import TopSecret.

Lemma set_key_ok this v this' :
  set_key this v = Ok this' ->
  length v = 64
  /\ _key this' = Some (Hex.decode v) /\ _password this' = _password this.
Proof.
  unfold set_key. destruct (JsString.truthy v); simpl; [| discriminate].
  destruct (Nat.eqb_spec (length v) 64); [| discriminate].
  intros [= <-]. auto.
Qed.

Lemma set_password_ok P this v this' :
  set_password P this v = Ok this' ->
  exists s, v = VString s /\ s <> []
    /\ _key this' = Some (sha256 P (Utf8.encode s)) /\ _password this' = Some s.
Proof.
  destruct v as [| | | | s |]; simpl; try discriminate.
  destruct s as [| c s]; simpl; [discriminate |].
  intros [= <-]. exists (c :: s). auto.
Qed.

(** An operation other than [set password] leaves the password as it is. *)
Lemma password_kept_by_key_op P this op :
  is_set_password op = false ->
  _password (apply_key_op P this op) = _password this.
Proof.
  destruct op as [random | v | v]; simpl; [reflexivity | | discriminate].
  intros _. destruct (set_key this v) as [this' |] eqn:E; [| reflexivity].
  now destruct (set_key_ok _ _ _ E) as (_ & _ & ->).
Qed.

Lemma password_kept_by_key_ops P ops : forall this,
  Forall (fun op => is_set_password op = false) ops ->
  _password (run_key_ops P this ops) = _password this.
Proof.
  unfold run_key_ops.
  induction ops as [| op ops IH]; intros this Hall; [reflexivity |].
  inversion Hall as [| ? ? Hop Hrest]; subst. simpl.
  rewrite IH by exact Hrest.
  now apply password_kept_by_key_op.
Qed.

(** A hex string of 64 digits decodes to 32 bytes. *)
Lemma hex_decode_length (s : jsstring) : forall n,
  length s = 2 * n -> Hex.is_hex s = true -> length (Hex.decode s) = n.
Proof.
  induction s as [s IH] using (induction_ltof1 _ (@length N)). unfold ltof in IH.
  intros n Hlen Hhex. destruct s as [| a [| b r]]; simpl in *.
  - lia.
  - lia.
  - unfold Hex.is_hex in Hhex. simpl in Hhex.
    destruct (Json.hex_digit a); [| discriminate].
    destruct (Json.hex_digit b); [| discriminate]. simpl.
    destruct n as [| n]; [lia |]. f_equal.
    apply IH; [simpl; lia | lia | exact Hhex].
Qed.

End KeyFacts.

(** C2, as stated, fails: a key generated after [set password] replaces
    the key material, and the password stays on the instance. *)
Lemma C2_password_survives_generateKey :
  _password (run_key_ops Reference.platform TopSecret.constructor
               [SetPassword (VString (str "hunter2")); GenerateKey (replicate 32 7%N)])
  = Some (str "hunter2")
  /\ _key (run_key_ops Reference.platform TopSecret.constructor
             [SetPassword (VString (str "hunter2")); GenerateKey (replicate 32 7%N)])
     = Some (replicate 32 7%N)
  /\ _password (run_key_ops Reference.platform TopSecret.constructor
                  [SetPassword (VString (str "hunter2")); SetKey Reference.key_hex])
     = Some (str "hunter2").
Proof. repeat split; reflexivity. Qed.

(** C2, amended: the key material is single-valued, each successful
    [generateKey], [set key] or [set password] replaces it; the password is
    written by [set password] alone and nothing clears it, so it survives
    every sequence of [generateKey] and [set key] calls. *)
Theorem C2_key_replaced_password_kept P :
  (forall this random,
      _key (fst (TopSecret.generateKey this random)) = Some random
      /\ _password (fst (TopSecret.generateKey this random)) = _password this)
  /\ (forall this v this',
        TopSecret.set_key this v = Ok this' ->
        _key this' = Some (Hex.decode v) /\ _password this' = _password this)
  /\ (forall this v this',
        TopSecret.set_password P this v = Ok this' ->
        exists s, v = VString s /\ s <> []
          /\ _key this' = Some (sha256 P (Utf8.encode s)) /\ _password this' = Some s)
  /\ (forall this ops,
        Forall (fun op => is_set_password op = false) ops ->
        _password (run_key_ops P this ops) = _password this).
Proof.
  split; [intros; split; reflexivity |].
  split; [intros this v this' H; now destruct (KeyFacts.set_key_ok _ _ _ H) as (_ & ? & ?) |].
  split; [exact (KeyFacts.set_password_ok P) |].
  intros this ops H. now apply KeyFacts.password_kept_by_key_ops.
Qed.

(** C6: a string of 64 characters that are not hex digits passes the
    length test of [set key]; the key installed is what the hex decoder
    makes of it, here no byte at all, and every encryption then fails on
    the key length. *)
Theorem C6_set_key_accepts_64_non_hex_characters :
  TopSecret.set_key TopSecret.constructor (replicate 64 0x7A%N)
  = Ok (mkTopSecret (Some []) None)
  /\ TopSecret.encryptBuffer Reference.platform (mkTopSecret (Some []) None)
       Reference.iv0 (str "x")
     = Throw (NodeError InvalidKeyLength).
Proof. split; reflexivity. Qed.

(** C3: [decryptEnvFromFile] keeps the second piece of the split line:
    the text [A=b=c] sets [A] to [b], not to [b=c]; so does the whole
    method on a file that holds this text encrypted. *)
Theorem C3_value_cut_at_second_equals :
  TopSecret.assign_env_lines (str "A=b=c") ∅ = {[ str "A" := str "b" ]}
  /\ (let this := mkTopSecret (Some (Hex.decode Reference.key_hex)) None in
      let envelope :=
        Reference.iv0
        ++ Reference.encrypt (Hex.decode Reference.key_hex) Reference.iv0 (str "A=b=c") in
      TopSecret.decryptEnvFromFile Reference.platform this (str "/app/.env.enc")
        (mkWorld {[ str "/app/.env.enc" := envelope ]} ∅ [])
      = (Ok tt, mkWorld {[ str "/app/.env.enc" := envelope ]}
                        {[ str "A" := str "b" ]} [])).
Proof. split; vm_compute; reflexivity. Qed.

(** *** Calls on an instance without key material *)

Module NoKeyFacts.

Import TopSecret.

Section NoKey.

Context (P : Platform) (this : TopSecret) (Hkey : _key this = None).

Lemma encryptBuffer_no_key iv buffer : encryptBuffer P this iv buffer = Throw KeyNotSet.
Proof using Hkey. unfold encryptBuffer. now rewrite Hkey. Qed.

Lemma decryptBuffer_no_key buffer : decryptBuffer P this buffer = Throw KeyNotSet.
Proof using Hkey. unfold decryptBuffer. now rewrite Hkey. Qed.

Lemma encryptJSON_no_key iv data : encryptJSON P this iv data = Throw KeyNotSet.
Proof using Hkey. unfold encryptJSON. now rewrite Hkey. Qed.

Lemma decryptJSON_no_key data : decryptJSON P this data = Throw KeyNotSet.
Proof using Hkey. unfold decryptJSON. now rewrite Hkey. Qed.

Lemma encryptJSONToFile_no_key iv data filename w :
  encryptJSONToFile P this iv data filename w = (Throw KeyNotSet, w).
Proof using Hkey. unfold encryptJSONToFile. now rewrite Hkey. Qed.

Lemma decryptEnvFromFile_no_key filename w :
  decryptEnvFromFile P this filename w = (Throw KeyNotSet, w).
Proof using Hkey. unfold decryptEnvFromFile. now rewrite Hkey. Qed.

(** The file variants catch what their body throws, log it and throw
    their own error; no file and no variable changes.  Those that read a
    file first catch the missing-key error when the file is there and the
    error of the read when it is not. *)
Lemma encryptFile_no_key iv src dst w :
  encryptFile P this iv src dst w
  = (Throw (Error (str "Failed to encrypt file.")),
     logged w (str "Failed to encrypt file:") (caught_without_key w src)).
Proof using Hkey.
  unfold encryptFile, try_catch, bind, readFileSync, lift, emit, throw, logged,
    caught_without_key.
  destruct (fs w !! src); [rewrite encryptBuffer_no_key |]; reflexivity.
Qed.

Lemma decryptFile_no_key src dst w :
  decryptFile P this src dst w
  = (Throw (Error (str "Failed to decrypt file.")),
     logged w (str "Failed to decrypt file:") (caught_without_key w src)).
Proof using Hkey.
  unfold decryptFile, try_catch, bind, readFileSync, lift, emit, throw, logged,
    caught_without_key.
  destruct (fs w !! src); [rewrite decryptBuffer_no_key |]; reflexivity.
Qed.

Lemma decryptBufferFromFile_no_key filename w :
  decryptBufferFromFile P this filename w
  = (Throw (Error (str "Failed to load buffer from file.")),
     logged w (str "Failed to load buffer from file:") (caught_without_key w filename)).
Proof using Hkey.
  unfold decryptBufferFromFile, try_catch, bind, readFileSync, lift, emit, throw,
    logged, caught_without_key.
  destruct (fs w !! filename); [rewrite decryptBuffer_no_key |]; reflexivity.
Qed.

Lemma decryptJSONFromFile_no_key filename w :
  decryptJSONFromFile P this filename w
  = (Throw (Error (str "Failed to load buffer from file.")),
     logged w (str "Failed to load buffer from file:") (caught_without_key w filename)).
Proof using Hkey.
  unfold decryptJSONFromFile, bind. now rewrite decryptBufferFromFile_no_key.
Qed.

Lemma loadJSONFromFile_no_key filename w :
  loadJSONFromFile P this filename w
  = (Throw (Error (str "Failed to load JSON from file.")),
     logged w (str "Failed to load JSON from file:") (caught_without_key w filename)).
Proof using Hkey.
  unfold loadJSONFromFile, try_catch, bind, readFileSync_utf8, bind, readFileSync,
    ret, lift, emit, throw, logged, caught_without_key.
  destruct (fs w !! filename); [rewrite decryptJSON_no_key |]; reflexivity.
Qed.

Lemma saveBufferToFile_no_key iv filename buffer w :
  saveBufferToFile P this iv filename buffer w
  = (Throw (Error (str "Failed to save buffer to file.")),
     logged w (str "Failed to save buffer to file:") KeyNotSet).
Proof using Hkey.
  unfold saveBufferToFile, try_catch, bind, lift, emit, throw, logged.
  now rewrite encryptBuffer_no_key.
Qed.

Lemma saveJSONToFile_no_key iv filename data w :
  saveJSONToFile P this iv filename data w
  = (Throw (Error (str "Failed to save JSON to file.")),
     logged w (str "Failed to save JSON to file:") KeyNotSet).
Proof using Hkey.
  unfold saveJSONToFile, try_catch, bind, lift, emit, throw, logged.
  now rewrite encryptJSON_no_key.
Qed.

End NoKey.

End NoKeyFacts.

(** C5, as stated, fails: on a new instance [encryptFile], [decryptFile]
    and [decryptBufferFromFile] throw their own error, not the missing-key
    error, also when the source file is there. *)
Lemma C5_file_variants_hide_KeyNotSet :
  fst (TopSecret.encryptFile Reference.platform TopSecret.constructor Reference.iv0
         (str "/app/.env") (str "/app/.env.enc")
         (mkWorld {[ str "/app/.env" := str "A=1" ]} ∅ []))
  = Throw (Error (str "Failed to encrypt file."))
  /\ fst (TopSecret.decryptFile Reference.platform TopSecret.constructor
            (str "/app/.env") (str "/app/.env.txt")
            (mkWorld {[ str "/app/.env" := str "A=1" ]} ∅ []))
     = Throw (Error (str "Failed to decrypt file."))
  /\ fst (TopSecret.decryptBufferFromFile Reference.platform TopSecret.constructor
            (str "/app/.env") (mkWorld {[ str "/app/.env" := str "A=1" ]} ∅ []))
     = Throw (Error (str "Failed to load buffer from file."))
  /\ Error (str "Failed to encrypt file.") <> KeyNotSet
  /\ Error (str "Failed to decrypt file.") <> KeyNotSet
  /\ Error (str "Failed to load buffer from file.") <> KeyNotSet.
Proof.
  split; [vm_compute; reflexivity |]. split; [vm_compute; reflexivity |].
  split; [vm_compute; reflexivity |]. repeat split; intros [=].
Qed.

(** C5, amended: on an instance without key material every operation
    fails, and changes no file and no variable.  [encryptBuffer],
    [decryptBuffer], [encryptJSON], [decryptJSON], [encryptJSONToFile] and
    [decryptEnvFromFile] throw the missing-key error, which the caller
    sees, and log nothing.  The operations that wrap their body in a [try]
    log what they caught and throw their own error instead.
    [saveBufferToFile] and [saveJSONToFile] have caught the missing-key
    error.  [encryptFile], [decryptFile], [decryptBufferFromFile] (and
    [decryptJSONFromFile] through it) and [loadJSONFromFile] read the file
    before anything asks for the key: they have caught the missing-key
    error when the file is there, and the error of the read when it is
    not. *)
Theorem C5_no_key_material P this :
  _key this = None ->
  (forall iv buffer, TopSecret.encryptBuffer P this iv buffer = Throw KeyNotSet)
  /\ (forall buffer, TopSecret.decryptBuffer P this buffer = Throw KeyNotSet)
  /\ (forall iv data, TopSecret.encryptJSON P this iv data = Throw KeyNotSet)
  /\ (forall data, TopSecret.decryptJSON P this data = Throw KeyNotSet)
  /\ (forall iv data filename w,
        TopSecret.encryptJSONToFile P this iv data filename w = (Throw KeyNotSet, w))
  /\ (forall filename w,
        TopSecret.decryptEnvFromFile P this filename w = (Throw KeyNotSet, w))
  /\ (forall iv src dst w,
        TopSecret.encryptFile P this iv src dst w
        = (Throw (Error (str "Failed to encrypt file.")),
           logged w (str "Failed to encrypt file:") (caught_without_key w src)))
  /\ (forall src dst w,
        TopSecret.decryptFile P this src dst w
        = (Throw (Error (str "Failed to decrypt file.")),
           logged w (str "Failed to decrypt file:") (caught_without_key w src)))
  /\ (forall filename w,
        TopSecret.decryptBufferFromFile P this filename w
        = (Throw (Error (str "Failed to load buffer from file.")),
           logged w (str "Failed to load buffer from file:")
             (caught_without_key w filename)))
  /\ (forall filename w,
        TopSecret.decryptJSONFromFile P this filename w
        = (Throw (Error (str "Failed to load buffer from file.")),
           logged w (str "Failed to load buffer from file:")
             (caught_without_key w filename)))
  /\ (forall filename w,
        TopSecret.loadJSONFromFile P this filename w
        = (Throw (Error (str "Failed to load JSON from file.")),
           logged w (str "Failed to load JSON from file:")
             (caught_without_key w filename)))
  /\ (forall iv filename buffer w,
        TopSecret.saveBufferToFile P this iv filename buffer w
        = (Throw (Error (str "Failed to save buffer to file.")),
           logged w (str "Failed to save buffer to file:") KeyNotSet))
  /\ (forall iv filename data w,
        TopSecret.saveJSONToFile P this iv filename data w
        = (Throw (Error (str "Failed to save JSON to file.")),
           logged w (str "Failed to save JSON to file:") KeyNotSet))
  /\ (forall w path,
        (is_Some (fs w !! path) -> caught_without_key w path = KeyNotSet)
        /\ (fs w !! path = None
            -> caught_without_key w path = NodeError (ENOENT path))).
Proof.
  intros Hkey.
  split; [exact (NoKeyFacts.encryptBuffer_no_key P this Hkey) |].
  split; [exact (NoKeyFacts.decryptBuffer_no_key P this Hkey) |].
  split; [exact (NoKeyFacts.encryptJSON_no_key P this Hkey) |].
  split; [exact (NoKeyFacts.decryptJSON_no_key P this Hkey) |].
  split; [exact (NoKeyFacts.encryptJSONToFile_no_key P this Hkey) |].
  split; [exact (NoKeyFacts.decryptEnvFromFile_no_key P this Hkey) |].
  split; [exact (NoKeyFacts.encryptFile_no_key P this Hkey) |].
  split; [exact (NoKeyFacts.decryptFile_no_key P this Hkey) |].
  split; [exact (NoKeyFacts.decryptBufferFromFile_no_key P this Hkey) |].
  split; [exact (NoKeyFacts.decryptJSONFromFile_no_key P this Hkey) |].
  split; [exact (NoKeyFacts.loadJSONFromFile_no_key P this Hkey) |].
  split; [exact (NoKeyFacts.saveBufferToFile_no_key P this Hkey) |].
  split; [exact (NoKeyFacts.saveJSONToFile_no_key P this Hkey) |].
  intros w path. unfold caught_without_key. split.
  - now intros [content ->].
  - now intros ->.
Qed.

Lemma C5_no_key_material_witness :
  TopSecret.decryptEnvFromFile Reference.platform TopSecret.constructor
    (str "/app/.env.enc") Reference.empty_world
  = (Throw KeyNotSet, Reference.empty_world)
  /\ TopSecret.encryptFile Reference.platform TopSecret.constructor Reference.iv0
       (str "/app/.env") (str "/app/.env.enc")
       (mkWorld {[ str "/app/.env" := str "A=1" ]} ∅ [])
     = (Throw (Error (str "Failed to encrypt file.")),
        mkWorld {[ str "/app/.env" := str "A=1" ]} ∅
          [ConsoleError (str "Failed to encrypt file:") KeyNotSet])
  /\ TopSecret.encryptFile Reference.platform TopSecret.constructor Reference.iv0
       (str "/app/.env") (str "/app/.env.enc") Reference.empty_world
     = (Throw (Error (str "Failed to encrypt file.")),
        mkWorld ∅ ∅
          [ConsoleError (str "Failed to encrypt file:")
             (NodeError (ENOENT (str "/app/.env")))]).
Proof.
  pose proof (C5_no_key_material Reference.platform TopSecret.constructor eq_refl)
    as (_ & _ & _ & _ & _ & Henv & Hfile & _).
  split; [apply Henv |]. split; rewrite Hfile; vm_compute; reflexivity.
Defined.

(** ** loadEncryptKey *)

Module KeyFileFacts.



Lemma exists_false (w : World) path :
  fs w !! path = None -> bool_decide (is_Some (fs w !! path)) = false.
Proof. intros ->. apply bool_decide_eq_false_2. intros [? [=]]. Qed.










End KeyFileFacts.



(** ** Calls that only write to the console *)

Module ConsoleOnly.

Lemma co_ret {A} (a : A) : console_only (ret a).
Proof. intros f v. exists (Ok a), []. intros c. now rewrite app_nil_r. Qed.

Lemma co_throw {A} e : console_only (@throw A e).
Proof. intros f v. exists (Throw e), []. intros c. now rewrite app_nil_r. Qed.

Lemma co_lift {A} (r : result A) : console_only (lift r).
Proof. intros f v. exists r, []. intros c. unfold lift. now rewrite app_nil_r. Qed.

Lemma co_emit e : console_only (emit e).
Proof. intros f v. exists (Ok tt), [e]. reflexivity. Qed.

Lemma co_existsSync path : console_only (existsSync path).
Proof.
  intros f v. exists (Ok (bool_decide (is_Some (f !! path)))), [].
  intros c. unfold existsSync. simpl. now rewrite app_nil_r.
Qed.

Lemma co_readFileSync path : console_only (readFileSync path).
Proof.
  intros f v. unfold readFileSync. simpl.
  destruct (f !! path) as [b |]; eexists _, []; intros c; now rewrite app_nil_r.
Qed.

Lemma co_bind {A B} (m : M A) (k : A -> M B) :
  console_only m -> (forall a, console_only (k a)) -> console_only (bind m k).
Proof.
  intros Hm Hk f v. destruct (Hm f v) as (r & evs & Hr).
  destruct r as [a | e].
  - destruct (Hk a f v) as (r' & evs' & Hr').
    exists r', (evs ++ evs'). intros c. unfold bind.
    now rewrite Hr, Hr', app_assoc.
  - exists (Throw e), evs. intros c. unfold bind. now rewrite Hr.
Qed.

Lemma co_try_catch {A} (m : M A) (h : error -> M A) :
  console_only m -> (forall e, console_only (h e)) -> console_only (try_catch m h).
Proof.
  intros Hm Hh f v. destruct (Hm f v) as (r & evs & Hr).
  destruct r as [a | e].
  - exists (Ok a), evs. intros c. unfold try_catch. now rewrite Hr.
  - destruct (Hh e f v) as (r' & evs' & Hr').
    exists r', (evs ++ evs'). intros c. unfold try_catch.
    now rewrite Hr, Hr', app_assoc.
Qed.

Lemma co_if {A} (b : bool) (m1 m2 : M A) :
  console_only m1 -> console_only m2 -> console_only (if b then m1 else m2).
Proof. now destruct b. Qed.

(** What a console-only call does in any world follows from what it does
    on an empty console. *)
Lemma co_run {A} (m : M A) (w : World) :
  console_only m ->
  m w = (fst (m (mkWorld (fs w) (env w) [])),
         mkWorld (fs w) (env w)
           (console w ++ console (snd (m (mkWorld (fs w) (env w) []))))).
Proof.
  intros Hm. destruct w as [f v c]. simpl.
  destruct (Hm f v) as (r & evs & Hr). now rewrite (Hr c), (Hr []).
Qed.

Lemma co_decryptBufferFromFile P this filename :
  console_only (TopSecret.decryptBufferFromFile P this filename).
Proof.
  apply co_try_catch.
  - apply co_bind; [apply co_readFileSync | intros; apply co_lift].
  - intros e. apply co_bind; [apply co_emit | intros; apply co_throw].
Qed.

Lemma co_loadEnvFile P filename encryptKey schema opts :
  console_only (loadEnvFile P filename encryptKey schema opts).
Proof.
  unfold loadEnvFile.
  apply co_bind; [apply co_emit | intros _].
  apply co_bind; [apply co_emit | intros _].
  apply co_bind; [apply co_existsSync | intros found].
  apply co_if; [apply co_throw |].
  apply co_bind.
  { apply co_if.
    - apply co_bind; [apply co_readFileSync | intros; apply co_ret].
    - apply co_bind; [apply co_lift | intros ts].
      apply co_try_catch; [apply co_decryptBufferFromFile | intros e].
      apply co_bind; [apply co_emit | intros; apply co_throw]. }
  intros raw. apply co_bind.
  { destruct schema as [validate |]; [| apply co_ret].
    destruct (validate _) as [result errors].
    apply co_if; [apply co_throw | apply co_ret]. }
  intros validated. apply co_bind; [| intros; apply co_ret].
  apply co_if; [| apply co_ret].
  apply co_bind; [apply co_emit | intros _].
  apply co_bind; [apply co_lift | intros es].
  intros f v. eexists (Ok tt), _. intros c. reflexivity.
Qed.

End ConsoleOnly.

(** ** loadEnvFile and loadEnvFiles *)

Module LoaderFacts.

Import ConsoleOnly.

Section Loader.

Context (P : Platform) (encryptKey : option jsstring) (schema : option validator)
  (opts : options).

Let outcome := load_outcome P encryptKey schema opts.
Let trace := load_trace P encryptKey schema opts.

Lemma loadEnvFile_run w file :
  loadEnvFile P file encryptKey schema opts w
  = (outcome w file, mkWorld (fs w) (env w) (console w ++ trace w file)).
Proof. apply co_run, co_loadEnvFile. Qed.

(** A config that [loadEnvFile] returns is a read-only copy. *)
Lemma loadEnvFile_returns_copy w file config w' :
  loadEnvFile P file encryptKey schema opts w = (Ok config, w') ->
  exists validated, config = createReadOnlyObject validated.
Proof.
  unfold loadEnvFile, bind.
  repeat match goal with
         | |- context [let (_, _) := ?m ?x in _] => destruct (m x) as [[?|?] ?]
         | |- context [if ?b then _ else _] => destruct b
         end;
    try discriminate; unfold ret; intros [= <- <-]; eauto.
Qed.

Lemma load_each_ok files : forall configs configs0 w,
  Forall2 (fun f c => outcome w f = Ok c) files configs ->
  load_each P files encryptKey schema opts configs0 w
  = (Ok (configs0 ++ configs),
     mkWorld (fs w) (env w) (console w ++ flat_map (trace w) files)).
Proof.
  induction files as [| file rest IH]; intros configs configs0 w Hall.
  - inversion Hall; subst. destruct w. simpl. unfold ret. now rewrite !app_nil_r.
  - inversion Hall as [| ? c ? cs Hc Hrest]; subst.
    cbn [load_each]. unfold bind at 1, try_catch. rewrite loadEnvFile_run, Hc.
    rewrite (IH cs) by exact Hrest. simpl.
    now rewrite <- !app_assoc.
Qed.

Lemma load_each_first_failure pre : forall file post configs e configs0 w,
  Forall2 (fun f c => outcome w f = Ok c) pre configs ->
  outcome w file = Throw e ->
  load_each P (pre ++ file :: post) encryptKey schema opts configs0 w
  = (Throw e,
     mkWorld (fs w) (env w)
       (console w ++ flat_map (trace w) pre ++ trace w file ++ error_lines P file e)).
Proof.
  induction pre as [| f rest IH]; intros file post configs e configs0 w Hall He.
  - cbn [app load_each]. unfold bind at 1, try_catch.
    rewrite loadEnvFile_run, He. simpl. now rewrite <- !app_assoc.
  - inversion Hall as [| ? c ? cs Hc Hrest]; subst.
    cbn [app load_each]. unfold bind at 1, try_catch. rewrite loadEnvFile_run, Hc.
    rewrite (IH file post cs e) by assumption. simpl.
    now rewrite <- !app_assoc.
Qed.

(** [loadEnvFiles] up to its loop. *)
Lemma loadEnvFiles_unfold filemask w :
  loadEnvFiles P filemask encryptKey schema opts w
  = let files := glob_sync P filemask (fs w) in
    let w0 := mkWorld (fs w) (env w) (console w ++ debug_lines P filemask files) in
    if (length files =? 0)%nat
    then (Throw (NoFilesMatched filemask),
          mkWorld (fs w) (env w)
            (console w0 ++ [Debug (message P (NoFilesMatched filemask))]))
    else load_each P files encryptKey schema opts [] w0.
Proof.
  unfold loadEnvFiles, debug_lines, bind. destruct w as [f v c].
  destruct (isDebugging P); simpl.
  - rewrite <- app_assoc. simpl. now destruct (length _ =? 0)%nat.
  - rewrite app_nil_r. now destruct (length _ =? 0)%nat.
Qed.

Lemma loadEnvFiles_no_file filemask w :
  glob_sync P filemask (fs w) = [] ->
  fst (loadEnvFiles P filemask encryptKey schema opts w)
  = Throw (NoFilesMatched filemask).
Proof. intros H. rewrite loadEnvFiles_unfold, H. reflexivity. Qed.

Lemma loadEnvFiles_first_failure filemask w pre file post configs e :
  glob_sync P filemask (fs w) = pre ++ file :: post ->
  Forall2 (fun f c => outcome w f = Ok c) pre configs ->
  outcome w file = Throw e ->
  loadEnvFiles P filemask encryptKey schema opts w
  = (Throw e,
     mkWorld (fs w) (env w)
       (console w ++ debug_lines P filemask (pre ++ file :: post)
        ++ flat_map (trace w) pre ++ trace w file ++ error_lines P file e)).
Proof.
  intros Hglob Hpre He. rewrite loadEnvFiles_unfold, Hglob. cbv zeta.
  replace (length (pre ++ file :: post) =? 0)%nat with false
    by (symmetry; apply Nat.eqb_neq; rewrite length_app; simpl; lia).
  rewrite (load_each_first_failure pre file post configs e) by assumption.
  simpl. now rewrite <- !app_assoc.
Qed.

Lemma loadEnvFiles_all_ok filemask w configs :
  glob_sync P filemask (fs w) <> [] ->
  Forall2 (fun f c => outcome w f = Ok c) (glob_sync P filemask (fs w)) configs ->
  loadEnvFiles P filemask encryptKey schema opts w
  = (Ok configs,
     mkWorld (fs w) (env w)
       (console w ++ debug_lines P filemask (glob_sync P filemask (fs w))
        ++ flat_map (trace w) (glob_sync P filemask (fs w))))
  /\ Forall (fun c => exists validated, c = createReadOnlyObject validated) configs.
Proof.
  intros Hne Hall. rewrite loadEnvFiles_unfold. cbv zeta.
  destruct (glob_sync P filemask (fs w)) as [| f files] eqn:Hglob; [congruence |].
  cbn [length Nat.eqb].
  rewrite (load_each_ok (f :: files) configs) by exact Hall. split.
  - cbn [fs env console app]. now rewrite <- app_assoc.
  - clear Hne Hglob.
    induction Hall as [| f' c fs' cs Hc _ IH]; constructor; [| exact IH].
    unfold outcome, load_outcome in Hc.
    destruct (loadEnvFile P f' encryptKey schema opts _) as [r w'] eqn:E.
    simpl in Hc. subst r. exact (loadEnvFile_returns_copy _ _ _ _ E).
Qed.

End Loader.

(** The option [suppressErrors] changes nothing. *)
Lemma loadEnvFile_ignores_suppressErrors P file encryptKey schema opts b :
  loadEnvFile P file encryptKey schema (mkOptions (verbose opts) b)
  = loadEnvFile P file encryptKey schema opts.
Proof. reflexivity. Qed.

Lemma load_each_ignores_suppressErrors P encryptKey schema opts b files :
  forall configs w,
    load_each P files encryptKey schema (mkOptions (verbose opts) b) configs w
    = load_each P files encryptKey schema opts configs w.
Proof.
  induction files as [| file rest IH]; intros configs w; [reflexivity |].
  cbn [load_each]. unfold bind, try_catch.
  rewrite loadEnvFile_ignores_suppressErrors.
  destruct (loadEnvFile P file encryptKey schema opts w) as [[c | e] w'];
    [apply IH | reflexivity].
Qed.

Lemma loadEnvFiles_ignores_suppressErrors P filemask encryptKey schema opts b w :
  loadEnvFiles P filemask encryptKey schema (mkOptions (verbose opts) b) w
  = loadEnvFiles P filemask encryptKey schema opts w.
Proof.
  rewrite !loadEnvFiles_unfold. cbv zeta.
  destruct (length _ =? 0)%nat; [reflexivity |].
  apply load_each_ignores_suppressErrors.
Qed.

End LoaderFacts.

(** C7: [loadEnvFiles] throws the no-match error when the pattern expands
    to no file.  Otherwise it loads the files in the order of the
    expansion: when the files before [file] load and [file] fails with [e],
    the call throws [e], returns no config, and the console holds the lines
    of the files up to [file] and of the [catch], none of a later file;
    when every file loads, the call returns their configs in that order and
    changes no file and no variable.  Each config is a copy made by
    [createReadOnlyObject]: none of the properties it holds, at any depth,
    can be assigned or deleted.  But the copy is not immutable: on the one
    file [A=1] the call returns a snapshot that takes the new field [B]
    when it is assigned. *)
Theorem C7_loadEnvFiles P filemask encryptKey schema opts w :
  let files := glob_sync P filemask (fs w) in
  let outcome := load_outcome P encryptKey schema opts w in
  let trace := load_trace P encryptKey schema opts w in
  (files = [] ->
   fst (loadEnvFiles P filemask encryptKey schema opts w)
   = Throw (NoFilesMatched filemask))
  /\ (forall pre file post configs e,
        files = pre ++ file :: post ->
        Forall2 (fun f c => outcome f = Ok c) pre configs ->
        outcome file = Throw e ->
        loadEnvFiles P filemask encryptKey schema opts w
        = (Throw e,
           mkWorld (fs w) (env w)
             (console w ++ debug_lines P filemask files
              ++ flat_map trace pre ++ trace file ++ error_lines P file e)))
  /\ (forall configs,
        files <> [] ->
        Forall2 (fun f c => outcome f = Ok c) files configs ->
        loadEnvFiles P filemask encryptKey schema opts w
        = (Ok configs,
           mkWorld (fs w) (env w)
             (console w ++ debug_lines P filemask files ++ flat_map trace files))
        /\ Forall
             (fun c =>
                (exists validated, c = createReadOnlyObject validated)
                /\ forall path k v,
                     is_Some (Mutate.get (path ++ [k]) c) ->
                     Mutate.at_path path (Mutate.assign k v) c = None
                     /\ Mutate.at_path path (Mutate.delete k) c = None)
             configs)
  /\ (let snapshot := VObject false true [(str "A", (num 1, read_only))] in
      fst (loadEnvFiles Reference.platform (str "*.env") None None
             (mkOptions false false) Run.one_file)
      = Ok [snapshot]
      /\ Mutate.assign (str "B") (num 2) snapshot
         = Some (VObject false true
                   [(str "A", (num 1, read_only)); (str "B", (num 2, plain))])).
Proof.
  cbv zeta. split; [apply LoaderFacts.loadEnvFiles_no_file |].
  split; [| split].
  - intros pre file post configs e Hglob Hpre He. rewrite Hglob.
    now apply (LoaderFacts.loadEnvFiles_first_failure P encryptKey schema opts
                 filemask w pre file post configs e).
  - intros configs Hne Hall.
    destruct (LoaderFacts.loadEnvFiles_all_ok P encryptKey schema opts filemask w
                configs Hne Hall) as [Hrun Hcopies].
    split; [exact Hrun |].
    rewrite Forall_forall in Hcopies |- *. intros c Hc.
    destruct (Hcopies c Hc) as [validated ->].
    split; [now exists validated |].
    intros path k v. apply copy_rejects_assign_delete.
  - split; vm_compute; reflexivity.
Qed.

(** C10: [loadEnvFiles] never reads [suppressErrors]: the call with the
    option set either way does the same, and with the option set the first
    file that fails still makes the call throw that file's error. *)
Theorem C10_suppressErrors_has_no_effect P filemask encryptKey schema opts w :
  (forall b,
      loadEnvFiles P filemask encryptKey schema (mkOptions (verbose opts) b) w
      = loadEnvFiles P filemask encryptKey schema opts w)
  /\ (forall pre file post configs e,
        suppressErrors opts = true ->
        glob_sync P filemask (fs w) = pre ++ file :: post ->
        Forall2 (fun f c => load_outcome P encryptKey schema opts w f = Ok c)
          pre configs ->
        load_outcome P encryptKey schema opts w file = Throw e ->
        fst (loadEnvFiles P filemask encryptKey schema opts w) = Throw e).
Proof.
  split.
  - intros b. apply LoaderFacts.loadEnvFiles_ignores_suppressErrors.
  - intros pre file post configs e _ Hglob Hpre He.
    now rewrite (LoaderFacts.loadEnvFiles_first_failure P encryptKey schema opts
                   filemask w pre file post configs e Hglob Hpre He).
Qed.

(** A run on three files where the second one cannot be decrypted: the
    call throws the error of that file, and the console has no line of the
    third. *)
Example loadEnvFiles_second_file_fails :
  glob_sync Reference.platform (str "*.env") (fs Run.three_files)
  = [str "/app/c.env"; str "/app/b.env"; str "/app/a.env"]
  /\ fst (loadEnvFiles Reference.platform (str "*.env") (Some Reference.key_hex) None
            (mkOptions false true) Run.three_files)
     = Throw (Error (str "Failed to decrypt file. (/app/b.env)"))
  /\ console (snd (loadEnvFiles Reference.platform (str "*.env")
                     (Some Reference.key_hex) None (mkOptions false true)
                     Run.three_files))
     = [Debug (str "loadEnvFile: /app/c.env");
        Debug (str "encryptKey " ++ Reference.key_hex);
        Debug (str "loadEnvFile: /app/b.env");
        Debug (str "encryptKey " ++ Reference.key_hex);
        ConsoleError (str "Failed to load buffer from file:") (NodeError InvalidIV);
        Debug (str "Failed to decrypt file. (/app/b.env)");
        Debug (dq "Error loading config file '/app/b.env': Failed to decrypt file. (/app/b.env)");
        LogError (dq "Error loading config file '/app/b.env': Failed to decrypt file. (/app/b.env)")].
Proof. repeat split; vm_compute; reflexivity. Qed.

(** * Further properties of the code *)

(** ** The read-only copy reads like the original *)

Section ReadOnlyContent.

Let each := fix each (ps : properties) : properties :=
  match ps with
  | [] => []
  | (key, (v, a)) :: r =>
      if enumerable a
      then (key, (createReadOnlyObject v, read_only)) :: each r
      else each r
  end.

Let all := fix each (ps : properties) : bool :=
  match ps with
  | [] => true
  | (_, (v', a)) :: r => enumerable a && all_enumerable v' && each r
  end.

Lemma copy_lookup (ps : properties) k :
  all ps = true ->
  Obj.lookup k (each ps)
  = match Obj.lookup k ps with
    | Some (v, _) => Some (createReadOnlyObject v, read_only)
    | None => None
    end.
Proof.
  induction ps as [| [key [v a]] r IH]; simpl; [reflexivity |].
  intros H. apply andb_true_iff in H. destruct H as [H Hr].
  apply andb_true_iff in H. destruct H as [Ha Hv]. rewrite Ha. simpl.
  destruct (JsString.eqb k key); [reflexivity | now apply IH].
Qed.

Lemma all_lookup (ps : properties) k v a :
  all ps = true -> Obj.lookup k ps = Some (v, a) -> all_enumerable v = true.
Proof.
  induction ps as [| [key [v' a']] r IH]; simpl; [discriminate |].
  intros H. apply andb_true_iff in H. destruct H as [H Hr].
  apply andb_true_iff in H. destruct H as [Ha Hv].
  destruct (JsString.eqb k key); [intros [= <- <-]; exact Hv | now apply IH].
Qed.

(** X2: Reading a path of the copy gives the copy of what the original holds
    there, and fails where the original has nothing. *)
Lemma createReadOnlyObject_get path : forall data,
  all_enumerable data = true ->
  Mutate.get path (createReadOnlyObject data)
  = createReadOnlyObject <$> Mutate.get path data.
Proof.
  induction path as [| k rest IH]; intros data Hall; [reflexivity |].
  destruct data as [| | | | | isArray ext ps]; try reflexivity.
  simpl in *. fold each. fold all in Hall. rewrite (copy_lookup ps k Hall).
  destruct (Obj.lookup k ps) as [[v a] |] eqn:E; [| reflexivity].
  apply IH. exact (all_lookup ps k v a Hall E).
Qed.

End ReadOnlyContent.

Lemma createReadOnlyObject_get_witness :
  Mutate.get [str "DATA"; str "a"]
    (createReadOnlyObject (VObject false true (parse_lines (dq "DATA={'a':1}"))))
  = createReadOnlyObject
    <$> Mutate.get [str "DATA"; str "a"]
          (VObject false true (parse_lines (dq "DATA={'a':1}"))).
Proof.
  apply (createReadOnlyObject_get [str "DATA"; str "a"]
           (VObject false true (parse_lines (dq "DATA={'a':1}")))).
  reflexivity.
Defined.

Lemma createReadOnlyObject_rejects_change_witness :
  Mutate.at_path [str "DATA"] (Mutate.assign (str "a") (num 2))
    (createReadOnlyObject (VObject false true (parse_lines (dq "DATA={'a':1}"))))
  = None
  /\ Mutate.at_path [str "DATA"] (Mutate.delete (str "a"))
       (createReadOnlyObject (VObject false true (parse_lines (dq "DATA={'a':1}"))))
     = None
  /\ Mutate.at_path [str "DATA"]
       (Mutate.define (str "a")
          (Mutate.Descriptor (Mutate.Value (num 2)) None None None))
       (createReadOnlyObject (VObject false true (parse_lines (dq "DATA={'a':1}"))))
     = None.
Proof.
  destruct (createReadOnlyObject_rejects_change
              (VObject false true (parse_lines (dq "DATA={'a':1}")))
              [str "DATA"] (str "a") (num 1) (num 2)
              (Mutate.Descriptor (Mutate.Value (num 2)) None None None) eq_refl)
    as (Ha & Hd & _ & Hdefine).
  split; [exact Ha |]. split; [exact Hd |]. exact (Hdefine eq_refl).
Defined.

(** The redefinitions of a field of a snapshot, one by one: another
    value, a writable field, a field that can be deleted are refused; the
    same value with the same attributes, or no field at all, is taken and
    changes nothing. *)
Example define_on_snapshot :
  let snapshot := createReadOnlyObject (Obj.literal [(str "A", num 1)]) in
  Mutate.define (str "A") (Mutate.Descriptor (Mutate.Value (num 2)) None None None)
    snapshot = None
  /\ Mutate.define (str "A") (Mutate.Descriptor Mutate.NoValue (Some true) None None)
       snapshot = None
  /\ Mutate.define (str "A") (Mutate.Descriptor Mutate.NoValue None None (Some true))
       snapshot = None
  /\ Mutate.define (str "A") (Mutate.Descriptor Mutate.NoValue None (Some false) None)
       snapshot = None
  /\ Mutate.define (str "A")
       (Mutate.Descriptor (Mutate.Value (num 1)) (Some false) (Some true) (Some false))
       snapshot = Some snapshot
  /\ Mutate.define (str "A") (Mutate.Descriptor Mutate.NoValue None None None)
       snapshot = Some snapshot
  /\ Mutate.define (str "B") (Mutate.Descriptor (Mutate.Value (num 2)) None None None)
       snapshot
     = Some (VObject false true
               [(str "A", (num 1, read_only));
                (str "B", (num 2, Attrs false false false))]).
Proof. repeat split; reflexivity. Qed.

(** ** The line parser: one entry per key, the last line wins *)

Module ParserFacts.

Import ObjFacts.

(** A line leaves [rawValues] alone or makes its assignment. *)
Lemma parse_line_entry rawValues line :
  parse_line rawValues line
  = match line_entry line with
    | Some (key, v) => Obj.put key v rawValues
    | None => rawValues
    end.
Proof.
  unfold line_entry, parse_line.
  destruct (negb (JsString.truthy (JsString.trim line))
            || JsString.startsWith (JsString.trim line) (str "#")); [reflexivity |].
  destruct (JsString.split 61 (JsString.trim line)) as [| name rest]; [reflexivity |].
  destruct (negb (JsString.truthy name)); reflexivity.
Qed.

Lemma fold_parse_line lines : forall rawValues,
  fold_left parse_line lines rawValues
  = fold_left assign_entry (omap line_entry lines) rawValues.
Proof.
  induction lines as [| line rest IH]; intros rawValues; [reflexivity |].
  simpl. rewrite IH, parse_line_entry.
  destruct (line_entry line) as [[key v] |]; reflexivity.
Qed.

Lemma fold_assign_NoDup entries : forall rawValues,
  NoDup (map fst (Obj.own rawValues)) ->
  NoDup (map fst (Obj.own (fold_left assign_entry entries rawValues))).
Proof.
  induction entries as [| e rest IH]; intros rawValues H; [exact H |].
  simpl. apply IH. now apply put_NoDup.
Qed.

Lemma step_keeps_found key entries : forall v,
  fold_left (last_entry_step key) entries (Some v) <> None.
Proof.
  induction entries as [| e rest IH]; intros v; simpl; [congruence |].
  unfold last_entry_step at 2. destruct (JsString.eqb key (fst e)); apply IH.
Qed.

Lemma fold_assign_lookup key entries : forall rawValues found,
  key <> Obj.proto_name ->
  (forall v, found = Some v -> Obj.lookup key (Obj.own rawValues) = Some (v, plain)) ->
  Obj.lookup key (Obj.own (fold_left assign_entry entries rawValues))
  = match fold_left (last_entry_step key) entries found with
    | Some v => Some (v, plain)
    | None => Obj.lookup key (Obj.own rawValues)
    end.
Proof.
  induction entries as [| e rest IH]; intros rawValues found Hkey Hfound; simpl.
  - destruct found as [v |]; [now apply Hfound | reflexivity].
  - rewrite (IH _ (last_entry_step key found e) Hkey).
    + destruct (fold_left (last_entry_step key) rest (last_entry_step key found e))
        eqn:E; [reflexivity |].
      unfold last_entry_step in E. destruct (JsString.eqb key (fst e)) eqn:K.
      * now apply step_keeps_found in E.
      * unfold assign_entry. apply lookup_put_other.
        intros ->. now rewrite eqb_refl in K.
    + intros v. unfold last_entry_step, assign_entry.
      destruct (JsString.eqb key (fst e)) eqn:K.
      * intros [= <-]. apply eqb_eq in K. subst key. now apply lookup_put_key.
      * intros Hv. rewrite lookup_put_other; [now apply Hfound |].
        intros ->. now rewrite eqb_refl in K.
Qed.

(** As long as the lines give [__proto__] no object, [rawValues] keeps the
    prototype of [{}] and owns no property of that name. *)
Lemma fold_assign_proto entries : forall rawValues,
  Forall (fun e => fst e = Obj.proto_name -> replaces_prototype (snd e) = false)
    entries ->
  Obj.proto rawValues = Obj.ObjectPrototype ->
  Obj.lookup Obj.proto_name (Obj.own rawValues) = None ->
  Obj.proto (fold_left assign_entry entries rawValues) = Obj.ObjectPrototype
  /\ Obj.lookup Obj.proto_name (Obj.own (fold_left assign_entry entries rawValues))
     = None.
Proof.
  induction entries as [| [k v] rest IH]; intros rawValues Hall Hp Ho; [auto |].
  inversion Hall as [| ? ? He Hrest]; subst. simpl in He |- *.
  unfold assign_entry at 2 4. cbn [fst snd].
  destruct (JsString.eqb k Obj.proto_name) eqn:K.
  - apply eqb_eq in K. subst k.
    rewrite (put_proto_primitive v rawValues Hp Ho (He eq_refl)). now apply IH.
  - apply IH; [exact Hrest | |].
    + unfold Obj.put. now rewrite K.
    + rewrite lookup_put_other; [exact Ho |].
      intros <-. now rewrite eqb_refl in K.
Qed.

(** X3: the own keys of the raw map of a text are distinct; under every
    key but [__proto__] the map holds the value of the last line that
    assigns the key, and nothing when no line does; and it owns no
    property [__proto__] as long as no line gives that name an object:
    such an assignment goes to the accessor of [Object.prototype]. *)
Theorem parse_lines_last_line_wins raw key :
  NoDup (map fst (parse_lines raw))
  /\ (key <> Obj.proto_name ->
      Obj.lookup key (parse_lines raw)
      = (fun v => (v, plain))
        <$> last_entry key (omap line_entry (JsString.split_lines raw)))
  /\ (Forall (fun e => fst e = Obj.proto_name -> replaces_prototype (snd e) = false)
        (omap line_entry (JsString.split_lines raw)) ->
      Obj.lookup Obj.proto_name (parse_lines raw) = None).
Proof.
  unfold parse_lines, parse_state. rewrite fold_parse_line. split; [| split].
  - apply fold_assign_NoDup. constructor.
  - intros Hkey. rewrite (fold_assign_lookup key _ Obj.fresh None Hkey) by discriminate.
    unfold last_entry.
    now destruct (fold_left (last_entry_step key) _ None).
  - intros Hall. now apply (fold_assign_proto _ Obj.fresh Hall).
Qed.

(** The keys of a text in the order [Object.keys] lists them, and two
    lines that name [__proto__]: the number is dropped, the object
    becomes the prototype, and neither makes a property. *)
Example parse_lines_keys :
  map fst (parse_lines (str "b=1" ++ [10%N] ++ str "10=x" ++ [10%N] ++ str "2=y"
                        ++ [10%N] ++ str "a=3" ++ [10%N] ++ str "02=z"))
  = [str "2"; str "10"; str "b"; str "a"; str "02"]
  /\ parse_state (str "__proto__=5" ++ [10%N] ++ dq "__proto__={'x':1}"
                  ++ [10%N] ++ str "A=1")
     = Obj.mkObject [(str "A", (num 1, plain))]
         (Obj.Proto (Obj.literal [(str "x", num 1)])).
Proof. split; reflexivity. Qed.

End ParserFacts.

(** ** Keys as hex text *)

Module HexFacts.

Local Open Scope N_scope.

Lemma hex_digit_char d : d < 16 -> Json.hex_digit (Hex.digit_char d) = Some d.
Proof.
  intros H. unfold Hex.digit_char, Json.hex_digit.
  destruct (N.ltb_spec d 10) as [L | L].
  - replace ((0x30 <=? 0x30 + d) && (0x30 + d <=? 0x39))%bool with true.
    + f_equal. lia.
    + symmetry. apply andb_true_iff. split; apply N.leb_le; lia.
  - replace ((0x30 <=? 0x61 + (d - 10)) && (0x61 + (d - 10) <=? 0x39))%bool with false.
    + replace ((0x61 <=? 0x61 + (d - 10)) && (0x61 + (d - 10) <=? 0x66))%bool with true.
      * f_equal. lia.
      * symmetry. apply andb_true_iff. split; apply N.leb_le; lia.
    + symmetry. apply andb_false_iff. right. apply N.leb_gt. lia.
Qed.

Lemma encode_length (b : bytes) : length (Hex.encode b) = (2 * length b)%nat.
Proof. induction b as [| x r IH]; simpl; [reflexivity | rewrite IH; lia]. Qed.

(** The bytes of a buffer are read back from its hex text. *)
Lemma hex_decode_encode (b : bytes) :
  Forall (fun x => x < 256) b -> Hex.decode (Hex.encode b) = b.
Proof.
  induction 1 as [| x r Hx _ IH]; [reflexivity |].
  cbn [Hex.encode Hex.decode].
  pose proof (N.Div0.div_mod x 16) as Hdm.
  pose proof (N.mod_lt x 16 ltac:(lia)) as Hlt.
  assert (Hq : x / 16 < 16) by (apply N.Div0.div_lt_upper_bound; lia).
  rewrite (hex_digit_char _ Hq), (hex_digit_char _ Hlt), IH.
  f_equal. lia.
Qed.

End HexFacts.

Module KeyTextFacts.

Import TopSecret.

(** X5: The text that [generateKey] returns installs the same key material
    when given to [set key], on any instance. *)
Theorem set_key_of_generated_key this other random :
  length random = 32 -> Forall (fun x => (x < 256)%N) random ->
  set_key other (snd (generateKey this random))
  = Ok (mkTopSecret (Some random) (_password other)).
Proof.
  intros Hlen Hbytes. unfold generateKey, set_key. cbn [snd].
  rewrite HexFacts.encode_length, Hlen. cbn [Nat.mul Nat.add Nat.eqb].
  rewrite (HexFacts.hex_decode_encode _ Hbytes).
  destruct random; [discriminate | reflexivity].
Qed.

Lemma set_key_of_generated_key_witness :
  set_key (mkTopSecret None (Some (str "hunter2")))
    (snd (generateKey constructor (Hex.decode Reference.key_hex)))
  = Ok (mkTopSecret (Some (Hex.decode Reference.key_hex)) (Some (str "hunter2"))).
Proof.
  apply (set_key_of_generated_key constructor (mkTopSecret None (Some (str "hunter2")))
           (Hex.decode Reference.key_hex)).
  - reflexivity.
  - repeat constructor.
Defined.

(** X6: [set key] decides on the length of the text alone: any other length
    than 64 is refused and the instance stays as it was; 64 hex digits
    install 32 bytes, with which encryption goes through. *)
Theorem set_key_by_length P this v :
  (length v <> 64 -> set_key this v = Throw InvalidKeyLength_)
  /\ (length v = 64 -> Hex.is_hex v = true ->
      exists key,
        set_key this v = Ok (mkTopSecret (Some key) (_password this))
        /\ length key = 32
        /\ forall iv buffer,
             length iv = 16 ->
             encryptBuffer P (mkTopSecret (Some key) (_password this)) iv buffer
             = Ok (iv ++ aes_256_cbc_encrypt P key iv buffer)).
Proof.
  split.
  - intros H. unfold set_key. apply Nat.eqb_neq in H. rewrite H.
    now rewrite andb_false_r.
  - intros Hlen Hhex. exists (Hex.decode v).
    assert (Hk : length (Hex.decode v) = 32)
      by (apply KeyFacts.hex_decode_length; [lia | exact Hhex]).
    split; [| split; [exact Hk |]].
    + unfold set_key. rewrite Hlen. destruct v; [discriminate | reflexivity].
    + intros iv buffer Hiv. unfold encryptBuffer. cbn [_key].
      now rewrite (TopSecretFacts.check_key_iv_ok _ _ Hk Hiv).
Qed.

(** X7: An envelope shorter than the IV is refused before any decryption. *)
Theorem decryptBuffer_short_envelope P this key buffer :
  _key this = Some key -> length key = 32 -> length buffer < 16 ->
  decryptBuffer P this buffer = Throw (NodeError InvalidIV).
Proof.
  intros Hkey Hk Hshort. unfold decryptBuffer, check_key_iv. rewrite Hkey, Hk.
  cbn [Nat.eqb negb]. rewrite length_take.
  replace (16 `min` length buffer =? 16)%nat with false; [reflexivity |].
  symmetry. apply Nat.eqb_neq. lia.
Qed.

Lemma decryptBuffer_short_envelope_witness :
  decryptBuffer Reference.platform
    (mkTopSecret (Some (Hex.decode Reference.key_hex)) None) (str "oops")
  = Throw (NodeError InvalidIV).
Proof.
  apply (decryptBuffer_short_envelope Reference.platform _ (Hex.decode Reference.key_hex));
    [reflexivity | reflexivity | simpl; lia].
Defined.

End KeyTextFacts.

(** ** Files through the cipher *)

Module FileFacts.

Import TopSecret.

Section WithKey.

Context (P : Platform) (this : TopSecret) (key : bytes).
Context (Hinv : cipher_inverts P) (Hkey : _key this = Some key)
  (Hk : length key = 32).

Lemma encryptBuffer_ok iv buffer :
  length iv = 16 ->
  encryptBuffer P this iv buffer = Ok (iv ++ aes_256_cbc_encrypt P key iv buffer).
Proof using Hkey Hk.
  intros Hiv. unfold encryptBuffer.
  now rewrite Hkey, (TopSecretFacts.check_key_iv_ok _ _ Hk Hiv).
Qed.

Lemma decryptBuffer_envelope iv buffer :
  length iv = 16 ->
  decryptBuffer P this (iv ++ aes_256_cbc_encrypt P key iv buffer)
  = Ok (Utf8.decode buffer).
Proof using Hinv Hkey Hk.
  intros Hiv.
  pose proof (TopSecretFacts.round_trip_text P this key iv buffer Hinv Hkey Hk Hiv) as H.
  unfold round_trip in H. now rewrite (encryptBuffer_ok iv buffer Hiv) in H.
Qed.

(** X8: [encryptFile] and then [decryptFile] of its output: both succeed, the
    console stays silent, and the last file holds the text of the first,
    written in UTF-8; that is the first file itself when it is UTF-8. *)
Theorem decryptFile_of_encryptFile iv src enc out w content :
  length iv = 16 -> fs w !! src = Some content ->
  exists w1 w2,
    encryptFile P this iv src enc w = (Ok tt, w1)
    /\ decryptFile P this enc out w1 = (Ok tt, w2)
    /\ fs w2 !! out = Some (Utf8.encode (Utf8.decode content))
    /\ (Utf8.well_formed content = true -> fs w2 !! out = Some content)
    /\ env w2 = env w /\ console w2 = console w.
Proof using Hinv Hkey Hk.
  intros Hiv Hsrc.
  set (envelope := iv ++ aes_256_cbc_encrypt P key iv content).
  exists (mkWorld (<[enc := envelope]> (fs w)) (env w) (console w)).
  exists (mkWorld (<[out := Utf8.encode (Utf8.decode content)]>
                     (<[enc := envelope]> (fs w))) (env w) (console w)).
  split; [| split; [| split; [| split; [| split]]]]; try reflexivity.
  - unfold encryptFile, try_catch, bind, readFileSync, lift, writeFileSync.
    now rewrite Hsrc, (encryptBuffer_ok iv content Hiv).
  - unfold decryptFile, try_catch, bind, readFileSync, lift, writeFileSync.
    cbn [fs]. rewrite lookup_insert_eq.
    unfold envelope. now rewrite (decryptBuffer_envelope iv content Hiv).
  - cbn [fs]. apply lookup_insert_eq.
  - intros Hwf. cbn [fs]. rewrite lookup_insert_eq.
    now rewrite (Utf8Facts.encode_decode _ Hwf).
Qed.

(** X9: [decryptEnvFromFile] on an instance with key material sets
    variables only after the whole file is read and decrypted.  When the
    file is missing or [decryptBuffer] throws, it logs that error once,
    throws its own, and leaves every variable and every file as it was.
    When [decryptBuffer] returns a text, the call succeeds, logs nothing,
    writes no file, and the variables are those the lines of that text
    assign; for the envelope that [encryptBuffer] made of some bytes, the
    text is the decoding of those bytes.  (The text holds no NUL, so that
    the operating system stores each name and value whole.) *)
Theorem decryptEnvFromFile_all_or_nothing filename w :
  let failed e :=
    (Throw (Error (str "Failed to decrypt and load environment variables.")),
     logged w (str "Failed to decrypt and load environment variables:") e) in
  (fs w !! filename = None ->
   decryptEnvFromFile P this filename w = failed (NodeError (ENOENT filename)))
  /\ (forall buffer e,
        fs w !! filename = Some buffer -> decryptBuffer P this buffer = Throw e ->
        decryptEnvFromFile P this filename w = failed e)
  /\ (forall buffer text,
        fs w !! filename = Some buffer -> decryptBuffer P this buffer = Ok text ->
        0%N ∉ text ->
        decryptEnvFromFile P this filename w
        = (Ok tt, mkWorld (fs w) (assign_env_lines text (env w)) (console w)))
  /\ (forall iv content,
        length iv = 16 ->
        fs w !! filename = Some (iv ++ aes_256_cbc_encrypt P key iv content) ->
        0%N ∉ Utf8.decode content ->
        decryptEnvFromFile P this filename w
        = (Ok tt,
           mkWorld (fs w) (assign_env_lines (Utf8.decode content) (env w)) (console w))).
Proof using Hinv Hkey Hk.
  cbv zeta. unfold decryptEnvFromFile, logged. rewrite Hkey.
  unfold try_catch, bind, readFileSync, lift, emit, throw.
  split; [| split; [| split]].
  - now intros ->.
  - intros buffer e -> He. now rewrite He.
  - intros buffer text -> Ht _. now rewrite Ht.
  - intros iv content Hiv -> _. now rewrite (decryptBuffer_envelope iv content Hiv).
Qed.

End WithKey.

Lemma decryptFile_of_encryptFile_witness :
  exists w1 w2,
    encryptFile Reference.platform
      (mkTopSecret (Some (Hex.decode Reference.key_hex)) None) Reference.iv0
      (str "/app/.env") (str "/app/.env.enc")
      (mkWorld {[ str "/app/.env" := str "A=1" ]} ∅ []) = (Ok tt, w1)
    /\ decryptFile Reference.platform
         (mkTopSecret (Some (Hex.decode Reference.key_hex)) None)
         (str "/app/.env.enc") (str "/app/.env.out") w1 = (Ok tt, w2)
    /\ fs w2 !! str "/app/.env.out" = Some (Utf8.encode (Utf8.decode (str "A=1")))
    /\ (Utf8.well_formed (str "A=1") = true ->
        fs w2 !! str "/app/.env.out" = Some (str "A=1"))
    /\ env w2 = ∅ /\ console w2 = [].
Proof.
  apply (decryptFile_of_encryptFile Reference.platform
           (mkTopSecret (Some (Hex.decode Reference.key_hex)) None)
           (Hex.decode Reference.key_hex)
           ReferenceFacts.reference_cipher_inverts eq_refl eq_refl
           Reference.iv0 (str "/app/.env") (str "/app/.env.enc") (str "/app/.env.out")
           (mkWorld {[ str "/app/.env" := str "A=1" ]} ∅ []) (str "A=1")).
  - reflexivity.
  - vm_compute. reflexivity.
Defined.

Lemma decryptEnvFromFile_all_or_nothing_witness :
  TopSecret.decryptEnvFromFile Reference.platform
    (mkTopSecret (Some (Hex.decode Reference.key_hex)) None) (str "/app/.env.enc")
    (mkWorld {[ str "/app/.env.enc"
                := Reference.iv0
                   ++ Reference.encrypt (Hex.decode Reference.key_hex) Reference.iv0
                        (str "A=1" ++ [10%N] ++ str " =x" ++ [10%N] ++ str "B = 2") ]}
       {[ str "A" := str "0" ]} [])
  = (Ok tt,
     mkWorld {[ str "/app/.env.enc"
                := Reference.iv0
                   ++ Reference.encrypt (Hex.decode Reference.key_hex) Reference.iv0
                        (str "A=1" ++ [10%N] ++ str " =x" ++ [10%N] ++ str "B = 2") ]}
       (assign_env_lines
          (Utf8.decode (str "A=1" ++ [10%N] ++ str " =x" ++ [10%N] ++ str "B = 2"))
          {[ str "A" := str "0" ]}) []).
Proof.
  pose proof (decryptEnvFromFile_all_or_nothing Reference.platform
                (mkTopSecret (Some (Hex.decode Reference.key_hex)) None)
                (Hex.decode Reference.key_hex)
                ReferenceFacts.reference_cipher_inverts eq_refl eq_refl
                (str "/app/.env.enc")
                (mkWorld {[ str "/app/.env.enc"
                            := Reference.iv0
                               ++ Reference.encrypt (Hex.decode Reference.key_hex)
                                    Reference.iv0
                                    (str "A=1" ++ [10%N] ++ str " =x" ++ [10%N]
                                     ++ str "B = 2") ]}
                   {[ str "A" := str "0" ]} []))
    as (_ & _ & _ & H).
  apply (H Reference.iv0 (str "A=1" ++ [10%N] ++ str " =x" ++ [10%N] ++ str "B = 2")).
  - reflexivity.
  - vm_compute. reflexivity.
  - apply (bool_decide_unpack _). vm_compute. exact I.
Defined.

(** The variables of that run: [A] is overwritten, the line with a blank
    name sets nothing, [B] is new. *)
Example assign_env_lines_example :
  assign_env_lines (str "A=1" ++ [10%N] ++ str " =x" ++ [10%N] ++ str "B = 2")
    {[ str "A" := str "0" ]}
  = {[ str "A" := str "1"; str "B" := str "2" ]}.
Proof. vm_compute. reflexivity. Qed.

(** *** The lines [decryptEnvFromFile] skips *)



End FileFacts.

(** ** mergeIntoProcess.env *)

Module MergeFacts.

Section Merge.

Context (String_ : value -> jsstring).

Lemma env_assign_other (name v : jsstring) (vars : gmap jsstring jsstring) (k : jsstring) :
  k <> name -> env_assign name v vars !! k = vars !! k.
Proof.
  intros Hne. unfold env_assign. destruct (env_name_ok name); [| reflexivity].
  now apply lookup_insert_ne.
Qed.

Lemma env_assign_name (name v : jsstring) (vars : gmap jsstring jsstring) :
  env_name_ok name = true -> env_assign name v vars !! name = Some v.
Proof. intros H. unfold env_assign. rewrite H. apply lookup_insert_eq. Qed.

Lemma merged_lookup_other es : forall (vars : gmap jsstring jsstring) k,
  k ∉ map fst es -> merged String_ es vars !! k = vars !! k.
Proof.
  induction es as [| [k' v] rest IH]; intros vars k Hk; [reflexivity |].
  simpl. rewrite IH.
  - apply env_assign_other. intros ->. apply Hk. constructor.
  - intros Hin. apply Hk. now constructor.
Qed.

Lemma merged_lookup es : forall (vars : gmap jsstring jsstring) k v,
  NoDup (map fst es) -> (k, v) ∈ es -> env_name_ok k = true ->
  merged String_ es vars !! k = Some (String_ v).
Proof.
  induction es as [| [k' v'] rest IH]; intros vars k v Hnd Hin Hok; [inversion Hin |].
  simpl in *. apply NoDup_cons in Hnd. destruct Hnd as [Hk' Hnd].
  apply elem_of_cons in Hin. destruct Hin as [[= -> ->] | Hin].
  - rewrite merged_lookup_other by exact Hk'. now apply env_assign_name.
  - now apply IH.
Qed.

(** With [override], or when no key of the object is set yet, every entry
    is assigned. *)
Lemma merge_entries_ok override es : forall w,
  override = true
  \/ (NoDup (map fst es) /\ Forall (fun e => env w !! fst e = None) es) ->
  merge_entries String_ override es w
  = (Ok tt, mkWorld (fs w) (merged String_ es (env w)) (console w)).
Proof.
  induction es as [| [k v] rest IH]; intros w H.
  - destruct w. reflexivity.
  - cbn [merge_entries]. unfold bind at 1, getenv.
    assert (Hstep :
      (if bool_decide (is_Some (env w !! k))
       then (if negb override then throw (AlreadyExists k) else ret tt)
       else ret tt) = ret tt).
    { destruct H as [-> | [_ Hfree]].
      - now destruct (bool_decide _).
      - inversion Hfree as [| ? ? Hk _]; subst. simpl in Hk. rewrite Hk.
        rewrite bool_decide_eq_false_2; [reflexivity | intros [? [=]]]. }
    rewrite Hstep. unfold bind at 1, ret. unfold bind at 1, setenv.
    rewrite IH; [reflexivity |].
    destruct H as [-> | [Hnd Hfree]]; [now left | right].
    simpl in Hnd. apply NoDup_cons in Hnd. destruct Hnd as [Hk Hnd].
    split; [exact Hnd |].
    inversion Hfree as [| ? ? _ Hrest]; subst.
    rewrite Forall_forall in Hrest |- *. intros [k' v'] Hin. cbn [env fst].
    rewrite env_assign_other; [exact (Hrest _ Hin) |].
    intros <-. apply Hk. apply list_elem_of_fmap. now exists (k', v').
Qed.


(** X11: [mergeIntoProcessEnv] on an object whose keys the operating
    system takes as names and stores whole, as it does the texts of the
    values, with [override: true] or on keys that are all new: it
    succeeds, each entry reads back as the string of its value, and no
    other variable, no file and no console line changes. *)
Theorem mergeIntoProcessEnv_assigns object override es w :
  entries object = Ok es -> (exists a e ps, object = VObject a e ps) ->
  Forall (fun e => storable String_ e = true) es ->
  override = Some true
  \/ (NoDup (map fst es) /\ Forall (fun e => env w !! fst e = None) es) ->
  mergeIntoProcessEnv String_ object override w
  = (Ok tt, mkWorld (fs w) (merged String_ es (env w)) (console w))
  /\ (forall k v, NoDup (map fst es) -> (k, v) ∈ es ->
                  merged String_ es (env w) !! k = Some (String_ v))
  /\ (forall k, k ∉ map fst es -> merged String_ es (env w) !! k = env w !! k).
Proof.
  intros Hes (a & e & ps & ->) Hnames H. split; [| split].
  - unfold mergeIntoProcessEnv. unfold bind, lift. rewrite Hes.
    apply merge_entries_ok. destruct H as [-> | H]; [now left | now right].
  - intros k v Hnd Hin. apply merged_lookup; [exact Hnd | exact Hin |].
    rewrite Forall_forall in Hnames. specialize (Hnames _ Hin).
    unfold storable in Hnames. cbn [fst] in Hnames.
    now destruct (env_name_ok k).
  - intros k Hk. now apply merged_lookup_other.
Qed.


(** What is not an object is refused, and nothing changes. *)
Lemma mergeIntoProcessEnv_not_an_object object override w :
  (forall a e ps, object <> VObject a e ps) ->
  mergeIntoProcessEnv String_ object override w = (Throw NotAnObject, w).
Proof.
  intros H. destruct object; try reflexivity. now destruct (H isArray extensible props).
Qed.

End Merge.

End MergeFacts.

Example to_string_examples :
  ToString.of_value (num 8080) = str "8080"
  /\ ToString.of_value (VNumber (Dec (-25) (-1))) = str "-2.5"
  /\ ToString.of_value (VNumber (Dec 5 (-3))) = str "0.005"
  /\ ToString.of_value (Obj.array [num 1; VNull; VString (str "x")]) = str "1,,x"
  /\ ToString.of_value (Obj.literal []) = str "[object Object]".
Proof. repeat split; reflexivity. Qed.

Lemma mergeIntoProcessEnv_assigns_witness :
  mergeIntoProcessEnv ToString.of_value
    (VObject false true (parse_lines (str "PORT=8080 # comment" ++ [10%N] ++ str "NAME=x")))
    None (mkWorld ∅ {[ str "HOME" := str "/root" ]} [])
  = (Ok tt,
     mkWorld ∅
       (merged ToString.of_value [(str "PORT", num 8080); (str "NAME", VString (str "x"))]
          {[ str "HOME" := str "/root" ]}) [])
  /\ (forall k v,
        NoDup (map fst [(str "PORT", num 8080); (str "NAME", VString (str "x"))]) ->
        (k, v) ∈ [(str "PORT", num 8080); (str "NAME", VString (str "x"))] ->
        merged ToString.of_value [(str "PORT", num 8080); (str "NAME", VString (str "x"))]
          {[ str "HOME" := str "/root" ]} !! k = Some (ToString.of_value v))
  /\ (forall k,
        k ∉ map fst [(str "PORT", num 8080); (str "NAME", VString (str "x"))] ->
        merged ToString.of_value [(str "PORT", num 8080); (str "NAME", VString (str "x"))]
          {[ str "HOME" := str "/root" ]} !! k
        = ({[ str "HOME" := str "/root" ]} : gmap jsstring jsstring) !! k).
Proof.
  assert (Hnd : NoDup (map fst [(str "PORT", num 8080); (str "NAME", VString (str "x"))])).
  { apply (bool_decide_unpack _). vm_compute. exact I. }
  assert (Hfree : Forall (fun e => env (mkWorld ∅ {[ str "HOME" := str "/root" ]} [])
                                    !! fst e = None)
                    [(str "PORT", num 8080); (str "NAME", VString (str "x"))])
    by (repeat constructor).
  assert (Hnames : Forall (fun e => storable ToString.of_value e = true)
                     [(str "PORT", num 8080); (str "NAME", VString (str "x"))])
    by (repeat constructor).
  exact (MergeFacts.mergeIntoProcessEnv_assigns ToString.of_value
           (VObject false true
              (parse_lines (str "PORT=8080 # comment" ++ [10%N] ++ str "NAME=x")))
           None [(str "PORT", num 8080); (str "NAME", VString (str "x"))]
           (mkWorld ∅ {[ str "HOME" := str "/root" ]} [])
           eq_refl
           (ex_intro _ false (ex_intro _ true (ex_intro _ _ eq_refl)))
           Hnames
           (or_intror (conj Hnd Hfree))).
Defined.


(** ** loadEnvFile: its errors and its results *)

Module LoadFacts.

Section Load.

Context (P : Platform).

Lemma loadEnvFile_unfold filename encryptKey schema opts w :
  loadEnvFile P filename encryptKey schema opts w
  = let w0 := mkWorld (fs w) (env w) (console w ++ opening filename encryptKey) in
    let resolvedPath := path_resolve P filename in
    match fs w !! resolvedPath with
    | None => (Throw (Error (str "Configuration file not found: " ++ resolvedPath)), w0)
    | Some content =>
        bind
          (if falsy encryptKey then readFileSync_utf8 resolvedPath
           else
             let* ts := lift (TopSecret.set_key TopSecret.constructor
                                (default [] encryptKey)) in
             try_catch (TopSecret.decryptBufferFromFile P ts resolvedPath)
               (fun err =>
                  let message :=
                    str "Failed to decrypt file. (" ++ filename ++ str ")" in
                  let* _ := emit (Debug message) in
                  throw (Error message)))
          (finish_load filename schema opts) w0
    end.
Proof.
  unfold loadEnvFile, opening. unfold bind at 1, emit at 1.
  unfold bind at 1, emit at 1. unfold bind at 1, existsSync. cbn [fs env console].
  rewrite <- app_assoc. cbn [app].
  destruct (fs w !! path_resolve P filename) as [content |].
  - rewrite bool_decide_eq_true_2 by eauto. reflexivity.
  - rewrite bool_decide_eq_false_2 by (intros [? [=]]). reflexivity.
Qed.

(** X13: A file that is not there: the call throws before it reads anything,
    whatever the key, the schema and the options. *)
Theorem loadEnvFile_file_not_found filename encryptKey schema opts w :
  fs w !! path_resolve P filename = None ->
  loadEnvFile P filename encryptKey schema opts w
  = (Throw (Error (str "Configuration file not found: " ++ path_resolve P filename)),
     mkWorld (fs w) (env w) (console w ++ opening filename encryptKey)).
Proof. intros H. rewrite loadEnvFile_unfold. cbv zeta. now rewrite H. Qed.

(** The result of [finish_load] does not depend on the world. *)
Lemma finish_load_result filename schema opts raw w w' :
  fst (finish_load filename schema opts raw w)
  = fst (finish_load filename schema opts raw w').
Proof.
  unfold finish_load, bind, ret, throw, emit, lift.
  destruct schema as [validate |].
  - destruct (validate _) as [result errors].
    destruct (0 <? length errors)%nat; [reflexivity |].
    destruct (verbose opts); [| reflexivity].
    now destruct (entries result).
  - destruct (verbose opts); [| reflexivity].
    now destruct (entries _).
Qed.

(** X14: A key of the wrong length is refused by [set key], and that error
    reaches the caller as it is. *)
Theorem loadEnvFile_key_of_wrong_length filename key schema opts w content :
  fs w !! path_resolve P filename = Some content ->
  key <> [] -> length key <> 64 ->
  fst (loadEnvFile P filename (Some key) schema opts w) = Throw InvalidKeyLength_.
Proof.
  intros Hf Hne Hlen. rewrite loadEnvFile_unfold. cbv zeta. rewrite Hf.
  unfold falsy. rewrite (truthy_nonempty _ Hne). cbn [negb default]. unfold id.
  unfold bind, lift, TopSecret.set_key.
  apply Nat.eqb_neq in Hlen. rewrite Hlen, andb_false_r. reflexivity.
Qed.

(** X15: A file that the key does not decrypt: the call throws its own error,
    which names the file as the caller gave it. *)
Theorem loadEnvFile_decryption_fails filename key schema opts w content e :
  fs w !! path_resolve P filename = Some content ->
  length key = 64 ->
  TopSecret.decryptBuffer P (mkTopSecret (Some (Hex.decode key)) None) content
  = Throw e ->
  fst (loadEnvFile P filename (Some key) schema opts w)
  = Throw (Error (str "Failed to decrypt file. (" ++ filename ++ str ")")).
Proof.
  intros Hf Hlen Hdec. rewrite loadEnvFile_unfold. cbv zeta. rewrite Hf.
  assert (Hne : key <> []) by (intros ->; discriminate).
  unfold falsy. rewrite (truthy_nonempty _ Hne). cbn [negb default]. unfold id.
  unfold bind at 1. unfold bind at 1, lift at 1, TopSecret.set_key.
  rewrite (truthy_nonempty _ Hne), Hlen. cbn [Nat.eqb andb].
  unfold try_catch, TopSecret.decryptBufferFromFile, try_catch, bind, readFileSync,
    lift, emit, throw. cbn [fs TopSecret.constructor _password].
  rewrite Hf, Hdec. reflexivity.
Qed.

(** X16: Loading an encrypted file with its key gives what loading the
    plaintext gives: the same config or the same error, for every schema
    and every option. *)
Theorem loadEnvFile_encrypted_as_plaintext filename key iv content schema opts w w' :
  cipher_inverts P ->
  length key = 64 -> Hex.is_hex key = true -> length iv = 16 ->
  fs w !! path_resolve P filename
  = Some (iv ++ aes_256_cbc_encrypt P (Hex.decode key) iv content) ->
  fs w' !! path_resolve P filename = Some content ->
  fst (loadEnvFile P filename (Some key) schema opts w)
  = fst (loadEnvFile P filename None schema opts w').
Proof.
  intros Hinv Hlen Hhex Hiv Hf Hf'. rewrite !loadEnvFile_unfold. cbv zeta.
  rewrite Hf, Hf'.
  assert (Hne : key <> []) by (intros ->; discriminate).
  assert (Hk : length (Hex.decode key) = 32)
    by (apply KeyFacts.hex_decode_length; [lia | exact Hhex]).
  unfold falsy. rewrite (truthy_nonempty _ Hne). cbn [negb default]. unfold id.
  unfold bind at 1. unfold bind at 1, lift at 1, TopSecret.set_key.
  rewrite (truthy_nonempty _ Hne), Hlen. cbn [Nat.eqb andb].
  unfold try_catch, TopSecret.decryptBufferFromFile, try_catch.
  unfold bind at 1, readFileSync at 1. cbn [fs]. rewrite Hf. unfold lift at 1.
  cbn [TopSecret.constructor _password].
  rewrite (FileFacts.decryptBuffer_envelope P (mkTopSecret (Some (Hex.decode key)) None)
             (Hex.decode key) Hinv eq_refl Hk iv content Hiv).
  unfold bind at 1, readFileSync_utf8, bind at 1, readFileSync, ret. cbn [fs].
  rewrite Hf'. apply finish_load_result.
Qed.

(** X17: A plaintext file and a schema: any error of the schema makes the call
    throw the message that lists them all; no error makes it return the
    read-only copy of the validated map.  Without a schema the copy is of
    the parsed map. *)
Theorem loadEnvFile_validation filename schema b w content :
  fs w !! path_resolve P filename = Some content ->
  fst (loadEnvFile P filename None schema (mkOptions false b) w)
  = let rawValues := VObject false true (parse_lines (Utf8.decode content)) in
    match schema with
    | Some validate =>
        match snd (validate rawValues) with
        | [] => Ok (createReadOnlyObject (fst (validate rawValues)))
        | errors => Throw (Error (validation_message filename errors))
        end
    | None => Ok (createReadOnlyObject rawValues)
    end.
Proof.
  intros Hf. rewrite loadEnvFile_unfold. cbv zeta. rewrite Hf. cbn [falsy].
  unfold bind at 1, readFileSync_utf8, bind at 1, readFileSync, ret. cbn [fs].
  rewrite Hf. unfold finish_load, bind, ret, throw. cbn [verbose].
  destruct schema as [validate |]; [| reflexivity].
  destruct (validate _) as [result [| err errors]]; reflexivity.
Qed.

(** X18: The verbose listing does not change the result, as long as the schema
    returns a map; when it returns [undefined] with no error, the call
    returns [undefined] quietly and throws a [TypeError] with [verbose]. *)
Theorem loadEnvFile_verbose filename encryptKey schema b b' w :
  (returns_a_map schema ->
   fst (loadEnvFile P filename encryptKey schema (mkOptions true b) w)
   = fst (loadEnvFile P filename encryptKey schema (mkOptions false b') w))
  /\ (forall content,
        fs w !! path_resolve P filename = Some content ->
        fst (loadEnvFile P filename None (Some (fun _ => (VUndefined, [])))
               (mkOptions false b) w) = Ok VUndefined
        /\ fst (loadEnvFile P filename None (Some (fun _ => (VUndefined, [])))
                  (mkOptions true b) w) = Throw (NodeError TypeError)).
Proof.
  split.
  - intros Hmap. rewrite !loadEnvFile_unfold. cbv zeta.
    destruct (fs w !! path_resolve P filename) as [content |]; [| reflexivity].
    unfold bind.
    match goal with
    | |- context [let (_, _) := ?m ?x in _] => destruct (m x) as [[raw | e] w1]
    end; [| reflexivity].
    unfold finish_load, bind, ret, throw, emit, lift. cbn [verbose].
    destruct schema as [validate |]; [| reflexivity].
    specialize (Hmap (VObject false true (parse_lines raw))).
    destruct (validate _) as [result errors]. cbn [fst] in Hmap.
    destruct (0 <? length errors)%nat; [reflexivity |].
    destruct result; try reflexivity; destruct Hmap; congruence.
  - intros content Hf. rewrite !loadEnvFile_unfold. cbv zeta. rewrite Hf.
    cbn [falsy]. unfold readFileSync_utf8, bind, readFileSync, ret.
    cbn [fs]. rewrite Hf. split; reflexivity.
Qed.

(** X19: Loading reads: no call of [loadEnvFile] or of [loadEnvFiles] writes a
    file or sets a variable, whether it returns or throws. *)
Theorem loaders_write_nothing filename filemask encryptKey schema opts w :
  fs (snd (loadEnvFile P filename encryptKey schema opts w)) = fs w
  /\ env (snd (loadEnvFile P filename encryptKey schema opts w)) = env w
  /\ fs (snd (loadEnvFiles P filemask encryptKey schema opts w)) = fs w
  /\ env (snd (loadEnvFiles P filemask encryptKey schema opts w)) = env w.
Proof.
  rewrite (LoaderFacts.loadEnvFile_run P encryptKey schema opts w filename).
  split; [reflexivity |]. split; [reflexivity |].
  rewrite LoaderFacts.loadEnvFiles_unfold. cbv zeta.
  destruct (length _ =? 0)%nat; [split; reflexivity |].
  assert (Hco : forall files configs,
             console_only (load_each P files encryptKey schema opts configs)).
  { induction files as [| file rest IH]; intros configs; [apply ConsoleOnly.co_ret |].
    cbn [load_each]. apply ConsoleOnly.co_bind; [| intros; apply IH].
    apply ConsoleOnly.co_try_catch; [apply ConsoleOnly.co_loadEnvFile | intros e].
    apply ConsoleOnly.co_bind; [apply ConsoleOnly.co_emit | intros _].
    apply ConsoleOnly.co_bind; [apply ConsoleOnly.co_emit | intros _].
    apply ConsoleOnly.co_throw. }
  rewrite (ConsoleOnly.co_run _ _ (Hco _ _)). split; reflexivity.
Qed.

End Load.

End LoadFacts.

Lemma loadEnvFile_file_not_found_witness :
  loadEnvFile Reference.platform (str "missing.env") None None (mkOptions false false)
    Run.three_files
  = (Throw (Error (str "Configuration file not found: "
                   ++ path_resolve Reference.platform (str "missing.env"))),
     mkWorld (fs Run.three_files) (env Run.three_files)
       (console Run.three_files ++ opening (str "missing.env") None)).
Proof.
  apply (LoadFacts.loadEnvFile_file_not_found Reference.platform (str "missing.env")
           None None (mkOptions false false) Run.three_files).
  vm_compute. reflexivity.
Defined.

Lemma loadEnvFile_key_of_wrong_length_witness :
  fst (loadEnvFile Reference.platform (str "/app/a.env") (Some (str "short")) None
         (mkOptions false false) Run.three_files)
  = Throw InvalidKeyLength_.
Proof.
  apply (LoadFacts.loadEnvFile_key_of_wrong_length Reference.platform (str "/app/a.env")
           (str "short") None (mkOptions false false) Run.three_files
           (Run.envelope (str "A=1"))).
  - vm_compute. reflexivity.
  - discriminate.
  - simpl. lia.
Defined.

Lemma loadEnvFile_decryption_fails_witness :
  fst (loadEnvFile Reference.platform (str "/app/b.env") (Some Reference.key_hex) None
         (mkOptions false false) Run.three_files)
  = Throw (Error (str "Failed to decrypt file. (" ++ str "/app/b.env" ++ str ")")).
Proof.
  apply (LoadFacts.loadEnvFile_decryption_fails Reference.platform (str "/app/b.env")
           Reference.key_hex None (mkOptions false false) Run.three_files
           (str "oops") (NodeError InvalidIV)).
  - vm_compute. reflexivity.
  - reflexivity.
  - reflexivity.
Defined.

Lemma loadEnvFile_encrypted_as_plaintext_witness :
  fst (loadEnvFile Reference.platform (str "/app/a.env") (Some Reference.key_hex) None
         (mkOptions false false) Run.three_files)
  = fst (loadEnvFile Reference.platform (str "/app/a.env") None None
           (mkOptions false false)
           (mkWorld {[ str "/app/a.env" := str "A=1" ]} ∅ [])).
Proof.
  apply (LoadFacts.loadEnvFile_encrypted_as_plaintext Reference.platform
           (str "/app/a.env") Reference.key_hex Reference.iv0 (str "A=1")
           None (mkOptions false false) Run.three_files
           (mkWorld {[ str "/app/a.env" := str "A=1" ]} ∅ [])
           ReferenceFacts.reference_cipher_inverts).
  - reflexivity.
  - reflexivity.
  - reflexivity.
  - vm_compute. reflexivity.
  - vm_compute. reflexivity.
Defined.

Lemma loadEnvFile_validation_witness :
  fst (loadEnvFile Reference.platform (str "/app/.env") None
         (Some (fun raw => (raw, [(str "PORT", str "must be a number");
                                  (str "HOST", str "is required")])))
         (mkOptions false false)
         (mkWorld {[ str "/app/.env" := str "PORT=abc" ]} ∅ []))
  = Throw (Error (validation_message (str "/app/.env")
                    [(str "PORT", str "must be a number");
                     (str "HOST", str "is required")])).
Proof.
  apply (LoadFacts.loadEnvFile_validation Reference.platform (str "/app/.env")
           (Some (fun raw => (raw, [(str "PORT", str "must be a number");
                                    (str "HOST", str "is required")])))
           false (mkWorld {[ str "/app/.env" := str "PORT=abc" ]} ∅ [])
           (str "PORT=abc")).
  vm_compute. reflexivity.
Defined.

(** ** loadEncryptKey outside production *)

Module KeyFileModeFacts.


End KeyFileModeFacts.

(** ** UTF-8: decoding the encoded text *)

Module Utf16Facts.

Import Utf8.
Local Open Scope N_scope.

Lemma decode_ascii b0 r : b0 < 0x80 -> decode (b0 :: r) = b0 :: decode r.
Proof. intros H. simpl. destruct (N.ltb_spec b0 0x80); [reflexivity | lia]. Qed.

Lemma between_true lo hi c : lo <= c <= hi -> between lo hi c = true.
Proof. intros [H1 H2]. unfold between. apply andb_true_iff. split; now apply N.leb_le. Qed.

Lemma between_false lo hi c : c < lo \/ hi < c -> between lo hi c = false.
Proof.
  intros H. unfold between. apply andb_false_iff.
  destruct H; [left | right]; now apply N.leb_gt.
Qed.

Lemma decode_two b0 b1 r :
  0xC2 <= b0 <= 0xDF -> 0x80 <= b1 <= 0xBF ->
  decode (b0 :: b1 :: r) = (b0 - 0xC0) * 64 + (b1 - 0x80) :: decode r.
Proof.
  intros H0 H1. cbn [decode].
  destruct (N.ltb_spec b0 0x80); [lia |].
  rewrite (between_true 0xC2 0xDF b0 H0). unfold continuation.
  now rewrite (between_true 0x80 0xBF b1 H1).
Qed.

Lemma second_range b0 b1 :
  0x80 <= b1 <= 0xBF ->
  (b0 = 0xE0 -> 0xA0 <= b1) -> (b0 = 0xED -> b1 <= 0x9F) ->
  (b0 = 0xF0 -> 0x90 <= b1) -> (b0 = 0xF4 -> b1 <= 0x8F) ->
  between (second_low b0) (second_high b0) b1 = true.
Proof.
  intros H1 Ha Hb Hc Hd. apply between_true. unfold second_low, second_high.
  destruct (N.eqb_spec b0 0xE0), (N.eqb_spec b0 0xF0), (N.eqb_spec b0 0xED),
    (N.eqb_spec b0 0xF4); lia.
Qed.

Lemma decode_three b0 b1 b2 r :
  0xE0 <= b0 <= 0xEF -> 0x80 <= b1 <= 0xBF -> 0x80 <= b2 <= 0xBF ->
  (b0 = 0xE0 -> 0xA0 <= b1) -> (b0 = 0xED -> b1 <= 0x9F) ->
  decode (b0 :: b1 :: b2 :: r)
  = (b0 - 0xE0) * 4096 + (b1 - 0x80) * 64 + (b2 - 0x80) :: decode r.
Proof.
  intros H0 H1 H2 Ha Hb. cbn [decode].
  destruct (N.ltb_spec b0 0x80); [lia |].
  rewrite (between_false 0xC2 0xDF b0) by lia.
  rewrite (between_true 0xE0 0xEF b0 H0).
  rewrite (second_range b0 b1 H1 Ha Hb) by lia.
  unfold continuation. now rewrite (between_true 0x80 0xBF b2 H2).
Qed.

Lemma decode_four b0 b1 b2 b3 r :
  0xF0 <= b0 <= 0xF4 -> 0x80 <= b1 <= 0xBF -> 0x80 <= b2 <= 0xBF ->
  0x80 <= b3 <= 0xBF ->
  (b0 = 0xF0 -> 0x90 <= b1) -> (b0 = 0xF4 -> b1 <= 0x8F) ->
  decode (b0 :: b1 :: b2 :: b3 :: r)
  = surrogates ((b0 - 0xF0) * 262144 + (b1 - 0x80) * 4096
                + (b2 - 0x80) * 64 + (b3 - 0x80)) ++ decode r.
Proof.
  intros H0 H1 H2 H3 Ha Hb. cbn [decode].
  destruct (N.ltb_spec b0 0x80); [lia |].
  rewrite (between_false 0xC2 0xDF b0) by lia.
  rewrite (between_false 0xE0 0xEF b0) by lia.
  rewrite (between_true 0xF0 0xF4 b0 H0).
  rewrite (second_range b0 b1 H1) by (assumption || lia).
  unfold continuation.
  now rewrite (between_true 0x80 0xBF b2 H2), (between_true 0x80 0xBF b3 H3).
Qed.

Lemma bytes_of_two c :
  0x80 <= c < 0x800 ->
  0xC2 <= 0xC0 + c / 64 <= 0xDF /\ 0x80 <= 0x80 + c mod 64 <= 0xBF
  /\ (0xC0 + c / 64 - 0xC0) * 64 + (0x80 + c mod 64 - 0x80) = c.
Proof.
  intros H. pose proof (N.Div0.div_mod c 64) as Hdm.
  pose proof (N.mod_lt c 64 ltac:(lia)) as Hlt.
  set (q := c / 64) in *. set (r := c mod 64) in *. clearbody q r. lia.
Qed.

Lemma bytes_of_three c :
  0x800 <= c < 0x10000 -> c < 0xD800 \/ 0xDFFF < c ->
  let b0 := 0xE0 + c / 4096 in
  let b1 := 0x80 + (c / 64) mod 64 in
  let b2 := 0x80 + c mod 64 in
  0xE0 <= b0 <= 0xEF /\ 0x80 <= b1 <= 0xBF /\ 0x80 <= b2 <= 0xBF
  /\ (b0 = 0xE0 -> 0xA0 <= b1) /\ (b0 = 0xED -> b1 <= 0x9F)
  /\ (b0 - 0xE0) * 4096 + (b1 - 0x80) * 64 + (b2 - 0x80) = c.
Proof.
  intros H Hs. cbv zeta.
  replace (c / 4096) with (c / 64 / 64) by (rewrite N.Div0.div_div; reflexivity).
  pose proof (N.Div0.div_mod c 64) as Hdm.
  pose proof (N.mod_lt c 64 ltac:(lia)) as Hlt.
  pose proof (N.Div0.div_mod (c / 64) 64) as Hdm2.
  pose proof (N.mod_lt (c / 64) 64 ltac:(lia)) as Hlt2.
  set (q1 := c / 64) in *. set (r1 := c mod 64) in *.
  set (q2 := q1 / 64) in *. set (r2 := q1 mod 64) in *.
  clearbody q2 r2. clearbody q1 r1. lia.
Qed.

Lemma bytes_of_pair hi lo :
  0xD800 <= hi <= 0xDBFF -> 0xDC00 <= lo <= 0xDFFF ->
  let cp := 0x10000 + (hi - 0xD800) * 1024 + (lo - 0xDC00) in
  let b0 := 0xF0 + cp / 262144 in
  let b1 := 0x80 + (cp / 4096) mod 64 in
  let b2 := 0x80 + (cp / 64) mod 64 in
  let b3 := 0x80 + cp mod 64 in
  0xF0 <= b0 <= 0xF4 /\ 0x80 <= b1 <= 0xBF /\ 0x80 <= b2 <= 0xBF
  /\ 0x80 <= b3 <= 0xBF
  /\ (b0 = 0xF0 -> 0x90 <= b1) /\ (b0 = 0xF4 -> b1 <= 0x8F)
  /\ (b0 - 0xF0) * 262144 + (b1 - 0x80) * 4096 + (b2 - 0x80) * 64 + (b3 - 0x80) = cp
  /\ surrogates cp = [hi; lo].
Proof.
  intros Hhi Hlo. cbv zeta.
  set (cp := 0x10000 + (hi - 0xD800) * 1024 + (lo - 0xDC00)).
  assert (Hcp : 0x10000 <= cp <= 0x10FFFF) by (subst cp; lia).
  assert (Hs : surrogates cp = [hi; lo]).
  { unfold surrogates.
    destruct (Utf8Facts.div_mod_unique (cp - 0x10000) 1024 (hi - 0xD800) (lo - 0xDC00))
      as [-> ->]; [lia | subst cp; lia |].
    f_equal; [lia | f_equal; lia]. }
  rewrite Hs. clear Hs.
  replace (cp / 262144) with (cp / 64 / 64 / 64)
    by (rewrite !N.Div0.div_div; reflexivity).
  replace (cp / 4096) with (cp / 64 / 64) by (rewrite N.Div0.div_div; reflexivity).
  pose proof (N.Div0.div_mod cp 64) as Hdm.
  pose proof (N.mod_lt cp 64 ltac:(lia)) as Hlt.
  pose proof (N.Div0.div_mod (cp / 64) 64) as Hdm2.
  pose proof (N.mod_lt (cp / 64) 64 ltac:(lia)) as Hlt2.
  pose proof (N.Div0.div_mod (cp / 64 / 64) 64) as Hdm3.
  pose proof (N.mod_lt (cp / 64 / 64) 64 ltac:(lia)) as Hlt3.
  clearbody cp.
  set (q1 := cp / 64) in *. set (r1 := cp mod 64) in *.
  set (q2 := q1 / 64) in *. set (r2 := q1 mod 64) in *.
  set (q3 := q2 / 64) in *. set (r3 := q2 mod 64) in *.
  clearbody q3 r3. clearbody q2 r2. clearbody q1 r1.
  repeat split; try lia.
Qed.

Lemma decode_encode_bounded n : forall s,
  (length s <= n)%nat -> utf16_well_formed s = true -> decode (encode s) = s.
Proof.
  induction n as [| n IH]; intros [| c r] Hlen Hwf; try reflexivity;
    [simpl in Hlen; lia |].
  simpl in Hlen. cbn [utf16_well_formed] in Hwf.
  destruct (N.ltb_spec c 0xD800) as [Hc | Hc].
  - (* below the surrogates: one, two or three bytes *)
    destruct (N.ltb_spec c 0x80) as [H1 | H1].
    { rewrite Utf8Facts.encode_ascii, decode_ascii by exact H1.
      f_equal. apply IH; [lia | exact Hwf]. }
    destruct (N.ltb_spec c 0x800) as [H2 | H2].
    { rewrite Utf8Facts.encode_two by lia.
      destruct (bytes_of_two c ltac:(lia)) as (R0 & R1 & Hv).
      rewrite decode_two, Hv by assumption.
      f_equal. apply IH; [lia | exact Hwf]. }
    rewrite Utf8Facts.encode_three by lia.
    destruct (bytes_of_three c ltac:(lia) ltac:(lia)) as (R0 & R1 & R2 & Ha & Hb & Hv).
    rewrite decode_three, Hv by assumption.
    f_equal. apply IH; [lia | exact Hwf].
  - destruct (N.leb_spec c 0xDBFF) as [Hh | Hh].
    + (* a surrogate pair: four bytes *)
      destruct r as [| lo r']; [discriminate |].
      apply andb_true_iff in Hwf. destruct Hwf as [Hlo Hwf].
      assert (Rlo : 0xDC00 <= lo <= 0xDFFF).
      { unfold between in Hlo. apply andb_true_iff in Hlo.
        destruct Hlo as [L H]. apply N.leb_le in L, H. lia. }
      rewrite Utf8Facts.encode_pair by lia. cbv zeta.
      destruct (bytes_of_pair c lo ltac:(lia) Rlo)
        as (R0 & R1 & R2 & R3 & Ha & Hb & Hv & Hs).
      rewrite decode_four, Hv, Hs by assumption.
      cbn [app]. do 2 f_equal. apply IH; [simpl in Hlen; lia | exact Hwf].
    + destruct (N.leb_spec c 0xDFFF) as [Hl | Hl]; [discriminate |].
      apply andb_true_iff in Hwf. destruct Hwf as [Hmax Hwf].
      apply N.ltb_lt in Hmax.
      rewrite Utf8Facts.encode_three by lia.
      destruct (bytes_of_three c ltac:(lia) ltac:(lia))
        as (R0 & R1 & R2 & Ha & Hb & Hv).
      rewrite decode_three, Hv by assumption.
      f_equal. apply IH; [lia | exact Hwf].
Qed.

(** A well-formed string is the decoding of its UTF-8 bytes. *)
Lemma utf8_decode_encode s : utf16_well_formed s = true -> decode (encode s) = s.
Proof. apply (decode_encode_bounded (length s)). lia. Qed.

End Utf16Facts.

(** ** JSON through the cipher *)

Module JsonFacts.

Import TopSecret.

Section WithKey.

Context (P : Platform) (this : TopSecret) (key : bytes).
Context (Hinv : cipher_inverts P) (Hkey : _key this = Some key)
  (Hk : length key = 32).

(** The buffer that [encryptJSON] encrypts, for a value that has a text. *)
Lemma json_buffer_text data :
  data <> VUndefined -> json_buffer P data = Ok (Utf8.encode (JSON_stringify P data)).
Proof. destruct data; [congruence | reflexivity ..]. Qed.

Lemma encryptJSON_text iv data :
  length iv = 16 -> data <> VUndefined ->
  encryptJSON P this iv data
  = Ok (base64_encode P
          (iv ++ aes_256_cbc_encrypt P key iv (Utf8.encode (JSON_stringify P data)))).
Proof using Hkey Hk.
  intros Hiv Hdata. unfold encryptJSON.
  now rewrite Hkey, (json_buffer_text data Hdata),
    (FileFacts.encryptBuffer_ok P this key Hkey Hk iv _ Hiv).
Qed.

Lemma json_round_trip_text iv data :
  length iv = 16 -> data <> VUndefined ->
  utf16_well_formed (JSON_stringify P data) = true ->
  (forall envelope,
      encryptBuffer P this iv (Utf8.encode (JSON_stringify P data)) = Ok envelope ->
      base64_decode P (base64_encode P envelope) = envelope) ->
  json_round_trip P this iv data = JSON_parse (JSON_stringify P data).
Proof using Hinv Hkey Hk.
  intros Hiv Hdata Hwf H64. unfold json_round_trip.
  rewrite (encryptJSON_text iv data Hiv Hdata). unfold decryptJSON. rewrite Hkey.
  rewrite (H64 _ (FileFacts.encryptBuffer_ok P this key Hkey Hk iv _ Hiv)).
  rewrite (FileFacts.decryptBuffer_envelope P this key Hinv Hkey Hk iv _ Hiv).
  now rewrite (Utf16Facts.utf8_decode_encode _ Hwf).
Qed.

(** X21: with key material, [encryptJSON] of [undefined] throws the
    [TypeError] of [Buffer.from], since [JSON.stringify] has no text for
    it; for every other value, [decryptJSON] of what [encryptJSON] returns
    parses the text that [JSON.stringify] made of the value, as long as
    base64 gives the envelope back. *)
Theorem decryptJSON_of_encryptJSON iv data :
  length iv = 16 ->
  json_round_trip P this iv VUndefined = Throw (NodeError TypeError)
  /\ (data <> VUndefined ->
      utf16_well_formed (JSON_stringify P data) = true ->
      (forall envelope,
          encryptBuffer P this iv (Utf8.encode (JSON_stringify P data)) = Ok envelope ->
          base64_decode P (base64_encode P envelope) = envelope) ->
      json_round_trip P this iv data = JSON_parse (JSON_stringify P data)).
Proof using Hinv Hkey Hk.
  intros Hiv. split.
  - unfold json_round_trip, encryptJSON. now rewrite Hkey.
  - now apply json_round_trip_text.
Qed.

(** X22: with key material, [encryptJSONToFile] of [undefined] throws the
    [TypeError] of [Buffer.from] and writes nothing; for every other
    value, [encryptJSONToFile] and then [decryptJSONFromFile]: the file
    holds the envelope, nothing is logged, and the value read is the parse
    of the text that [JSON.stringify] made. *)
Theorem decryptJSONFromFile_of_encryptJSONToFile iv data filename w :
  length iv = 16 ->
  encryptJSONToFile P this iv VUndefined filename w = (Throw (NodeError TypeError), w)
  /\ (data <> VUndefined ->
      utf16_well_formed (JSON_stringify P data) = true ->
      exists w1,
        encryptJSONToFile P this iv data filename w = (Ok tt, w1)
        /\ fs w1
           = <[filename := iv ++ aes_256_cbc_encrypt P key iv
                                   (Utf8.encode (JSON_stringify P data))]> (fs w)
        /\ decryptJSONFromFile P this filename w1
           = (JSON_parse (JSON_stringify P data), w1)
        /\ env w1 = env w /\ console w1 = console w).
Proof using Hinv Hkey Hk.
  intros Hiv. split.
  - unfold encryptJSONToFile. rewrite Hkey. reflexivity.
  - intros Hdata Hwf.
    set (envelope := iv ++ aes_256_cbc_encrypt P key iv
                             (Utf8.encode (JSON_stringify P data))).
    exists (mkWorld (<[filename := envelope]> (fs w)) (env w) (console w)).
    split; [| split; [reflexivity | split; [| split; reflexivity]]].
    + unfold encryptJSONToFile. rewrite Hkey. unfold bind, lift, writeFileSync.
      now rewrite (json_buffer_text data Hdata),
        (FileFacts.encryptBuffer_ok P this key Hkey Hk iv _ Hiv).
    + unfold decryptJSONFromFile, decryptBufferFromFile, try_catch, bind, readFileSync,
        lift. cbn [fs]. rewrite lookup_insert_eq. unfold envelope.
      rewrite (FileFacts.decryptBuffer_envelope P this key Hinv Hkey Hk iv _ Hiv).
      now rewrite (Utf16Facts.utf8_decode_encode _ Hwf).
Qed.

End WithKey.

Lemma decryptJSON_of_encryptJSON_witness :
  json_round_trip text_platform
    (mkTopSecret (Some (Hex.decode Reference.key_hex)) None) Reference.iv0
    sample
  = JSON_parse (JSON_stringify text_platform sample).
Proof.
  apply (decryptJSON_of_encryptJSON text_platform
           (mkTopSecret (Some (Hex.decode Reference.key_hex)) None)
           (Hex.decode Reference.key_hex)
           ReferenceFacts.reference_cipher_inverts eq_refl eq_refl
           Reference.iv0 sample eq_refl).
  - discriminate.
  - reflexivity.
  - intros envelope [= <-]. vm_compute. reflexivity.
Defined.

Lemma decryptJSONFromFile_of_encryptJSONToFile_witness :
  exists w1,
    encryptJSONToFile text_platform
      (mkTopSecret (Some (Hex.decode Reference.key_hex)) None) Reference.iv0
      sample (str "/app/data.enc") Reference.empty_world
    = (Ok tt, w1)
    /\ fs w1
       = <[str "/app/data.enc"
           := Reference.iv0
              ++ aes_256_cbc_encrypt text_platform (Hex.decode Reference.key_hex)
                   Reference.iv0 (Utf8.encode (JSON_stringify text_platform sample))]>
           (fs Reference.empty_world)
    /\ decryptJSONFromFile text_platform
         (mkTopSecret (Some (Hex.decode Reference.key_hex)) None)
         (str "/app/data.enc") w1
       = (JSON_parse (JSON_stringify text_platform sample),
          w1)
    /\ env w1 = env Reference.empty_world /\ console w1 = console Reference.empty_world.
Proof.
  apply (decryptJSONFromFile_of_encryptJSONToFile text_platform
           (mkTopSecret (Some (Hex.decode Reference.key_hex)) None)
           (Hex.decode Reference.key_hex)
           ReferenceFacts.reference_cipher_inverts eq_refl eq_refl
           Reference.iv0 sample (str "/app/data.enc")
           Reference.empty_world eq_refl).
  - discriminate.
  - reflexivity.
Defined.

End JsonFacts.

(** ** Saving and loading *)

Module SaveFacts.

Import TopSecret.

Section WithKey.

Context (P : Platform) (this : TopSecret) (key : bytes).
Context (Hinv : cipher_inverts P) (Hkey : _key this = Some key)
  (Hk : length key = 32).

(** X23: [saveBufferToFile] and then [decryptBufferFromFile]: the text of the
    buffer comes back, and nothing is logged. *)
Theorem decryptBufferFromFile_of_saveBufferToFile iv filename buffer w :
  length iv = 16 ->
  exists w1,
    saveBufferToFile P this iv filename buffer w = (Ok tt, w1)
    /\ decryptBufferFromFile P this filename w1 = (Ok (Utf8.decode buffer), w1)
    /\ env w1 = env w /\ console w1 = console w.
Proof using Hinv Hkey Hk.
  intros Hiv.
  exists (mkWorld (<[filename := iv ++ aes_256_cbc_encrypt P key iv buffer]> (fs w))
            (env w) (console w)).
  split; [| split; [| split; reflexivity]].
  - unfold saveBufferToFile, try_catch, bind, lift, writeFileSync.
    now rewrite (FileFacts.encryptBuffer_ok P this key Hkey Hk iv _ Hiv).
  - unfold decryptBufferFromFile, try_catch, bind, readFileSync, lift. cbn [fs].
    rewrite lookup_insert_eq.
    now rewrite (FileFacts.decryptBuffer_envelope P this key Hinv Hkey Hk iv _ Hiv).
Qed.

(** X24: with key material, [saveJSONToFile] of [undefined] (for which
    [JSON.stringify] has no text) catches the [TypeError] of
    [Buffer.from], logs it, throws its own error and writes nothing; for
    every other value, [saveJSONToFile] and then [loadJSONFromFile]: the
    value read is the one the text of [JSON.stringify] parses to, as long
    as base64 gives the envelope back and its text is well-formed. *)
Theorem loadJSONFromFile_of_saveJSONToFile iv filename data v w :
  length iv = 16 ->
  saveJSONToFile P this iv filename VUndefined w
  = (Throw (Error (str "Failed to save JSON to file.")),
     logged w (str "Failed to save JSON to file:") (NodeError TypeError))
  /\ (data <> VUndefined ->
      utf16_well_formed (JSON_stringify P data) = true ->
      JSON_parse (JSON_stringify P data) = Ok v ->
      (forall envelope,
          encryptBuffer P this iv (Utf8.encode (JSON_stringify P data)) = Ok envelope ->
          base64_decode P (base64_encode P envelope) = envelope
          /\ utf16_well_formed (base64_encode P envelope) = true) ->
      exists w1,
        saveJSONToFile P this iv filename data w = (Ok tt, w1)
        /\ loadJSONFromFile P this filename w1 = (Ok v, w1)
        /\ env w1 = env w /\ console w1 = console w).
Proof using Hinv Hkey Hk.
  intros Hiv. split.
  { unfold saveJSONToFile, try_catch, bind, lift, emit, throw, logged, encryptJSON.
    now rewrite Hkey. }
  intros Hdata Hwf Hparse H64.
  pose proof (FileFacts.encryptBuffer_ok P this key Hkey Hk iv
                (Utf8.encode (JSON_stringify P data)) Hiv) as Henc.
  destruct (H64 _ Henc) as [Hback Htext].
  pose proof (JsonFacts.json_round_trip_text P this key Hinv Hkey Hk iv data
                Hiv Hdata Hwf (fun e He => proj1 (H64 e He))) as Hjson.
  unfold json_round_trip in Hjson.
  pose proof (JsonFacts.encryptJSON_text P this key Hkey Hk iv data Hiv Hdata) as Hej.
  rewrite Hej in Hjson.
  eexists. split; [| split; [| split]].
  - unfold saveJSONToFile, try_catch, bind, lift, writeFileSync. rewrite Hej.
    reflexivity.
  - unfold loadJSONFromFile, try_catch, readFileSync_utf8, bind, readFileSync, ret,
      lift. cbn [fs]. rewrite lookup_insert_eq.
    now rewrite (Utf16Facts.utf8_decode_encode _ Htext), Hjson, Hparse.
  - reflexivity.
  - reflexivity.
Qed.

End WithKey.

Lemma decryptBufferFromFile_of_saveBufferToFile_witness :
  exists w1,
    saveBufferToFile Reference.platform
      (mkTopSecret (Some (Hex.decode Reference.key_hex)) None) Reference.iv0
      (str "/app/.env.enc") (str "A=1") Reference.empty_world = (Ok tt, w1)
    /\ decryptBufferFromFile Reference.platform
         (mkTopSecret (Some (Hex.decode Reference.key_hex)) None)
         (str "/app/.env.enc") w1 = (Ok (Utf8.decode (str "A=1")), w1)
    /\ env w1 = env Reference.empty_world /\ console w1 = console Reference.empty_world.
Proof.
  apply (decryptBufferFromFile_of_saveBufferToFile Reference.platform
           (mkTopSecret (Some (Hex.decode Reference.key_hex)) None)
           (Hex.decode Reference.key_hex)
           ReferenceFacts.reference_cipher_inverts eq_refl eq_refl
           Reference.iv0 (str "/app/.env.enc") (str "A=1") Reference.empty_world).
  reflexivity.
Defined.

Lemma loadJSONFromFile_of_saveJSONToFile_witness :
  exists w1,
    saveJSONToFile text_platform
      (mkTopSecret (Some (Hex.decode Reference.key_hex)) None) Reference.iv0
      (str "/app/data.json.enc") sample Reference.empty_world
    = (Ok tt, w1)
    /\ loadJSONFromFile text_platform
         (mkTopSecret (Some (Hex.decode Reference.key_hex)) None)
         (str "/app/data.json.enc") w1
       = (Ok sample, w1)
    /\ env w1 = env Reference.empty_world /\ console w1 = console Reference.empty_world.
Proof.
  apply (loadJSONFromFile_of_saveJSONToFile text_platform
           (mkTopSecret (Some (Hex.decode Reference.key_hex)) None)
           (Hex.decode Reference.key_hex)
           ReferenceFacts.reference_cipher_inverts eq_refl eq_refl
           Reference.iv0 (str "/app/data.json.enc") sample
           sample Reference.empty_world eq_refl).
  - discriminate.
  - reflexivity.
  - reflexivity.
  - intros envelope [= <-]. split; vm_compute; reflexivity.
Defined.

End SaveFacts.

(** ** Carriage returns *)

Module LineEndFacts.

Import JsString.

Lemma trimStart_spaces s : forallb is_space s = true -> trimStart s = [].
Proof.
  induction s as [| c r IH]; [reflexivity |]. simpl.
  intros H. apply andb_true_iff in H. destruct H as [Hc Hr]. rewrite Hc. now apply IH.
Qed.

Lemma trimStart_app s t :
  forallb is_space s = false -> trimStart (s ++ t) = trimStart s ++ t.
Proof.
  induction s as [| c r IH]; [discriminate |]. simpl.
  destruct (is_space c); [exact IH | reflexivity].
Qed.

(** White space at the end of a line does not survive [trim]. *)
Lemma trim_snoc_space s c : is_space c = true -> trim (s ++ [c]) = trim s.
Proof.
  intros Hc. unfold trim, trimEnd.
  destruct (forallb is_space s) eqn:E.
  - rewrite (trimStart_spaces s E), (trimStart_spaces (s ++ [c])); [reflexivity |].
    rewrite forallb_app, E. simpl. now rewrite Hc.
  - rewrite (trimStart_app s [c] E), rev_app_distr. simpl. now rewrite Hc.
Qed.

Lemma strip_cr_cases l :
  strip_cr l = l \/ exists r, l = r ++ [13%N] /\ strip_cr l = r.
Proof.
  unfold strip_cr. destruct (rev l) as [| c r] eqn:E; [now left |].
  destruct (N.eq_dec c 13%N) as [-> | Hne].
  - right. exists (rev r). split; [| reflexivity].
    rewrite <- (rev_involutive l), E. reflexivity.
  - left.
    destruct c as [| [[[[p|p|]|[p|p|]|]|[[p|p|]|[p|p|]|]|]
                       |[[[p|p|]|[p|p|]|]|[[p|p|]|[p|p|]|]|]|]];
      try reflexivity; congruence.
Qed.

Lemma parse_line_strip_cr rawValues l :
  parse_line rawValues (strip_cr l) = parse_line rawValues l.
Proof.
  destruct (strip_cr_cases l) as [-> | (r & -> & ->)]; [reflexivity |].
  unfold parse_line. now rewrite (trim_snoc_space r 13%N eq_refl).
Qed.

Lemma fold_strip_cr lines : forall rawValues,
  fold_left parse_line (strip_cr_but_last lines) rawValues
  = fold_left parse_line lines rawValues.
Proof.
  induction lines as [| l [| l' rest] IH]; intros rawValues; try reflexivity.
  cbn [strip_cr_but_last fold_left]. rewrite parse_line_strip_cr. apply IH.
Qed.

(** X4: The raw map does not depend on carriage returns before newlines:
    cutting the text at newlines alone gives the same map (the same own
    properties, and the same [rawValues] altogether), since every line is
    trimmed. *)
Theorem parse_lines_carriage_returns raw :
  parse_lines raw = Obj.own (fold_left parse_line (split 10 raw) Obj.fresh)
  /\ parse_state raw = fold_left parse_line (split 10 raw) Obj.fresh.
Proof.
  unfold parse_lines, parse_state, split_lines. rewrite fold_strip_cr. now split.
Qed.

End LineEndFacts.

Example text_platform_examples :
  Base64.encode (str "Man") = str "TWFu"
  /\ Base64.encode (str "Ma") = str "TWE="
  /\ Base64.encode (str "M") = str "TQ=="
  /\ Base64.decode (str "TWFu TWE=") = str "ManMa"
  /\ JsonText.stringify sample
     = dq "{'PORT':8080,'NAME':'a \'b\'','TAGS':[true,null,2.5]}"
  /\ Json.parse (JsonText.stringify sample) = Some sample.
Proof. repeat split; reflexivity. Qed.
